(** * VibeAny billing ledger: a shallow embedding of
      [app/services/billing_service.py] and [app/services/usage_service.py]

    The SQLAlchemy session is modelled by explicit state passing.  A table is
    the list of its rows in storage order; a mapped object is identified by
    its position in that list, so that mutating an attribute of an object
    returned by a query is an in-place update of the row ([<[i:=row]>]).
    The session carries two copies of the tables: [live], what the queries of
    the session observe (pending and flushed changes included), and
    [durable], the state of the last [commit].

    What is abstracted, and how:
    - [datetime.utcnow()] is read once per service call ([Env.utcnow]), as a
      number of seconds; [timedelta(days=n)] is [n * 86400];
    - [strftime("%Y-%m-%d")] is the day number [utcnow / 86400], which
      identifies the calendar day exactly as the formatted string does;
    - [uuid4()] is the stream [Env.uuid4], with one position for each row
      a call can create; [datetime.isoformat] is [Env.isoformat];
    - Python integers are [Z]; a [Decimal] is the rational it denotes, and
      so is a finite [float], whose arithmetic rounds to binary64
      ([float_round]);
    - primary keys are unique, so a join on [Allowance.id] is a lookup;
    - the unique constraints of [app/models/billing.py] on [plans],
      [user_subscriptions] and [allowances] are enforced where
      [ensure_default_plans], [activate_plan] and [grant_allowance] write a
      row: the statement that writes a row holding the key of another row
      fails with [IntegrityError].  The model raises it where the row is
      written, the session raises it at the flush that follows.  A failed
      flush leaves the session unusable until the caller rolls it back;
      [live] is then kept as it was when the exception was raised, and
      [db_rollback] restores the last commit;
    - widths are not enforced: a column holds the value assigned to it
      exactly.  SQLite refuses an integer beyond 64 bits when the row is
      flushed; where a caller chooses the value stored, the properties are
      stated for values within [INTEGER_MAX];
    - a mapped class has the attributes its declaration lists: a keyword
      or an attribute that is not among them is refused with [TypeError]
      or [AttributeError], as the declarative constructor and Python do;
    - free-form JSON metadata is reduced to the keys the services read or
      write. *)

From Stdlib Require Import ZArith QArith Lia Ascii String List Sorted.
From stdpp Require Import base list sorting strings pretty.

Close Scope Q_scope.
Local Open Scope Z_scope.

(** ** Enumerations of [app/models/billing.py] *)

Definition Id := string.
Definition datetime := Z.

Inductive AllowanceType := BC | RC | USAGE.
Inductive AllowanceWindow := DAILY | MONTHLY | YEARLY.
Inductive RolloverPolicy := NONE | ONE_CYCLE | ANNUAL.
Inductive SubscriptionStatus := TRIALING | ACTIVE | PAST_DUE | CANCELED.
Inductive OverageChargeStatus := PENDING | INVOICED | PAID | WAIVED.
Inductive PlanSharedMode := SHARED_POOL | HYBRID.

Definition AllowanceType_value (t : AllowanceType) : string :=
  match t with BC => "BC" | RC => "RC" | USAGE => "Usage" end.

Definition AllowanceType_eqb (a b : AllowanceType) : bool :=
  match a, b with
  | BC, BC | RC, RC | USAGE, USAGE => true
  | _, _ => false
  end.

Definition RolloverPolicy_eqb (a b : RolloverPolicy) : bool :=
  match a, b with
  | NONE, NONE | ONE_CYCLE, ONE_CYCLE | ANNUAL, ANNUAL => true
  | _, _ => false
  end.

Definition timedelta_days (n : Z) : Z := n * 86400.

(** ** Mapped classes *)

Module User.
Record t := { id : Id }.
End User.

Module Plan.
Record t := {
  id : Id;
  name : string;
  bc_monthly : Z;
  rc_monthly : Z;
  usage_bonus_rate : option Q;
  trial_days : Z;
  shared_mode : PlanSharedMode;
  payg_enabled : bool;
  is_active : bool
}.
End Plan.

Module Allowance.
Record t := {
  id : Id;
  user_id : Id;
  plan_id : option Id;
  type : AllowanceType;
  total : Z;
  used : Z;
  window : AllowanceWindow;
  rollover_policy : RolloverPolicy;
  expires_at : option datetime;
  source : option string;
  created_at : datetime
}.

Definition set_used (a : t) (v : Z) : t :=
  {| id := id a; user_id := user_id a; plan_id := plan_id a; type := type a;
     total := total a; used := v; window := window a;
     rollover_policy := rollover_policy a; expires_at := expires_at a;
     source := source a; created_at := created_at a |}.

(** The four assignments at the end of [_upsert_allowance]. *)
Definition reseed (a : t) (new_total : Z) (p : RolloverPolicy)
    (e : datetime) : t :=
  {| id := id a; user_id := user_id a; plan_id := plan_id a; type := type a;
     total := new_total; used := 0; window := window a;
     rollover_policy := p; expires_at := Some e;
     source := source a; created_at := created_at a |}.
End Allowance.

Module RolloverBucket.
Record t := {
  id : Id;
  user_id : Id;
  allowance_id : Id;
  remain : Z;
  expires_at : option datetime;
  created_at : datetime
}.

Definition set_remain (b : t) (v : Z) : t :=
  {| id := id b; user_id := user_id b; allowance_id := allowance_id b;
     remain := v; expires_at := expires_at b; created_at := created_at b |}.
End RolloverBucket.

Module UserSubscription.
Record t := {
  id : Id;
  user_id : Id;
  plan_id : Id;
  status : SubscriptionStatus;
  payg_enabled : bool;
  is_primary : bool;
  current_period_start : datetime;
  current_period_end : option datetime;
  trial_ends_at : option datetime;
  (* metadata_json, keys "autofix_limit" and "source" *)
  autofix_limit : option Z;
  source : option string;
  created_at : datetime
}.
End UserSubscription.

Module ConsumptionEvent.
Record t := {
  id : Id;
  user_id : Id;
  allowance_id : option Id;
  type : string;
  amount : Z;
  complexity_score : Z;
  action_hash : string;
  (* metadata_json, the keys written by [_log_consumption_event] *)
  allowance_type : string;
  autofix_applied : bool;
  payg_charge_id : option Id;
  created_at : datetime
}.
End ConsumptionEvent.

Module OverageCharge.
Record t := {
  id : Id;
  user_id : Id;
  metric : string;
  amount : Z;
  status : OverageChargeStatus;
  (* metadata_json, key "action" *)
  action : string;
  generated_at : datetime
}.
End OverageCharge.

Module AllowanceDailyAutofix.
Record t := {
  id : Id;
  user_id : Id;
  date_key : Z;
  consumed : Z;
  limit : Z
}.

Definition set_consumed (r : t) (v : Z) : t :=
  {| id := id r; user_id := user_id r; date_key := date_key r;
     consumed := v; limit := limit r |}.
End AllowanceDailyAutofix.

Module UsageMeterReading.
Record t := {
  id : Id;
  user_id : Id;
  workspace_id : string;
  metric : string;
  value : Q;
  period : string;
  window_start : datetime;
  window_end : datetime
}.
End UsageMeterReading.

Module UsageSummary.
Record t := {
  id : Id;
  user_id : Id;
  workspace_id : string;
  metric : string;
  period : string;
  value : Q
}.

Definition set_value (s : t) (v : Q) : t :=
  {| id := id s; user_id := user_id s; workspace_id := workspace_id s;
     metric := metric s; period := period s; value := v |}.
End UsageSummary.

(** [BillingConfig] of [app/core/billing_config.py], the fields the two
    services read. *)
Record BillingConfig := {
  auto_fix_daily_limit : Z;
  default_usage_bonus : Q;
  free_daily_bc : Z
}.

Definition DEFAULT_CONFIG : BillingConfig :=
  {| auto_fix_daily_limit := 3; default_usage_bonus := (2 # 10)%Q;
     free_daily_bc := 1 |}.

(** ** The session *)

Record Tables := {
  plans : list Plan.t;
  user_subscriptions : list UserSubscription.t;
  allowances : list Allowance.t;
  rollover_buckets : list RolloverBucket.t;
  consumption_events : list ConsumptionEvent.t;
  overage_charges : list OverageCharge.t;
  allowance_daily_autofix : list AllowanceDailyAutofix.t;
  usage_meter_readings : list UsageMeterReading.t;
  usage_summaries : list UsageSummary.t
}.

Definition set_plans (t : Tables) (v : list Plan.t) : Tables :=
  {| plans := v; user_subscriptions := user_subscriptions t;
     allowances := allowances t; rollover_buckets := rollover_buckets t;
     consumption_events := consumption_events t;
     overage_charges := overage_charges t;
     allowance_daily_autofix := allowance_daily_autofix t;
     usage_meter_readings := usage_meter_readings t;
     usage_summaries := usage_summaries t |}.

Definition set_user_subscriptions (t : Tables)
    (v : list UserSubscription.t) : Tables :=
  {| plans := plans t; user_subscriptions := v;
     allowances := allowances t; rollover_buckets := rollover_buckets t;
     consumption_events := consumption_events t;
     overage_charges := overage_charges t;
     allowance_daily_autofix := allowance_daily_autofix t;
     usage_meter_readings := usage_meter_readings t;
     usage_summaries := usage_summaries t |}.

Definition set_allowances (t : Tables) (v : list Allowance.t) : Tables :=
  {| plans := plans t; user_subscriptions := user_subscriptions t;
     allowances := v; rollover_buckets := rollover_buckets t;
     consumption_events := consumption_events t;
     overage_charges := overage_charges t;
     allowance_daily_autofix := allowance_daily_autofix t;
     usage_meter_readings := usage_meter_readings t;
     usage_summaries := usage_summaries t |}.

Definition set_rollover_buckets (t : Tables)
    (v : list RolloverBucket.t) : Tables :=
  {| plans := plans t; user_subscriptions := user_subscriptions t;
     allowances := allowances t; rollover_buckets := v;
     consumption_events := consumption_events t;
     overage_charges := overage_charges t;
     allowance_daily_autofix := allowance_daily_autofix t;
     usage_meter_readings := usage_meter_readings t;
     usage_summaries := usage_summaries t |}.

Definition set_consumption_events (t : Tables)
    (v : list ConsumptionEvent.t) : Tables :=
  {| plans := plans t; user_subscriptions := user_subscriptions t;
     allowances := allowances t; rollover_buckets := rollover_buckets t;
     consumption_events := v;
     overage_charges := overage_charges t;
     allowance_daily_autofix := allowance_daily_autofix t;
     usage_meter_readings := usage_meter_readings t;
     usage_summaries := usage_summaries t |}.

Definition set_overage_charges (t : Tables)
    (v : list OverageCharge.t) : Tables :=
  {| plans := plans t; user_subscriptions := user_subscriptions t;
     allowances := allowances t; rollover_buckets := rollover_buckets t;
     consumption_events := consumption_events t;
     overage_charges := v;
     allowance_daily_autofix := allowance_daily_autofix t;
     usage_meter_readings := usage_meter_readings t;
     usage_summaries := usage_summaries t |}.

Definition set_allowance_daily_autofix (t : Tables)
    (v : list AllowanceDailyAutofix.t) : Tables :=
  {| plans := plans t; user_subscriptions := user_subscriptions t;
     allowances := allowances t; rollover_buckets := rollover_buckets t;
     consumption_events := consumption_events t;
     overage_charges := overage_charges t;
     allowance_daily_autofix := v;
     usage_meter_readings := usage_meter_readings t;
     usage_summaries := usage_summaries t |}.

Definition set_usage_meter_readings (t : Tables)
    (v : list UsageMeterReading.t) : Tables :=
  {| plans := plans t; user_subscriptions := user_subscriptions t;
     allowances := allowances t; rollover_buckets := rollover_buckets t;
     consumption_events := consumption_events t;
     overage_charges := overage_charges t;
     allowance_daily_autofix := allowance_daily_autofix t;
     usage_meter_readings := v;
     usage_summaries := usage_summaries t |}.

Definition set_usage_summaries (t : Tables)
    (v : list UsageSummary.t) : Tables :=
  {| plans := plans t; user_subscriptions := user_subscriptions t;
     allowances := allowances t; rollover_buckets := rollover_buckets t;
     consumption_events := consumption_events t;
     overage_charges := overage_charges t;
     allowance_daily_autofix := allowance_daily_autofix t;
     usage_meter_readings := usage_meter_readings t;
     usage_summaries := v |}.

Record Session := { live : Tables; durable : Tables }.

(** What a service call reads from outside the database. *)
Record Env := {
  utcnow : datetime;
  uuid4 : nat → Id;
  isoformat : datetime → string
}.

(** The same clock, the identifier stream advanced by [k] draws. *)
Definition env_skip (k : nat) (env : Env) : Env :=
  {| utcnow := utcnow env; uuid4 := λ n, uuid4 env (k + n)%nat;
     isoformat := isoformat env |}.

(** ** Exceptions and the session monad *)

Inductive BillingError :=
  | ValueError
  | AllowanceExhaustedError
  | AutoFixLimitExceeded
  (* raised by the database or by Python, not by the services *)
  | IntegrityError
  | OverflowError
  | TypeError
  | AttributeError.

Inductive outcome (A : Type) :=
  | Ok (a : A)
  | Raise (e : BillingError).
Arguments Ok {A} a.
Arguments Raise {A} e.

(** A call maps the session to its result, or the exception it raises, and
    the session it leaves behind: an exception does not undo the mutations
    made before it. *)
Definition M (A : Type) : Type := Session → outcome A * Session.

Definition raise {A} (e : BillingError) : M A := λ s, (Raise e, s).

#[global] Instance M_ret : MRet M := λ A a s, (Ok a, s).
#[global] Instance M_bind : MBind M := λ A B k m s,
  match m s with
  | (Ok a, s') => k a s'
  | (Raise e, s') => (Raise e, s')
  end.

Definition query {A} (f : Tables → A) : M A := λ s, (Ok (f (live s)), s).
Definition mutate (f : Tables → Tables) : M unit :=
  λ s, (Ok tt, {| live := f (live s); durable := durable s |}).

(** [Session.flush] makes pending changes visible to the queries of the
    session, which [live] already does. *)
Definition db_flush : M unit := mret tt.
Definition db_commit : M unit :=
  λ s, (Ok tt, {| live := live s; durable := live s |}).
Definition db_rollback : M unit :=
  λ s, (Ok tt, {| live := durable s; durable := durable s |}).

(** The session a call leaves behind, whatever it returns. *)
Definition exec {A} (m : M A) (s : Session) : Session := (m s).2.

(** ** Query helpers *)

(** Rows with their positions. *)
Definition indexed {A} (l : list A) : list (nat * A) := imap pair l.

Definition select_where {A} (p : A → bool) (l : list A) : list (nat * A) :=
  List.filter (λ ir, p ir.2) (indexed l).

Fixpoint insert_by {A} (leb : A → A → bool) (x : A) (l : list A) : list A :=
  match l with
  | [] => [x]
  | y :: l' => if leb x y then x :: y :: l' else y :: insert_by leb x l'
  end.

(** [ORDER BY].  SQL leaves the order of rows that compare equal to the
    engine; here they keep storage order. *)
Definition order_by {A} (leb : A → A → bool) (l : list A) : list A :=
  foldr (insert_by leb) [] l.

(** [scalars(stmt).first()] and [scalar(stmt)]: the first row, if any. *)
Definition first {A} (l : list A) : option A := head l.

(** [expires_at IS NULL OR expires_at > now] *)
Definition not_expired (expires_at : option datetime) (now : datetime) : bool :=
  match expires_at with
  | None => true
  | Some e => now <? e
  end.

(** [ORDER BY expires_at ASC NULLS LAST, created_at ASC] *)
Definition expiry_then_created_leb (e1 : option datetime) (c1 : datetime)
    (e2 : option datetime) (c2 : datetime) : bool :=
  match e1, e2 with
  | Some x, Some y => (x <? y) || ((x =? y) && (c1 <=? c2))
  | Some _, None => true
  | None, Some _ => false
  | None, None => c1 <=? c2
  end.

Definition ascii_lower (c : ascii) : ascii :=
  let n := nat_of_ascii c in
  if (65 <=? n)%nat && (n <=? 90)%nat then ascii_of_nat (n + 32) else c.

(** [str.lower] *)
Fixpoint lower (s : string) : string :=
  match s with
  | EmptyString => EmptyString
  | String c s' => String (ascii_lower c) (lower s')
  end.

(** Python truthiness of an [Optional[str]]: [None] and the empty string
    are false. *)
Definition truthy_str (o : option string) : option string :=
  match o with
  | Some s => if String.eqb s "" then None else Some s
  | None => None
  end.

Definition sumZ (l : list Z) : Z := foldr Z.add 0 l.

(** [int(x)]: truncation toward zero. *)
Definition int_of_Q (q : Q) : Z := Z.quot (Qnum q) (Z.pos (Qden q)).

(** [round(x)] of Python 3 on a float: to the nearest integer, a tie goes
    to the even one. *)
Definition round_half_even (q : Q) : Z :=
  let d := Z.pos (Qden q) in
  let f := Qnum q / d in
  let r := Qnum q mod d in
  match 2 * r ?= d with
  | Lt => f
  | Gt => f + 1
  | Eq => if Z.even f then f else f + 1
  end.

(** ** Floats

    A finite [float] is the rational it denotes.  [float_round q] is the
    binary64 number nearest to [q], a tie going to the even significand:
    what [float(x)] gives for a [Decimal] or a literal [x], and what an
    arithmetic operation gives for its exact result [q].  The exponent is
    bounded below (subnormal numbers) and not above: a result of magnitude
    [2^1024] or more stands for an infinity. *)

(** The exponent [e] of the unit in the last place:
    [2^52 ≤ |q| / 2^e < 2^53] for a normal number. *)
Definition float_exponent (q : Q) : Z :=
  let n := Z.abs (Qnum q) in
  let d := Z.pos (Qden q) in
  let a := Z.log2 n in
  let b := Z.log2 d in
  let e := if d * 2 ^ a <=? n * 2 ^ b then a - b - 52 else a - b - 53 in
  Z.max e (-1074).

Definition float_round (q : Q) : Q :=
  let e := float_exponent q in
  let m :=
    round_half_even
      (Qnum q * 2 ^ Z.max (- e) 0
       # Z.to_pos (Z.pos (Qden q) * 2 ^ Z.max e 0)) in
  m * 2 ^ Z.max e 0 # Z.to_pos (2 ^ Z.max (- e) 0).

Definition float_is_finite (x : Q) : bool :=
  Z.abs (Qnum x) <? 2 ^ 1024 * Z.pos (Qden x).

(** [int(n * x)] for an [int] [n] and a [float] [x]: [n] is converted to a
    float, which fails when it is too large; the product is rounded; and
    [int] truncates it, refusing an infinity and a NaN ([0 * inf]). *)
Definition int_of_product (n : Z) (x : Q) : outcome Z :=
  let n := float_round (inject_Z n) in
  if negb (float_is_finite n) then Raise OverflowError
  else if negb (float_is_finite x) then
    if Qnum n =? 0 then Raise ValueError else Raise OverflowError
  else
    let product := float_round (n * x)%Q in
    if float_is_finite product then Ok (int_of_Q product)
    else Raise OverflowError.

(** The largest value an [Integer] column of SQLite holds. *)
Definition INTEGER_MAX : Z := 2 ^ 63 - 1.

(** ** [BillingService] *)

Record ConsumptionResult := {
  event : ConsumptionEvent.t;
  total_deducted : Z;
  payg_triggered : option OverageCharge.t;
  autofix_grant : option AllowanceDailyAutofix.t
}.

Record UsageRecordResult := {
  reading : UsageMeterReading.t;
  summary : UsageSummary.t;
  consumption : option ConsumptionResult
}.

Record PlanSeed := {
  seed_id : Id;
  seed_name : string;
  seed_bc_monthly : Z;
  seed_rc_monthly : Z;
  seed_trial_days : Z;
  seed_shared_mode : PlanSharedMode;
  seed_payg_enabled : bool;
  seed_usage_bonus_rate : Q
}.

Definition DEFAULT_PLAN_SEEDS : list PlanSeed := [
  {| seed_id := "11111111-1111-1111-1111-111111111111"; seed_name := "Free";
     seed_bc_monthly := 0; seed_rc_monthly := 0; seed_trial_days := 0;
     seed_shared_mode := SHARED_POOL; seed_payg_enabled := true;
     seed_usage_bonus_rate := (2 # 10)%Q |};
  {| seed_id := "22222222-2222-2222-2222-222222222222"; seed_name := "Pro";
     seed_bc_monthly := 400; seed_rc_monthly := 6000; seed_trial_days := 1;
     seed_shared_mode := SHARED_POOL; seed_payg_enabled := true;
     seed_usage_bonus_rate := (2 # 10)%Q |};
  {| seed_id := "33333333-3333-3333-3333-333333333333"; seed_name := "Scale";
     seed_bc_monthly := 1000; seed_rc_monthly := 12000; seed_trial_days := 1;
     seed_shared_mode := HYBRID; seed_payg_enabled := true;
     seed_usage_bonus_rate := (2 # 10)%Q |};
  {| seed_id := "44444444-4444-4444-4444-444444444444";
     seed_name := "Enterprise";
     seed_bc_monthly := 2500; seed_rc_monthly := 36000; seed_trial_days := 0;
     seed_shared_mode := HYBRID; seed_payg_enabled := true;
     seed_usage_bonus_rate := (2 # 10)%Q |}
].

Definition plan_of_seed (seed : PlanSeed) : Plan.t :=
  {| Plan.id := seed_id seed; Plan.name := seed_name seed;
     Plan.bc_monthly := seed_bc_monthly seed;
     Plan.rc_monthly := seed_rc_monthly seed;
     Plan.usage_bonus_rate := Some (seed_usage_bonus_rate seed);
     Plan.trial_days := seed_trial_days seed;
     Plan.shared_mode := seed_shared_mode seed;
     Plan.payg_enabled := seed_payg_enabled seed;
     Plan.is_active := true |}.

(** [db.get(Plan, id)] and the [plan] relationship of a subscription. *)
Definition get_plan (t : Tables) (plan_id : Id) : option (nat * Plan.t) :=
  first (select_where (λ p, String.eqb (Plan.id p) plan_id) (plans t)).

Definition subscription_plan (t : Tables) (sub : UserSubscription.t)
    : option Plan.t :=
  snd <$> get_plan t (UserSubscription.plan_id sub).

(** The join of [rollover_buckets] with [allowances] on the allowance id,
    restricted to [Allowance.type == allowance_type]. *)
Definition bucket_has_type (t : Tables) (allowance_type : AllowanceType)
    (b : RolloverBucket.t) : bool :=
  existsb (λ a, String.eqb (Allowance.id a) (RolloverBucket.allowance_id b)
                && AllowanceType_eqb (Allowance.type a) allowance_type)
          (allowances t).

Definition allowance_leb (x y : nat * Allowance.t) : bool :=
  expiry_then_created_leb
    (Allowance.expires_at x.2) (Allowance.created_at x.2)
    (Allowance.expires_at y.2) (Allowance.created_at y.2).

Definition bucket_leb (x y : nat * RolloverBucket.t) : bool :=
  expiry_then_created_leb
    (RolloverBucket.expires_at x.2) (RolloverBucket.created_at x.2)
    (RolloverBucket.expires_at y.2) (RolloverBucket.created_at y.2).

Definition allowance_eligible (env : Env) (user : User.t)
    (allowance_type : AllowanceType) (a : Allowance.t) : bool :=
  String.eqb (Allowance.user_id a) (User.id user)
  && AllowanceType_eqb (Allowance.type a) allowance_type
  && not_expired (Allowance.expires_at a) (utcnow env).

Definition bucket_eligible (env : Env) (user : User.t)
    (allowance_type : AllowanceType) (t : Tables) (b : RolloverBucket.t)
    : bool :=
  String.eqb (RolloverBucket.user_id b) (User.id user)
  && bucket_has_type t allowance_type b
  && not_expired (RolloverBucket.expires_at b) (utcnow env)
  && (0 <? RolloverBucket.remain b).

(** The first loop of [consume]. *)
Fixpoint drain_buckets (ixs : list nat) (remaining total_deducted : Z)
    (bs : list RolloverBucket.t) : Z * Z * list RolloverBucket.t :=
  match ixs with
  | [] => (remaining, total_deducted, bs)
  | i :: ixs' =>
      if remaining <=? 0 then (remaining, total_deducted, bs)
      else
        match bs !! i with
        | None => drain_buckets ixs' remaining total_deducted bs
        | Some bucket =>
            if RolloverBucket.remain bucket <=? 0
            then drain_buckets ixs' remaining total_deducted bs
            else
              let deduct := Z.min (RolloverBucket.remain bucket) remaining in
              drain_buckets ixs' (remaining - deduct)
                (total_deducted + deduct)
                (<[i := RolloverBucket.set_remain bucket
                          (RolloverBucket.remain bucket - deduct)]> bs)
        end
  end.

(** The second loop of [consume]. *)
Fixpoint drain_allowances (ixs : list nat) (remaining total_deducted : Z)
    (last_allowance : option Allowance.t) (als : list Allowance.t)
    : Z * Z * option Allowance.t * list Allowance.t :=
  match ixs with
  | [] => (remaining, total_deducted, last_allowance, als)
  | i :: ixs' =>
      if remaining <=? 0 then (remaining, total_deducted, last_allowance, als)
      else
        match als !! i with
        | None =>
            drain_allowances ixs' remaining total_deducted last_allowance als
        | Some allowance =>
            let available :=
              Z.max (Allowance.total allowance - Allowance.used allowance) 0 in
            if available <=? 0
            then drain_allowances ixs' remaining total_deducted
                   last_allowance als
            else
              let deduct := Z.min available remaining in
              let allowance' :=
                Allowance.set_used allowance
                  (Allowance.used allowance + deduct) in
              drain_allowances ixs' (remaining - deduct)
                (total_deducted + deduct) (Some allowance')
                (<[i := allowance']> als)
        end
  end.

Definition _calculate_rollover_expiry (current_period_end : datetime)
    (rollover_policy : RolloverPolicy) : datetime :=
  match rollover_policy with
  | ONE_CYCLE => current_period_end + timedelta_days 30
  | ANNUAL => current_period_end + timedelta_days 365
  | NONE => current_period_end
  end.

Definition subscription_status_open (s : SubscriptionStatus) : bool :=
  match s with ACTIVE | TRIALING => true | _ => false end.

(** ** The [select] statements

    Each [stmt] of the services is the function from the tables to the rows
    it returns; the method executes it with [query]. *)

Definition get_primary_subscription_stmt (user : User.t) (t : Tables)
    : option (nat * UserSubscription.t) :=
  first
    (order_by
       (λ x y, UserSubscription.created_at y.2
               <=? UserSubscription.created_at x.2)
       (select_where
          (λ s, String.eqb (UserSubscription.user_id s) (User.id user)
                && UserSubscription.is_primary s
                && subscription_status_open (UserSubscription.status s))
          (user_subscriptions t))).

Definition _iter_allowances_stmt (env : Env) (user : User.t)
    (allowance_type : AllowanceType) (t : Tables)
    : list (nat * Allowance.t) :=
  order_by allowance_leb
    (select_where (allowance_eligible env user allowance_type)
       (allowances t)).

Definition _iter_rollover_buckets_stmt (env : Env) (user : User.t)
    (allowance_type : AllowanceType) (t : Tables)
    : list (nat * RolloverBucket.t) :=
  order_by bucket_leb
    (select_where (bucket_eligible env user allowance_type t)
       (rollover_buckets t)).

Definition _rollover_available_stmt (env : Env) (user : User.t)
    (allowance_type : AllowanceType) (t : Tables) : Z :=
  sumZ (map RolloverBucket.remain
          (List.filter
             (λ b, String.eqb (RolloverBucket.user_id b) (User.id user)
                   && bucket_has_type t allowance_type b
                   && not_expired (RolloverBucket.expires_at b) (utcnow env))
             (rollover_buckets t))).

Definition date_key_of (env : Env) : Z := utcnow env / 86400.

Definition _apply_autofix_stmt (env : Env) (user : User.t) (t : Tables)
    : option (nat * AllowanceDailyAutofix.t) :=
  first
    (select_where
       (λ r, String.eqb (AllowanceDailyAutofix.user_id r) (User.id user)
             && (AllowanceDailyAutofix.date_key r =? date_key_of env))
       (allowance_daily_autofix t)).

(** Events carrying a given [action_hash]. *)
Definition events_with_hash (h : string) (t : Tables)
    : list ConsumptionEvent.t :=
  List.filter (λ e, String.eqb (ConsumptionEvent.action_hash e) h)
    (consumption_events t).

(** The lookup at the head of [consume]: made only for a supplied,
    non-empty [action_hash]. *)
Definition consume_existing_stmt (action_hash : option string) (t : Tables)
    : option ConsumptionEvent.t :=
  match truthy_str action_hash with
  | Some h => first (events_with_hash h t)
  | None => None
  end.

(** [subscription.plan and subscription.plan.name.lower() == "free"] *)
Definition plan_is_free (t : Tables) (subscription : UserSubscription.t)
    : bool :=
  match subscription_plan t subscription with
  | Some plan => String.eqb (lower (Plan.name plan)) "free"
  | None => false
  end.

(** A nullable string column compared with a value: [NULL] never
    matches. *)
Definition option_eqb (a : option string) (b : string) : bool :=
  match a with Some x => String.eqb x b | None => false end.

(** ** Unique constraints

    [clashes same_key l i]: another row of the table holds the key of the
    row at position [i].  In a unique constraint [NULL] equals nothing,
    itself included. *)
Definition clashes {A} (same_key : A → A → bool) (l : list A) (i : nat)
    : bool :=
  match l !! i with
  | Some x =>
      existsb (λ jy : nat * A, negb (Nat.eqb jy.1 i) && same_key x jy.2)
        (indexed l)
  | None => false
  end.

Definition nullable_eqb (a b : option string) : bool :=
  match a, b with
  | Some x, Some y => String.eqb x y
  | _, _ => false
  end.

(** [unique=True] on [Plan.name] *)
Definition Plan_same_key (p q : Plan.t) : bool :=
  String.eqb (Plan.name p) (Plan.name q).

(** [uq_user_plan_membership]: [(user_id, plan_id)] *)
Definition UserSubscription_same_key (x y : UserSubscription.t) : bool :=
  String.eqb (UserSubscription.user_id x) (UserSubscription.user_id y)
  && String.eqb (UserSubscription.plan_id x) (UserSubscription.plan_id y).

(** [uq_allowance_user_plan_type]: [(user_id, plan_id, type, source)] *)
Definition Allowance_same_key (a b : Allowance.t) : bool :=
  String.eqb (Allowance.user_id a) (Allowance.user_id b)
  && nullable_eqb (Allowance.plan_id a) (Allowance.plan_id b)
  && AllowanceType_eqb (Allowance.type a) (Allowance.type b)
  && nullable_eqb (Allowance.source a) (Allowance.source b).

(** The [INSERT] or [UPDATE] of the row at position [i] of a table. *)
Definition flush_row {A} (table : Tables → list A)
    (same_key : A → A → bool) (i : nat) : M unit :=
  λ s, if clashes same_key (table (live s)) i
       then (Raise IntegrityError, s) else (Ok tt, s).

(** A Python computation that may raise and does not touch the session. *)
Definition lift {A} (r : outcome A) : M A := λ s, (r, s).

(** ** Attributes of a mapped class *)

(** The columns and relationships [UsageSummary] declares. *)
Definition UsageSummary_attributes : list string :=
  ["id"; "workspace_id"; "user_id"; "metric"; "period"; "value";
   "overage_amount"; "currency"; "created_at"; "user"].

(** The constructor of a declarative class: every keyword must be an
    attribute of the class. *)
Definition init_kwargs (attributes kwargs : list string) : M unit :=
  if forallb (λ k, existsb (String.eqb k) attributes) kwargs then mret tt
  else raise TypeError.

(** [obj.name] *)
Definition getattr (attributes : list string) (name : string) : M unit :=
  if existsb (String.eqb name) attributes then mret tt
  else raise AttributeError.

Definition _upsert_allowance_stmt (user : User.t) (plan : Plan.t)
    (allowance_type : AllowanceType) (t : Tables)
    : option (nat * Allowance.t) :=
  first
    (select_where
       (λ a, String.eqb (Allowance.user_id a) (User.id user)
             && option_eqb (Allowance.plan_id a) (Plan.id plan)
             && AllowanceType_eqb (Allowance.type a) allowance_type)
       (allowances t)).

Definition _upsert_summary_stmt (workspace_id metric period : string)
    (t : Tables) : option (nat * UsageSummary.t) :=
  first
    (select_where
       (λ s, String.eqb (UsageSummary.workspace_id s) workspace_id
             && String.eqb (UsageSummary.metric s) metric
             && String.eqb (UsageSummary.period s) period)
       (usage_summaries t)).

Section Services.
(** [self.config] *)
Variable config : BillingConfig.

Definition get_primary_subscription (user : User.t)
    : M (option (nat * UserSubscription.t)) :=
  query (get_primary_subscription_stmt user).

Definition _iter_allowances (env : Env) (user : User.t)
    (allowance_type : AllowanceType) : M (list (nat * Allowance.t)) :=
  query (_iter_allowances_stmt env user allowance_type).

Definition _iter_rollover_buckets (env : Env) (user : User.t)
    (allowance_type : AllowanceType) : M (list (nat * RolloverBucket.t)) :=
  query (_iter_rollover_buckets_stmt env user allowance_type).

Definition _rollover_available (env : Env) (user : User.t)
    (allowance_type : AllowanceType) : M Z :=
  query (_rollover_available_stmt env user allowance_type).

Definition would_consume (env : Env) (user : User.t)
    (allowance_type : AllowanceType) (amount : Z) : M (Z * Z) :=
  if amount <=? 0 then raise ValueError
  else
    allowances ← _iter_allowances env user allowance_type;
    let total_available :=
      sumZ (map (λ a, Z.max (Allowance.total a.2 - Allowance.used a.2) 0)
              allowances) in
    rollover ← _rollover_available env user allowance_type;
    mret (total_available + rollover, rollover).

Definition autofix_limit_of (subscription : UserSubscription.t) : Z :=
  match UserSubscription.autofix_limit subscription with
  | Some l => if l =? 0 then auto_fix_daily_limit config else l
  | None => auto_fix_daily_limit config
  end.

Definition _apply_autofix (env : Env)
    (subscription : UserSubscription.t) (user : User.t)
    : M AllowanceDailyAutofix.t :=
  let limit := autofix_limit_of subscription in
  let date_key := date_key_of env in
  record ← query (_apply_autofix_stmt env user);
  match record with
  | None =>
      let record :=
        {| AllowanceDailyAutofix.id := uuid4 env 0;
           AllowanceDailyAutofix.user_id := User.id user;
           AllowanceDailyAutofix.date_key := date_key;
           AllowanceDailyAutofix.limit := limit;
           AllowanceDailyAutofix.consumed := 0 |} in
      if limit <=? AllowanceDailyAutofix.consumed record
      then raise AutoFixLimitExceeded
      else
        let record :=
          AllowanceDailyAutofix.set_consumed record
            (AllowanceDailyAutofix.consumed record + 1) in
        mutate (λ t, set_allowance_daily_autofix t
                       (allowance_daily_autofix t ++ [record]));;
        mret record
  | Some (i, record) =>
      if limit <=? AllowanceDailyAutofix.consumed record
      then raise AutoFixLimitExceeded
      else
        let record :=
          AllowanceDailyAutofix.set_consumed record
            (AllowanceDailyAutofix.consumed record + 1) in
        mutate (λ t, set_allowance_daily_autofix t
                       (<[i := record]> (allowance_daily_autofix t)));;
        mret record
  end.

(** The [OverageCharge(...)] that [_create_payg_charge] builds. *)
Definition new_charge (env : Env) (user : User.t)
    (allowance_type : AllowanceType) (amount : Z) (action : string)
    : OverageCharge.t :=
  {| OverageCharge.id := uuid4 env 0;
     OverageCharge.user_id := User.id user;
     OverageCharge.metric := AllowanceType_value allowance_type;
     OverageCharge.amount := amount;
     OverageCharge.status := PENDING;
     OverageCharge.action := action;
     OverageCharge.generated_at := utcnow env |}.

Definition _create_payg_charge (env : Env) (user : User.t)
    (allowance_type : AllowanceType) (amount : Z) (action : string)
    : M OverageCharge.t :=
  let charge := new_charge env user allowance_type amount action in
  mutate (λ t, set_overage_charges t (overage_charges t ++ [charge]));;
  mret charge.

(** The [ConsumptionEvent(...)] that [_log_consumption_event] builds. *)
Definition new_event (env : Env) (user : User.t)
    (allowance : option Allowance.t) (allowance_type : AllowanceType)
    (amount : Z) (action : string) (complexity_score : Z)
    (action_hash : option string)
    (autofix_record : option AllowanceDailyAutofix.t)
    (payg_charge : option OverageCharge.t) : ConsumptionEvent.t :=
  {| ConsumptionEvent.id := uuid4 env 1;
     ConsumptionEvent.user_id := User.id user;
     ConsumptionEvent.allowance_id := Allowance.id <$> allowance;
     ConsumptionEvent.type := action;
     ConsumptionEvent.amount := amount;
     ConsumptionEvent.complexity_score := complexity_score;
     ConsumptionEvent.action_hash :=
       match truthy_str action_hash with
       | Some h => h
       | None =>
           User.id user +:+ ":" +:+ action +:+ ":"
           +:+ isoformat env (utcnow env)
       end;
     ConsumptionEvent.allowance_type := AllowanceType_value allowance_type;
     ConsumptionEvent.autofix_applied :=
       match autofix_record with Some _ => true | None => false end;
     ConsumptionEvent.payg_charge_id := OverageCharge.id <$> payg_charge;
     ConsumptionEvent.created_at := utcnow env |}.

Definition _log_consumption_event (env : Env) (user : User.t)
    (allowance : option Allowance.t) (allowance_type : AllowanceType)
    (amount : Z) (action : string) (complexity_score : Z)
    (action_hash : option string)
    (autofix_record : option AllowanceDailyAutofix.t)
    (payg_charge : option OverageCharge.t) : M ConsumptionEvent.t :=
  let event :=
    new_event env user allowance allowance_type amount action
      complexity_score action_hash autofix_record payg_charge in
  mutate (λ t, set_consumption_events t (consumption_events t ++ [event]));;
  mret event.

(** [existing], as [consume] computes it before anything else. *)
Definition find_event (action_hash : option string)
    : M (option ConsumptionEvent.t) :=
  query (consume_existing_stmt action_hash).

(** The first loop, on the bucket objects of the session. *)
Definition drain_rollover (ixs : list nat) (remaining total_deducted : Z)
    : M (Z * Z) :=
  λ s,
    let '(r, d, bs) :=
      drain_buckets ixs remaining total_deducted
        (rollover_buckets (live s)) in
    (Ok (r, d),
     {| live := set_rollover_buckets (live s) bs; durable := durable s |}).

(** The second loop, on the allowance objects of the session. *)
Definition drain_current (ixs : list nat) (remaining total_deducted : Z)
    : M (Z * Z * option Allowance.t) :=
  λ s,
    let '(r, d, last, als) :=
      drain_allowances ixs remaining total_deducted None
        (allowances (live s)) in
    (Ok (r, d, last),
     {| live := set_allowances (live s) als; durable := durable s |}).

(** Steps 1 and 2 of [consume]: the two draining loops, run on the rows
    the two queries return.  The result is [remaining], [total_deducted]
    and [last_allowance]. *)
Definition drain_pools (env : Env) (user : User.t)
    (allowance_type : AllowanceType) (amount : Z)
    : M (Z * Z * option Allowance.t) :=
  buckets ← _iter_rollover_buckets env user allowance_type;
  '(remaining, total_deducted) ← drain_rollover buckets.*1 amount 0;
  current ← _iter_allowances env user allowance_type;
  drain_current current.*1 remaining total_deducted.

Definition is_free_plan (subscription : UserSubscription.t) : M bool :=
  query (λ t, plan_is_free t subscription).

(** The block under [if remaining > 0:]; its result is
    [(autofix_record, payg_charge)]. *)
Definition cover_remainder (env : Env) (user : User.t)
    (allowance_type : AllowanceType) (remaining : Z) (action : string)
    (allow_payg : bool)
    : M (option AllowanceDailyAutofix.t * option OverageCharge.t) :=
  if 0 <? remaining then
    subscription ← get_primary_subscription user;
    match subscription with
    | Some (_, subscription) =>
        free ← is_free_plan subscription;
        if (free : bool) then
          record ← _apply_autofix env subscription user;
          mret (Some record, None)
        else if UserSubscription.payg_enabled subscription && allow_payg
        then
          charge ← _create_payg_charge env user allowance_type remaining
                     action;
          mret (None, Some charge)
        else raise AllowanceExhaustedError
    | None => raise AllowanceExhaustedError
    end
  else mret (None, None).

Definition consume (env : Env) (user : User.t)
    (allowance_type : AllowanceType) (amount : Z) (action : string)
    (complexity_score : Z) (action_hash : option string)
    (allow_payg : bool) : M ConsumptionResult :=
  if amount <=? 0 then raise ValueError
  else
    existing ← find_event action_hash;
    match existing with
    | Some existing =>
        mret {| event := existing;
                total_deducted := ConsumptionEvent.amount existing;
                payg_triggered := None; autofix_grant := None |}
    | None =>
        '(remaining, total_deducted, last_allowance) ←
          drain_pools env user allowance_type amount;
        '(autofix_record, payg_charge) ←
          cover_remainder env user allowance_type remaining action
            allow_payg;
        event ← _log_consumption_event env user last_allowance
                  allowance_type amount action complexity_score action_hash
                  autofix_record payg_charge;
        db_commit;;
        mret {| event := event; total_deducted := total_deducted;
                payg_triggered := payg_charge;
                autofix_grant := autofix_record |}
    end.

(** The [Allowance(...)] that [grant_allowance] builds. *)
Definition new_allowance (env : Env) (user : User.t)
    (plan : option Plan.t) (allowance_type : AllowanceType) (total : Z)
    (window : AllowanceWindow) (rollover_policy : RolloverPolicy)
    (expires_at : option datetime) (source : option string)
    : Allowance.t :=
  {| Allowance.id := uuid4 env 0;
     Allowance.user_id := User.id user;
     Allowance.plan_id := Plan.id <$> plan;
     Allowance.type := allowance_type;
     Allowance.total := total;
     Allowance.used := 0;
     Allowance.window := window;
     Allowance.rollover_policy := rollover_policy;
     Allowance.expires_at := expires_at;
     Allowance.source := source;
     Allowance.created_at := utcnow env |}.

(** [grant_allowance], with [window] and [rollover_policy] supplied, as
    every caller does; the fall-back to the configured defaults is left
    out.  The [flush] inserts the row. *)
Definition grant_allowance (env : Env) (user : User.t)
    (plan : option Plan.t) (allowance_type : AllowanceType) (total : Z)
    (window : AllowanceWindow) (rollover_policy : RolloverPolicy)
    (expires_at : option datetime) (source : option string)
    : M Allowance.t :=
  if total <=? 0 then raise ValueError
  else
    let allowance :=
      new_allowance env user plan allowance_type total window
        rollover_policy expires_at source in
    row ← query (λ t, length (allowances t));
    mutate (λ t, set_allowances t (allowances t ++ [allowance]));;
    flush_row allowances Allowance_same_key row;;
    mret allowance.

Definition _upsert_allowance (env : Env) (user : User.t) (plan : Plan.t)
    (allowance_type : AllowanceType) (total : Z)
    (rollover_policy : RolloverPolicy) (expires_at : datetime)
    (source : string) : M Allowance.t :=
  existing ← query (_upsert_allowance_stmt user plan allowance_type);
  match existing with
  | None =>
      grant_allowance env user (Some plan) allowance_type total MONTHLY
        rollover_policy (Some expires_at) (Some source)
  | Some (i, existing) =>
      let remaining :=
        Z.max (Allowance.total existing - Allowance.used existing) 0 in
      (if (0 <? remaining) && negb (RolloverPolicy_eqb rollover_policy NONE)
       then
         let rollover_bucket :=
           {| RolloverBucket.id := uuid4 env 0;
              RolloverBucket.user_id := User.id user;
              RolloverBucket.allowance_id := Allowance.id existing;
              RolloverBucket.remain := remaining;
              RolloverBucket.expires_at :=
                Some (_calculate_rollover_expiry expires_at rollover_policy);
              RolloverBucket.created_at := utcnow env |} in
         mutate (λ t, set_rollover_buckets t
                        (rollover_buckets t ++ [rollover_bucket]))
       else mret tt);;
      let existing :=
        Allowance.reseed existing total rollover_policy expires_at in
      mutate (λ t, set_allowances t (<[i := existing]> (allowances t)));;
      mret existing
  end.

(** One iteration of the loop of [ensure_default_plans].  The row it
    writes is flushed by the [db.get] of the next iteration or by the
    [flush] that ends the loop. *)
Definition ensure_plan (seed : PlanSeed) : M Plan.t :=
  plan ← query (λ t, get_plan t (seed_id seed));
  match plan with
  | None =>
      row ← query (λ t, length (plans t));
      mutate (λ t, set_plans t (plans t ++ [plan_of_seed seed]));;
      flush_row plans Plan_same_key row;;
      mret (plan_of_seed seed)
  | Some (i, _) =>
      mutate (λ t, set_plans t (<[i := plan_of_seed seed]> (plans t)));;
      flush_row plans Plan_same_key i;;
      mret (plan_of_seed seed)
  end.

Definition ensure_default_plans : M (list Plan.t) :=
  plans ← mapM ensure_plan DEFAULT_PLAN_SEEDS;
  db_flush;;
  mret plans.

(** The loop of [activate_plan] over [allowance_specs]; each iteration
    draws its identifier from the stream. *)
Fixpoint seed_allowances (env : Env) (user : User.t) (plan : Plan.t)
    (allowance_specs : list (AllowanceType * Z * RolloverPolicy))
    (expires_at : datetime) (source : string) : M unit :=
  match allowance_specs with
  | [] => mret tt
  | (allowance_type, total, rollover) :: rest =>
      (if total <=? 0 then mret tt
       else
         _upsert_allowance env user plan allowance_type total rollover
           expires_at source;;
         mret tt);;
      seed_allowances (env_skip 1 env) user plan rest expires_at source
  end.

Definition activate_plan (env : Env) (user : User.t) (plan : Plan.t)
    (source : string) : M UserSubscription.t :=
  (* [plan] is an object: when it is a row of the session, what
     [ensure_default_plans] writes to that row shows in its attributes *)
  persistent ← query (λ t, get_plan t (Plan.id plan));
  ensure_default_plans;;
  plan ← query (λ t,
    match persistent with
    | Some _ => default plan (snd <$> get_plan t (Plan.id plan))
    | None => plan
    end);
  let now := utcnow env in
  let period_end := now + timedelta_days 30 in
  let trial_end :=
    if Plan.trial_days plan =? 0 then None
    else Some (now + timedelta_days (Plan.trial_days plan)) in
  found ← get_primary_subscription user;
  let subscription :=
    {| UserSubscription.id :=
         match found with Some (_, s) => UserSubscription.id s
                        | None => uuid4 env 0 end;
       UserSubscription.user_id := User.id user;
       UserSubscription.plan_id := Plan.id plan;
       UserSubscription.status :=
         match trial_end with Some _ => TRIALING | None => ACTIVE end;
       UserSubscription.payg_enabled := Plan.payg_enabled plan;
       UserSubscription.is_primary := true;
       UserSubscription.current_period_start := now;
       UserSubscription.current_period_end := Some period_end;
       UserSubscription.trial_ends_at := trial_end;
       UserSubscription.autofix_limit :=
         match found with Some (_, s) => UserSubscription.autofix_limit s
                        | None => None end;
       UserSubscription.source := Some source;
       UserSubscription.created_at :=
         match found with Some (_, s) => UserSubscription.created_at s
                        | None => now end |} in
  row ← query (λ t, match found with
                    | Some (i, _) => i
                    | None => length (user_subscriptions t)
                    end);
  mutate (λ t, set_user_subscriptions t
                 match found with
                 | Some (i, _) => <[i := subscription]> (user_subscriptions t)
                 | None => user_subscriptions t ++ [subscription]
                 end);;
  let usage_bonus_rate :=
    float_round
      (default (default_usage_bonus config) (Plan.usage_bonus_rate plan)) in
  usage_total ← lift (int_of_product (Plan.rc_monthly plan) usage_bonus_rate);
  let allowance_specs :=
    [(BC, Plan.bc_monthly plan, ONE_CYCLE);
     (RC, Plan.rc_monthly plan, ONE_CYCLE)]
    ++ (if 0 <? usage_total then [(USAGE, usage_total, NONE)] else []) in
  (* the subscription is written by the query of the first
     [_upsert_allowance], or by the [flush] below when none is made *)
  flush_row user_subscriptions UserSubscription_same_key row;;
  seed_allowances (env_skip 1 env) user plan allowance_specs period_end
    source;;
  db_flush;;
  mret subscription.

(** ** [UsageService] *)

(** [_upsert_summary].  Both branches name [metadata_json], which
    [UsageSummary] does not declare: the constructor refuses the keyword,
    and on a row that exists the attribute is read for the right-hand side
    of the assignment, after [value] has been assigned. *)
Definition _upsert_summary (env : Env) (user_id : Id)
    (workspace_id metric period : string) (increment : Q)
    : M UsageSummary.t :=
  summary ← query (_upsert_summary_stmt workspace_id metric period);
  match summary with
  | None =>
      init_kwargs UsageSummary_attributes
        ["id"; "user_id"; "workspace_id"; "metric"; "period"; "value";
         "metadata_json"];;
      let summary :=
        {| UsageSummary.id := uuid4 env 1;
           UsageSummary.user_id := user_id;
           UsageSummary.workspace_id := workspace_id;
           UsageSummary.metric := metric;
           UsageSummary.period := period;
           UsageSummary.value := increment |} in
      mutate (λ t, set_usage_summaries t (usage_summaries t ++ [summary]));;
      mret summary
  | Some (i, summary) =>
      let summary :=
        UsageSummary.set_value summary
          (UsageSummary.value summary + increment)%Q in
      mutate (λ t, set_usage_summaries t
                     (<[i := summary]> (usage_summaries t)));;
      getattr UsageSummary_attributes "metadata_json";;
      mret summary
  end.

(** The [UsageMeterReading(...)] that [record_usage] builds. *)
Definition new_reading (env : Env) (user : User.t)
    (workspace_id metric : string) (value : Q) (period : string)
    (window_start window_end : datetime) : UsageMeterReading.t :=
  {| UsageMeterReading.id := uuid4 env 0;
     UsageMeterReading.user_id := User.id user;
     UsageMeterReading.workspace_id := workspace_id;
     UsageMeterReading.metric := metric;
     UsageMeterReading.value := value;
     UsageMeterReading.period := period;
     UsageMeterReading.window_start := window_start;
     UsageMeterReading.window_end := window_end |}.

Definition record_usage (env : Env) (user : User.t)
    (workspace_id metric : string) (value : Q) (period : string)
    (window_start window_end : datetime) (consume_allowance : bool)
    : M UsageRecordResult :=
  let value_decimal := value in
  let reading :=
    new_reading env user workspace_id metric value_decimal period
      window_start window_end in
  mutate (λ t, set_usage_meter_readings t
                 (usage_meter_readings t ++ [reading]));;
  summary ← _upsert_summary env (User.id user) workspace_id metric period
              value_decimal;
  db_flush;;
  consumption_result ←
    (if consume_allowance then
       let amount := Z.max (round_half_even value_decimal) 0 in
       if 0 <? amount then
         r ← consume (env_skip 2 env) user USAGE amount
               ("usage:" +:+ metric) 0 None true;
         mret (Some r)
       else mret None
     else mret None);
  mret {| reading := reading; summary := summary;
          consumption := consumption_result |}.
End Services.

(** ** Notions used to state the properties *)

(** What one pass of the first loop may do to a bucket: lower [remain],
    never below zero, and nothing else. *)
Definition bucket_step (b b' : RolloverBucket.t) : Prop :=
  b' = RolloverBucket.set_remain b (RolloverBucket.remain b')
  ∧ RolloverBucket.remain b' ≤ RolloverBucket.remain b
  ∧ Z.min (RolloverBucket.remain b) 0 ≤ RolloverBucket.remain b'.

(** What one pass of the second loop may do to an allowance: raise [used],
    never beyond [total], and nothing else. *)
Definition allowance_step (a a' : Allowance.t) : Prop :=
  a' = Allowance.set_used a (Allowance.used a')
  ∧ Allowance.used a ≤ Allowance.used a'
  ∧ Allowance.used a' ≤ Z.max (Allowance.used a) (Allowance.total a).

(** The invariants of the data model: [used ≤ total] on every allowance,
    [remain ≥ 0] on every bucket. *)
Definition ledger_ok (t : Tables) : Prop :=
  Forall (λ a, Allowance.used a ≤ Allowance.total a) (allowances t)
  ∧ Forall (λ b, 0 ≤ RolloverBucket.remain b) (rollover_buckets t).

(** Credit held in the two pools, over the whole tables. *)
Definition pool_balance (t : Tables) : Z :=
  sumZ (map RolloverBucket.remain (rollover_buckets t))
  + sumZ (map (λ a, Allowance.total a - Allowance.used a) (allowances t)).

(** The same [consume] call issued once per element of [envs], one after
    the other on the same session, whatever each attempt returns. *)
Definition repeat_consume (config : BillingConfig) (envs : list Env)
    (user : User.t) (allowance_type : AllowanceType) (amount : Z)
    (action : string) (complexity_score : Z) (action_hash : option string)
    (allow_payg : bool) (s : Session) : Session :=
  foldl (λ s env,
           exec (consume config env user allowance_type amount action
                   complexity_score action_hash allow_payg) s)
        s envs.

(** A [consume] call with its arguments, and a sequence of such calls. *)
Record ConsumeCall := {
  call_env : Env;
  call_user : User.t;
  call_type : AllowanceType;
  call_amount : Z;
  call_action : string;
  call_complexity_score : Z;
  call_action_hash : option string;
  call_allow_payg : bool
}.

Definition consume_call (config : BillingConfig) (c : ConsumeCall)
    : M ConsumptionResult :=
  consume config (call_env c) (call_user c) (call_type c) (call_amount c)
    (call_action c) (call_complexity_score c) (call_action_hash c)
    (call_allow_payg c).

Definition consume_calls (config : BillingConfig) (cs : list ConsumeCall)
    (s : Session) : Session :=
  foldl (λ s c, exec (consume_call config c) s) s cs.

(** Auto-fix grants already counted for the user on the day of [env]. *)
Definition autofix_consumed (env : Env) (user : User.t) (t : Tables) : Z :=
  match _apply_autofix_stmt env user t with
  | Some (_, record) => AllowanceDailyAutofix.consumed record
  | None => 0
  end.

(** [e1] is no later than [e2]; a row without expiry sorts after every
    dated one. *)
Definition expires_no_later (e1 e2 : option datetime) : Prop :=
  match e1, e2 with
  | Some x, Some y => x ≤ y
  | _, None => True
  | None, Some _ => False
  end.

(** Soonest-expiring first, then oldest-created. *)
Definition bucket_before (b1 b2 : RolloverBucket.t) : Prop :=
  expires_no_later (RolloverBucket.expires_at b1)
    (RolloverBucket.expires_at b2)
  ∧ (RolloverBucket.expires_at b1 = RolloverBucket.expires_at b2 →
     RolloverBucket.created_at b1 ≤ RolloverBucket.created_at b2).

(** ** Sample data for the worked examples *)

Definition empty_tables : Tables :=
  {| plans := []; user_subscriptions := []; allowances := [];
     rollover_buckets := []; consumption_events := [];
     overage_charges := []; allowance_daily_autofix := [];
     usage_meter_readings := []; usage_summaries := [] |}.

Definition clean_session (t : Tables) : Session :=
  {| live := t; durable := t |}.

(** A call at second [now] of the epoch; its identifiers and its time
    stamp are spelled from [now]. *)
Definition sample_env (now : datetime) : Env :=
  {| utcnow := now;
     uuid4 := λ n, "uuid-" +:+ pretty now +:+ "-" +:+ pretty n;
     isoformat := pretty |}.

Definition alice : User.t := {| User.id := "alice" |}.

Definition sample_allowance (allowance_type : AllowanceType)
    (total used : Z) : Allowance.t :=
  {| Allowance.id := "allowance-1"; Allowance.user_id := "alice";
     Allowance.plan_id := Some "22222222-2222-2222-2222-222222222222";
     Allowance.type := allowance_type;
     Allowance.total := total; Allowance.used := used;
     Allowance.window := MONTHLY; Allowance.rollover_policy := ONE_CYCLE;
     Allowance.expires_at := Some (timedelta_days 30);
     Allowance.source := Some "plan_activation";
     Allowance.created_at := 0 |}.

Definition sample_bucket (remain : Z) : RolloverBucket.t :=
  {| RolloverBucket.id := "bucket-1"; RolloverBucket.user_id := "alice";
     RolloverBucket.allowance_id := "allowance-1";
     RolloverBucket.remain := remain;
     RolloverBucket.expires_at := Some (timedelta_days 20);
     RolloverBucket.created_at := 0 |}.

Definition sample_subscription (plan_id : Id) (payg : bool)
    : UserSubscription.t :=
  {| UserSubscription.id := "subscription-1";
     UserSubscription.user_id := "alice";
     UserSubscription.plan_id := plan_id;
     UserSubscription.status := ACTIVE;
     UserSubscription.payg_enabled := payg;
     UserSubscription.is_primary := true;
     UserSubscription.current_period_start := 0;
     UserSubscription.current_period_end := Some (timedelta_days 30);
     UserSubscription.trial_ends_at := None;
     UserSubscription.autofix_limit := None;
     UserSubscription.source := Some "plan_activation";
     UserSubscription.created_at := 0 |}.

(** A bucket with [remain = 50] beside an allowance with
    [total - used = 100]. *)
Definition bucket_and_allowance : Session :=
  clean_session
    (set_rollover_buckets
       (set_allowances empty_tables [sample_allowance BC 200 100])
       [sample_bucket 50]).

(** Alice with two build allowances, stored in the reverse of the order
    in which [consume] charges them: the purchased one, which never
    expires, and the plan's, with 100 credits left, which expires
    first. *)
Definition two_allowances : Session :=
  clean_session
    (set_allowances empty_tables
       [ {| Allowance.id := "allowance-2"; Allowance.user_id := "alice";
            Allowance.plan_id := None; Allowance.type := BC;
            Allowance.total := 500; Allowance.used := 0;
            Allowance.window := MONTHLY;
            Allowance.rollover_policy := NONE;
            Allowance.expires_at := None;
            Allowance.source := Some "recharge";
            Allowance.created_at := 10 |};
         sample_allowance BC 200 100 ]).

Definition pro_plan : Plan.t :=
  {| Plan.id := "22222222-2222-2222-2222-222222222222"; Plan.name := "Pro";
     Plan.bc_monthly := 400; Plan.rc_monthly := 6000;
     Plan.usage_bonus_rate := Some (2 # 10)%Q; Plan.trial_days := 1;
     Plan.shared_mode := SHARED_POOL; Plan.payg_enabled := true;
     Plan.is_active := true |}.

Definition free_plan : Plan.t :=
  {| Plan.id := "11111111-1111-1111-1111-111111111111"; Plan.name := "Free";
     Plan.bc_monthly := 0; Plan.rc_monthly := 0;
     Plan.usage_bonus_rate := Some (2 # 10)%Q; Plan.trial_days := 0;
     Plan.shared_mode := SHARED_POOL; Plan.payg_enabled := true;
     Plan.is_active := true |}.

(** Alice at the end of a Pro cycle: 150 of her 400 build credits used. *)
Definition pro_cycle_end : Session :=
  clean_session
    (set_plans (set_allowances empty_tables [sample_allowance BC 400 150])
       [free_plan; pro_plan]).

(** Alice at the end of a Pro cycle with all 400 build credits used. *)
Definition pro_cycle_spent : Session :=
  clean_session
    (set_plans (set_allowances empty_tables [sample_allowance BC 400 400])
       [free_plan; pro_plan]).

(** The bucket [_upsert_allowance] creates for a leftover. *)
Definition rollover_bucket_of (env : Env) (user : User.t)
    (existing : Allowance.t) (rollover_policy : RolloverPolicy)
    (expires_at : datetime) : RolloverBucket.t :=
  {| RolloverBucket.id := uuid4 env 0;
     RolloverBucket.user_id := User.id user;
     RolloverBucket.allowance_id := Allowance.id existing;
     RolloverBucket.remain :=
       Allowance.total existing - Allowance.used existing;
     RolloverBucket.expires_at :=
       Some (_calculate_rollover_expiry expires_at rollover_policy);
     RolloverBucket.created_at := utcnow env |}.

(** Alice on the Free plan, with no credit of any kind. *)
Definition free_without_credit : Session :=
  clean_session
    (set_user_subscriptions (set_plans empty_tables [free_plan; pro_plan])
       [sample_subscription "11111111-1111-1111-1111-111111111111" true]).

(** Alice on the Pro plan with PAYG enabled and her Usage allowance used
    up. *)
Definition pro_usage_exhausted : Session :=
  clean_session
    (set_allowances
       (set_user_subscriptions (set_plans empty_tables [free_plan; pro_plan])
          [sample_subscription "22222222-2222-2222-2222-222222222222" true])
       [sample_allowance USAGE 1200 1200]).

(** Alice with 1200 Usage credits, none of them used; and the same with a
    summary of 10 units for the workspace, metric and period of the
    examples. *)
Definition pro_usage_unused : Session :=
  clean_session (set_allowances empty_tables [sample_allowance USAGE 1200 0]).

Definition pro_usage_metered : Session :=
  clean_session
    (set_usage_summaries (live pro_usage_unused)
       [ {| UsageSummary.id := "summary-1"; UsageSummary.user_id := "alice";
            UsageSummary.workspace_id := "workspace-1";
            UsageSummary.metric := "bandwidth";
            UsageSummary.period := "2025-09";
            UsageSummary.value := 10 |} ]).

(** Alice with a canceled subscription on the Pro plan, which
    [get_primary_subscription] does not return. *)
Definition pro_canceled : Session :=
  clean_session
    (set_user_subscriptions (set_plans empty_tables [free_plan; pro_plan])
       [ {| UserSubscription.id := "subscription-0";
            UserSubscription.user_id := "alice";
            UserSubscription.plan_id :=
              "22222222-2222-2222-2222-222222222222";
            UserSubscription.status := CANCELED;
            UserSubscription.payg_enabled := true;
            UserSubscription.is_primary := true;
            UserSubscription.current_period_start := 0;
            UserSubscription.current_period_end := Some (timedelta_days 30);
            UserSubscription.trial_ends_at := None;
            UserSubscription.autofix_limit := None;
            UserSubscription.source := Some "plan_activation";
            UserSubscription.created_at := 0 |} ]).

(** The balance of the data model, for a user and a credit type at the time
    of [env]: what is left on the allowances that have not expired, and
    what remains in the buckets that have not expired. *)
Definition bucket_unexpired (env : Env) (user : User.t)
    (allowance_type : AllowanceType) (t : Tables) (b : RolloverBucket.t)
    : bool :=
  String.eqb (RolloverBucket.user_id b) (User.id user)
  && bucket_has_type t allowance_type b
  && not_expired (RolloverBucket.expires_at b) (utcnow env).

Definition allowance_balance (env : Env) (user : User.t)
    (allowance_type : AllowanceType) (t : Tables) : Z :=
  sumZ (map (λ a, Z.max (Allowance.total a - Allowance.used a) 0)
          (List.filter (allowance_eligible env user allowance_type)
             (allowances t))).

Definition rollover_balance (env : Env) (user : User.t)
    (allowance_type : AllowanceType) (t : Tables) : Z :=
  sumZ (map RolloverBucket.remain
          (List.filter (bucket_unexpired env user allowance_type t)
             (rollover_buckets t))).

(** A sequence of [would_consume] calls, each with its own arguments. *)
Definition would_consume_calls
    (calls : list (Env * User.t * AllowanceType * Z)) (s : Session)
    : Session :=
  foldl (λ s c,
           let '(env, user, allowance_type, amount) := c in
           exec (would_consume env user allowance_type amount) s)
        s calls.

(** The running total of a (workspace, metric, period), zero before the
    first reading. *)
Definition summary_value (workspace_id metric period : string) (t : Tables)
    : Q :=
  match _upsert_summary_stmt workspace_id metric period t with
  | Some (_, summary) => UsageSummary.value summary
  | None => 0%Q
  end.

(** Two calls on the same session: one the pools cover, one they do not. *)
Definition sample_calls : list ConsumeCall :=
  [ {| call_env := sample_env 1000; call_user := alice; call_type := BC;
       call_amount := 30; call_action := "build";
       call_complexity_score := 0; call_action_hash := Some "action-1";
       call_allow_payg := true |};
    {| call_env := sample_env 1001; call_user := alice; call_type := BC;
       call_amount := 500; call_action := "build";
       call_complexity_score := 0; call_action_hash := Some "action-2";
       call_allow_payg := true |} ].

(** Credit the first loop of [consume] can take from the buckets of the
    user and credit type at the time of [env], and all it can take from
    buckets and allowances together. *)
Definition rollover_usable (env : Env) (user : User.t)
    (allowance_type : AllowanceType) (t : Tables) : Z :=
  sumZ (map RolloverBucket.remain
          (List.filter (bucket_eligible env user allowance_type t)
             (rollover_buckets t))).

Definition pools_available (env : Env) (user : User.t)
    (allowance_type : AllowanceType) (t : Tables) : Z :=
  rollover_usable env user allowance_type t
  + allowance_balance env user allowance_type t.

(** What the first loop can take from the bucket at position [i]. *)
Definition bucket_take (bs : list RolloverBucket.t) (i : nat) : Z :=
  match bs !! i with
  | Some b => Z.max (RolloverBucket.remain b) 0
  | None => 0
  end.

(** What the second loop can take from the allowance at position [i]. *)
Definition allowance_take (als : list Allowance.t) (i : nat) : Z :=
  match als !! i with
  | Some a => Z.max (Allowance.total a - Allowance.used a) 0
  | None => 0
  end.

(** ** The rest of [BillingService] *)

(** [allowance.expires_at = datetime.utcnow()] *)
Definition expire_allowance (a : Allowance.t) (now : datetime)
    : Allowance.t :=
  {| Allowance.id := Allowance.id a; Allowance.user_id := Allowance.user_id a;
     Allowance.plan_id := Allowance.plan_id a;
     Allowance.type := Allowance.type a;
     Allowance.total := Allowance.total a; Allowance.used := Allowance.used a;
     Allowance.window := Allowance.window a;
     Allowance.rollover_policy := Allowance.rollover_policy a;
     Allowance.expires_at := Some now;
     Allowance.source := Allowance.source a;
     Allowance.created_at := Allowance.created_at a |}.

(** [revoke_allowance], called on an allowance object of the session: the
    row at position [i].  [reason] only adds a note to the metadata. *)
Definition revoke_allowance (env : Env) (allowance : nat * Allowance.t)
    : M Allowance.t :=
  let '(i, allowance) := allowance in
  let allowance := expire_allowance allowance (utcnow env) in
  mutate (λ t, set_allowances t (<[i := allowance]> (allowances t)));;
  db_flush;;
  mret allowance.

(** The three assignments of [grant_daily_autofix_bc] to the allowance it
    finds. *)
Definition refresh_daily_allowance (a : Allowance.t) (free_daily_bc : Z)
    (expires_at : datetime) : Allowance.t :=
  {| Allowance.id := Allowance.id a; Allowance.user_id := Allowance.user_id a;
     Allowance.plan_id := Allowance.plan_id a;
     Allowance.type := Allowance.type a;
     Allowance.total := free_daily_bc;
     Allowance.used := Z.min (Allowance.used a) free_daily_bc;
     Allowance.window := Allowance.window a;
     Allowance.rollover_policy := Allowance.rollover_policy a;
     Allowance.expires_at := Some expires_at;
     Allowance.source := Allowance.source a;
     Allowance.created_at := Allowance.created_at a |}.

Definition grant_daily_autofix_bc_stmt (user : User.t) (source : string)
    (t : Tables) : option (nat * Allowance.t) :=
  first
    (select_where
       (λ a, String.eqb (Allowance.user_id a) (User.id user)
             && option_eqb (Allowance.source a) source
             && AllowanceType_eqb (Allowance.type a) BC)
       (allowances t)).

(** [DELETE FROM allowance_daily_autofix WHERE date_key < cutoff_key]: the
    rows it removes, and the rows it leaves.  ISO dates compare as strings
    the way their days compare as numbers. *)
Definition autofix_counter_is_stale (older_than : Z)
    (r : AllowanceDailyAutofix.t) : bool :=
  AllowanceDailyAutofix.date_key r <? older_than.

(** [select(OverageCharge).where(user_id == user.id)
      .order_by(generated_at.desc())] of [UsageService.list_overages] *)
Definition list_overages_stmt (user : User.t) (t : Tables)
    : list (nat * OverageCharge.t) :=
  order_by
    (λ x y, OverageCharge.generated_at y.2 <=? OverageCharge.generated_at x.2)
    (select_where
       (λ c, String.eqb (OverageCharge.user_id c) (User.id user))
       (overage_charges t)).

Definition list_overages (user : User.t) : M (list (nat * OverageCharge.t)) :=
  query (list_overages_stmt user).

Section Maintenance.
(** [self.config], and [date.isoformat] on a day number *)
Variable config : BillingConfig.
Variable date_isoformat : Z → string.

(** [today] is a day number; [datetime(today.year, today.month, today.day)]
    is the first second of that day. *)
Definition grant_daily_autofix_bc (env : Env) (user : User.t)
    (today : option Z) : M (option Allowance.t) :=
  if free_daily_bc config <=? 0 then mret None
  else
    let today := default (date_key_of env) today in
    let start_dt := timedelta_days today in
    let expires_at := start_dt + timedelta_days 1 in
    let source := "autofix_daily_bc::" +:+ date_isoformat today in
    allowance ← query (grant_daily_autofix_bc_stmt user source);
    match allowance with
    | Some (i, allowance) =>
        let allowance :=
          refresh_daily_allowance allowance (free_daily_bc config)
            expires_at in
        mutate (λ t, set_allowances t (<[i := allowance]> (allowances t)));;
        db_flush;;
        mret (Some allowance)
    | None =>
        allowance ← grant_allowance env user None BC (free_daily_bc config)
                      DAILY NONE (Some expires_at) (Some source);
        db_flush;;
        mret (Some allowance)
    end.

(** The return value is [result.rowcount]. *)
Definition cleanup_autofix_counters (older_than : Z) : M Z :=
  removed ← query (λ t, List.filter (autofix_counter_is_stale older_than)
                          (allowance_daily_autofix t));
  mutate (λ t, set_allowance_daily_autofix t
                 (List.filter
                    (λ r, negb (autofix_counter_is_stale older_than r))
                    (allowance_daily_autofix t)));;
  mret (Z.of_nat (length removed)).

(** The loop of [reset_autofix] of [app/scripts/billing_tasks.py] over the
    rows of the [users] table, which are given; the result is [granted].
    Each iteration draws its identifier from the stream; the clock is read
    once for the run, so the rows it creates share their [created_at]. *)
Fixpoint grant_free_users (env : Env) (users : list User.t) (today : Z)
    : M Z :=
  match users with
  | [] => mret 0
  | user :: rest =>
      subscription ← get_primary_subscription user;
      granted ←
        match subscription with
        | None => mret 0
        | Some (_, subscription) =>
            free ← is_free_plan subscription;
            if (free : bool) then
              grant_daily_autofix_bc env user (Some today);;
              mret 1
            else mret 0
        end;
      more ← grant_free_users (env_skip 1 env) rest today;
      mret (granted + more)
  end.

(** [reset_autofix]; the result is the two numbers it prints, [granted]
    and [removed]. *)
Definition reset_autofix (env : Env) (users : list User.t) (today : Z)
    : M (Z * Z) :=
  granted ← grant_free_users env users today;
  removed ← cleanup_autofix_counters today;
  db_commit;;
  mret (granted, removed).
End Maintenance.

(** ** [PointsService] of [app/services/points_service.py] *)

Module PointTransactionType.
Inductive t := RECHARGE | USAGE | ADJUSTMENT | REFUND.
End PointTransactionType.

Module PointTransaction.
Record t := {
  id : Id;
  user_id : Id;
  type : PointTransactionType.t;
  change : Z;
  balance_after : Z
}.
End PointTransaction.

Record RechargePackage := {
  package_id : string;
  package_points : Z;
  package_price : Z
}.

Definition RECHARGE_PACKAGES : list RechargePackage := [
  {| package_id := "starter"; package_points := 500; package_price := 49 |};
  {| package_id := "creator"; package_points := 1500; package_price := 129 |};
  {| package_id := "studio"; package_points := 4000; package_price := 299 |}
].

(** [RECHARGE_PACKAGES_BY_ID.get(package_id)] *)
Definition RECHARGE_PACKAGES_BY_ID (id : string) : option RechargePackage :=
  List.find (λ pkg, String.eqb (package_id pkg) id) RECHARGE_PACKAGES.

(** The database as [PointsService] sees it: the tables of the billing
    service and [point_transactions].  Every row added to that table is
    committed by the statement that follows the [add], so one copy of it is
    kept. *)
Record PointsDb := {
  billing_db : Session;
  point_transactions : list PointTransaction.t
}.

Inductive PointsError :=
  | Billing (e : BillingError)
  | InsufficientPointsError.

Inductive points_outcome (A : Type) :=
  | Done (a : A)
  | Failed (e : PointsError).
Arguments Done {A} a.
Arguments Failed {A} e.

Module PointsService.
Section PointsService.
(** [self.billing.config] *)
Variable config : BillingConfig.

Definition _bc_allowances (env : Env) (user : User.t) (t : Tables)
    : list Allowance.t :=
  List.filter
    (λ a, String.eqb (Allowance.user_id a) (User.id user)
          && AllowanceType_eqb (Allowance.type a) BC
          && not_expired (Allowance.expires_at a) (utcnow env))
    (allowances t).

Definition _rollover_balance (env : Env) (user : User.t) (t : Tables) : Z :=
  sumZ (map RolloverBucket.remain
          (List.filter
             (λ b, String.eqb (RolloverBucket.user_id b) (User.id user)
                   && bucket_has_type t BC b
                   && not_expired (RolloverBucket.expires_at b) (utcnow env))
             (rollover_buckets t))).

Definition _calculate_balance (env : Env) (user : User.t) (t : Tables) : Z :=
  let allowances := _bc_allowances env user t in
  let allowance_balance :=
    sumZ (map (λ allowance,
                 Z.max (Allowance.total allowance - Allowance.used allowance)
                   0)
            allowances) in
  allowance_balance + _rollover_balance env user t.

Definition ensure_balance (env : Env) (user : User.t) (required : Z)
    : M bool :=
  '(available, _) ← would_consume env user BC (Z.max required 0);
  mret (required <=? available).

(** [_record_transaction]: the row is added and the session committed. *)
Definition _record_transaction (env : Env) (user : User.t) (change : Z)
    (tx_type : PointTransactionType.t) (d : PointsDb)
    : points_outcome PointTransaction.t * PointsDb :=
  let balance_after := _calculate_balance env user (live (billing_db d)) in
  let transaction :=
    {| PointTransaction.id := uuid4 env 2;
       PointTransaction.user_id := User.id user;
       PointTransaction.type := tx_type;
       PointTransaction.change := change;
       PointTransaction.balance_after := balance_after |} in
  (Done transaction,
   {| billing_db := exec db_commit (billing_db d);
      point_transactions := point_transactions d ++ [transaction] |}).

(** The identifier in [source] is drawn before [grant_allowance] draws the
    allowance's. *)
Definition recharge (env : Env) (user : User.t) (package_id : string)
    (d : PointsDb) : points_outcome PointTransaction.t * PointsDb :=
  match RECHARGE_PACKAGES_BY_ID package_id with
  | None => (Failed (Billing ValueError), d)
  | Some package =>
      match
        grant_allowance (env_skip 1 env) user None BC
          (package_points package) MONTHLY NONE None
          (Some ("recharge::" +:+ package_id +:+ "::" +:+ uuid4 env 0))
          (billing_db d)
      with
      | (Raise e, s) =>
          (Failed (Billing e),
           {| billing_db := s; point_transactions := point_transactions d |})
      | (Ok allowance, s) =>
          _record_transaction env user (package_points package)
            PointTransactionType.RECHARGE
            {| billing_db := exec db_commit s;
               point_transactions := point_transactions d |}
      end
  end.

Definition consume (env : Env) (user : User.t) (points : Z)
    (reason : string) (d : PointsDb)
    : points_outcome PointTransaction.t * PointsDb :=
  if points <=? 0 then (Failed (Billing ValueError), d)
  else
    match
      consume config env user BC points reason 0 None true (billing_db d)
    with
    | (Raise AllowanceExhaustedError, s) | (Raise AutoFixLimitExceeded, s) =>
        (Failed InsufficientPointsError,
         {| billing_db := s; point_transactions := point_transactions d |})
    | (Raise e, s) =>
        (Failed (Billing e),
         {| billing_db := s; point_transactions := point_transactions d |})
    | (Ok result, s) =>
        _record_transaction env user (- total_deducted result)
          PointTransactionType.USAGE
          {| billing_db := s; point_transactions := point_transactions d |}
    end.

End PointsService.
End PointsService.

(** ** Notions used to state the further properties *)

(** Some allowance holds the unique key [(user_id, plan_id, type, source)]
    of a new allowance of the user for the plan, type and source.  [NULL]
    equals nothing: without a plan or without a source the key is never
    taken. *)
Definition allowance_key_taken (user : User.t) (plan : option Plan.t)
    (allowance_type : AllowanceType) (source : option string) (t : Tables)
    : bool :=
  existsb
    (λ b, String.eqb (User.id user) (Allowance.user_id b)
          && nullable_eqb (Plan.id <$> plan) (Allowance.plan_id b)
          && AllowanceType_eqb allowance_type (Allowance.type b)
          && nullable_eqb source (Allowance.source b))
    (allowances t).

(** The [plans] table can take the default seeds: identifiers are unique,
    and a stored plan that bears the name of a seed has the identifier of
    that seed. *)
Definition plans_seedable (t : Tables) : Prop :=
  NoDup (Plan.id <$> plans t)
  ∧ ∀ p seed, p ∈ plans t → seed ∈ DEFAULT_PLAN_SEEDS →
              Plan.name p = seed_name seed → Plan.id p = seed_id seed.

(** The table one iteration of [ensure_default_plans] leaves, and the
    position of the row it writes. *)
Definition ensure_plan_rows (seed : PlanSeed) (t : Tables) : list Plan.t :=
  match get_plan t (seed_id seed) with
  | Some (i, _) => <[i := plan_of_seed seed]> (plans t)
  | None => plans t ++ [plan_of_seed seed]
  end.

Definition ensure_plan_row (seed : PlanSeed) (t : Tables) : nat :=
  match get_plan t (seed_id seed) with
  | Some (i, _) => i
  | None => length (plans t)
  end.

(** The only subscription of the user on the plan, if any, is the primary
    one [activate_plan] finds and rewrites. *)
Definition membership_free (user : User.t) (plan : Plan.t) (t : Tables)
    : Prop :=
  ∀ j row,
    user_subscriptions t !! j = Some row →
    UserSubscription.user_id row = User.id user →
    UserSubscription.plan_id row = Plan.id plan →
    get_primary_subscription_stmt user t = Some (j, row).

(** The rows of the [allowances] query of [_upsert_allowance]. *)
Definition upsert_matches (user : User.t) (plan : Plan.t)
    (allowance_type : AllowanceType) (a : Allowance.t) : bool :=
  String.eqb (Allowance.user_id a) (User.id user)
  && option_eqb (Allowance.plan_id a) (Plan.id plan)
  && AllowanceType_eqb (Allowance.type a) allowance_type.

(** The plan whose attributes [activate_plan] reads once
    [ensure_default_plans] has run: a plan held in the session shows what
    that call wrote to its row. *)
Definition activated_plan (plan : Plan.t) (t : Tables) : Plan.t :=
  match get_plan t (Plan.id plan) with
  | Some (_, stored) =>
      match
        List.find (λ seed, String.eqb (seed_id seed) (Plan.id plan))
          DEFAULT_PLAN_SEEDS
      with
      | Some seed => plan_of_seed seed
      | None => stored
      end
  | None => plan
  end.

(** The subscription [activate_plan] writes: the primary subscription it
    found, updated, or a new one. *)
Definition activated_subscription (env : Env) (user : User.t) (plan : Plan.t)
    (source : string) (found : option (nat * UserSubscription.t))
    : UserSubscription.t :=
  {| UserSubscription.id :=
       match found with Some (_, s) => UserSubscription.id s
                      | None => uuid4 env 0 end;
     UserSubscription.user_id := User.id user;
     UserSubscription.plan_id := Plan.id plan;
     UserSubscription.status :=
       if Plan.trial_days plan =? 0 then ACTIVE else TRIALING;
     UserSubscription.payg_enabled := Plan.payg_enabled plan;
     UserSubscription.is_primary := true;
     UserSubscription.current_period_start := utcnow env;
     UserSubscription.current_period_end :=
       Some (utcnow env + timedelta_days 30);
     UserSubscription.trial_ends_at :=
       if Plan.trial_days plan =? 0 then None
       else Some (utcnow env + timedelta_days (Plan.trial_days plan));
     UserSubscription.autofix_limit :=
       match found with Some (_, s) => UserSubscription.autofix_limit s
                      | None => None end;
     UserSubscription.source := Some source;
     UserSubscription.created_at :=
       match found with Some (_, s) => UserSubscription.created_at s
                      | None => utcnow env end |}.

(** [usage_total] and [allowance_specs] of [activate_plan]. *)
Definition usage_total_of (config : BillingConfig) (plan : Plan.t)
    : outcome Z :=
  int_of_product (Plan.rc_monthly plan)
    (float_round
       (default (default_usage_bonus config) (Plan.usage_bonus_rate plan))).

Definition allowance_specs_of (plan : Plan.t) (usage_total : Z)
    : list (AllowanceType * Z * RolloverPolicy) :=
  [(BC, Plan.bc_monthly plan, ONE_CYCLE);
   (RC, Plan.rc_monthly plan, ONE_CYCLE)]
  ++ (if 0 <? usage_total then [(USAGE, usage_total, NONE)] else []).

(** The rows of the [allowances] query of [grant_daily_autofix_bc]. *)
Definition daily_matches (user : User.t) (source : string)
    (a : Allowance.t) : bool :=
  String.eqb (Allowance.user_id a) (User.id user)
  && option_eqb (Allowance.source a) source
  && AllowanceType_eqb (Allowance.type a) BC.

(** [source] and [expires_at] of the daily allowance of a day. *)
Definition daily_source (date_isoformat : Z → string) (day : Z) : string :=
  "autofix_daily_bc::" +:+ date_isoformat day.

Definition daily_expiry (day : Z) : datetime :=
  timedelta_days day + timedelta_days 1.

(** The user holds the daily allowance of [day]: the row the query of
    [grant_daily_autofix_bc] finds has the configured total, [used ≤ total]
    and expires when the day ends. *)
Definition holds_daily_allowance (config : BillingConfig)
    (date_isoformat : Z → string) (day : Z) (user : User.t) (t : Tables)
    : Prop :=
  ∃ i a,
    grant_daily_autofix_bc_stmt user (daily_source date_isoformat day) t
    = Some (i, a)
    ∧ Allowance.total a = free_daily_bc config
    ∧ Allowance.used a ≤ Allowance.total a
    ∧ Allowance.expires_at a = Some (daily_expiry day).

(** The rows of the [usage_summaries] query of [_upsert_summary]. *)
Definition summary_matches (workspace_id metric period : string)
    (sm : UsageSummary.t) : bool :=
  String.eqb (UsageSummary.workspace_id sm) workspace_id
  && String.eqb (UsageSummary.metric sm) metric
  && String.eqb (UsageSummary.period sm) period.

(** The rows of the counter query of [_apply_autofix]. *)
Definition counter_matches (env : Env) (user : User.t)
    (r : AllowanceDailyAutofix.t) : bool :=
  String.eqb (AllowanceDailyAutofix.user_id r) (User.id user)
  && (AllowanceDailyAutofix.date_key r =? date_key_of env).

(** The rows of the query of [get_primary_subscription]. *)
Definition primary_matches (user : User.t) (s : UserSubscription.t) : bool :=
  String.eqb (UserSubscription.user_id s) (User.id user)
  && UserSubscription.is_primary s
  && subscription_status_open (UserSubscription.status s).

(** * Properties *)

(** ** Queries *)

Section Queries.
Context {A : Type}.
Implicit Types (l : list A) (p : A → bool) (leb : A → A → bool).

Lemma elem_of_indexed l i x : (i, x) ∈ indexed l ↔ l !! i = Some x.
Proof.
  unfold indexed. rewrite elem_of_lookup_imap. split.
  - intros (j & y & Heq & Hl). by simplify_eq.
  - intros Hl. by exists i, x.
Qed.

Lemma indexed_fst l : (indexed l).*1 = seq 0 (length l).
Proof.
  unfold indexed. rewrite fmap_imap.
  rewrite (imap_ext _ (λ j _, j)) by done.
  by rewrite imap_seq_0, list_fmap_id.
Qed.

Lemma indexed_snd l : (indexed l).*2 = l.
Proof.
  unfold indexed. rewrite fmap_imap.
  rewrite (imap_ext _ (const id)) by done.
  by rewrite imap_const, list_fmap_id.
Qed.

Lemma NoDup_indexed_fst l : NoDup (indexed l).*1.
Proof. rewrite indexed_fst. apply NoDup_seq. Qed.

Lemma elem_of_List_filter {B} (q : B → bool) (k : list B) x :
  x ∈ List.filter q k ↔ x ∈ k ∧ q x = true.
Proof. rewrite !list_elem_of_In. apply filter_In. Qed.

Lemma List_filter_fmap {B C} (f : B → C) (q : C → bool) (k : list B) :
  List.filter q (f <$> k) = f <$> List.filter (q ∘ f) k.
Proof.
  induction k as [|x k IH]; [done|].
  change (f <$> x :: k) with (f x :: (f <$> k)).
  cbn [List.filter compose]. rewrite IH.
  by destruct (q (f x)).
Qed.

Lemma List_filter_sublist {B} (q : B → bool) (k : list B) :
  List.filter q k `sublist_of` k.
Proof.
  induction k as [|x k IH]; simpl; [done|].
  destruct (q x); by constructor.
Qed.

Lemma elem_of_select_where p l i x :
  (i, x) ∈ select_where p l ↔ l !! i = Some x ∧ p x = true.
Proof.
  unfold select_where. rewrite elem_of_List_filter, elem_of_indexed. done.
Qed.

Lemma select_where_snd p l : (select_where p l).*2 = List.filter p l.
Proof.
  unfold select_where.
  transitivity (List.filter p (indexed l).*2); [|by rewrite indexed_snd].
  by rewrite List_filter_fmap.
Qed.

Lemma NoDup_select_where_fst p l : NoDup (select_where p l).*1.
Proof.
  unfold select_where.
  eapply sublist_NoDup; [apply NoDup_indexed_fst|].
  apply fmap_sublist, List_filter_sublist.
Qed.

Lemma insert_by_Permutation leb x l : insert_by leb x l ≡ₚ x :: l.
Proof.
  induction l as [|y l IH]; simpl; [done|].
  destruct (leb x y); [done|]. rewrite IH. apply Permutation_swap.
Qed.

Lemma order_by_Permutation leb l : order_by leb l ≡ₚ l.
Proof.
  induction l as [|x l IH]; simpl; [done|].
  rewrite insert_by_Permutation. by rewrite IH.
Qed.

Lemma elem_of_order_by leb l x : x ∈ order_by leb l ↔ x ∈ l.
Proof. by rewrite order_by_Permutation. Qed.

Lemma first_filter_imap (f : nat → nat) p l :
  first (List.filter (λ ir : nat * A, p ir.2) (imap (λ i x, (f i, x)) l))
  = prod_map f id <$> list_find (λ x, p x) l.
Proof.
  revert f. induction l as [|x l IH]; intros f; [done|].
  rewrite imap_cons. cbn [List.filter list_find snd].
  destruct (p x) eqn:Hp; simpl; [done|].
  change ((λ (i : nat) (x0 : A), (f i, x0)) ∘ S)
    with (λ (i : nat) (x0 : A), ((f ∘ S) i, x0)).
  rewrite (IH (f ∘ S)). by destruct (list_find _ l) as [[??]|].
Qed.

(** [first] of a filtered table is the first matching row. *)
Lemma first_select_where p l :
  first (select_where p l) = list_find (λ x, p x) l.
Proof.
  unfold select_where, indexed.
  rewrite (first_filter_imap id).
  by destruct (list_find _ l) as [[??]|].
Qed.

Lemma first_select_where_Some p l i x :
  first (select_where p l) = Some (i, x) ↔
  l !! i = Some x ∧ p x = true
  ∧ ∀ j y, l !! j = Some y → (j < i)%nat → p y = false.
Proof.
  rewrite first_select_where, list_find_Some. split.
  - intros (? & Hp & Hl). split_and!; [done|by apply Is_true_true|].
    intros j y H1 H2. specialize (Hl j y H1 H2).
    destruct (p y); [|done]. exfalso. by apply Hl.
  - intros (? & Hp & Hl). split_and!; [done|by apply Is_true_true|].
    intros j y ??. rewrite (Hl j y) by done. by intros [].
Qed.

Lemma first_select_where_None p l :
  first (select_where p l) = None ↔ ∀ x, x ∈ l → p x = false.
Proof.
  rewrite first_select_where, list_find_None, Forall_forall.
  split; intros H x Hx; specialize (H x Hx).
  - destruct (p x); [|done]. exfalso. by apply H.
  - rewrite H. by intros [].
Qed.
End Queries.

(** ** The session monad *)

Lemma bind_run {A B} (m : M A) (k : A → M B) s :
  (m ≫= k) s = match m s with
               | (Ok a, s') => k a s'
               | (Raise e, s') => (Raise e, s')
               end.
Proof. reflexivity. Qed.

Lemma bind_run_Ok {A B} (m : M A) (k : A → M B) s a s' :
  m s = (Ok a, s') → (m ≫= k) s = k a s'.
Proof. intros H. by rewrite bind_run, H. Qed.

Lemma query_run {A} (f : Tables → A) s : query f s = (Ok (f (live s)), s).
Proof. reflexivity. Qed.

(** ** The two draining loops *)

Lemma set_remain_id b :
  RolloverBucket.set_remain b (RolloverBucket.remain b) = b.
Proof. by destruct b. Qed.

Lemma set_used_id a : Allowance.set_used a (Allowance.used a) = a.
Proof. by destruct a. Qed.

Lemma bucket_step_refl b : bucket_step b b.
Proof. unfold bucket_step. rewrite set_remain_id. split; [done|lia]. Qed.

Lemma bucket_step_trans b1 b2 b3 :
  bucket_step b1 b2 → bucket_step b2 b3 → bucket_step b1 b3.
Proof.
  unfold bucket_step. intros (E1 & ? & ?) (E2 & ? & ?).
  split; [|lia]. rewrite E2, E1. by destruct b1.
Qed.

Lemma allowance_step_refl a : allowance_step a a.
Proof. unfold allowance_step. rewrite set_used_id. split; [done|lia]. Qed.

Lemma allowance_step_trans a1 a2 a3 :
  allowance_step a1 a2 → allowance_step a2 a3 → allowance_step a1 a3.
Proof.
  unfold allowance_step. intros (E1 & ? & H1) (E2 & ? & H2).
  assert (Allowance.total a2 = Allowance.total a1) as Ht
    by (rewrite E1; by destruct a1).
  split; [|lia]. rewrite E2, E1. by destruct a1.
Qed.

Lemma Forall2_refl_insert {A} (R : A → A → Prop) (l : list A) i x y :
  (∀ z, R z z) → l !! i = Some x → R x y → Forall2 R l (<[i:=y]> l).
Proof.
  intros Hrefl Hl Hxy.
  rewrite <- (list_insert_id l i x) at 1 by done.
  apply Forall2_insert; [|done].
  apply Forall_Forall2_diag, Forall_forall. auto.
Qed.

Lemma Forall2_trans' {A} (R : A → A → Prop) (l1 l2 l3 : list A) :
  (∀ x y z, R x y → R y z → R x z) →
  Forall2 R l1 l2 → Forall2 R l2 l3 → Forall2 R l1 l3.
Proof.
  intros Htr H12. revert l3.
  induction H12; intros l3 H23; inversion H23; subst; constructor; eauto.
Qed.

Lemma drain_buckets_nonpos ixs r d bs :
  r ≤ 0 → drain_buckets ixs r d bs = (r, d, bs).
Proof.
  intros Hr. destruct ixs as [|i ixs]; simpl; [done|].
  by rewrite (proj2 (Z.leb_le r 0)) by done.
Qed.

Lemma drain_allowances_nonpos ixs r d last als :
  r ≤ 0 → drain_allowances ixs r d last als = (r, d, last, als).
Proof.
  intros Hr. destruct ixs as [|i ixs]; simpl; [done|].
  by rewrite (proj2 (Z.leb_le r 0)) by done.
Qed.

Lemma drain_buckets_Forall2 ixs r d bs r' d' bs' :
  drain_buckets ixs r d bs = (r', d', bs') → Forall2 bucket_step bs bs'.
Proof.
  revert r d bs. induction ixs as [|i ixs IH]; intros r d bs; simpl.
  - intros [= <- <- <-]. apply Forall_Forall2_diag, Forall_forall.
    auto using bucket_step_refl.
  - destruct (Z.leb_spec r 0).
    { intros [= <- <- <-]. apply Forall_Forall2_diag, Forall_forall.
      auto using bucket_step_refl. }
    destruct (bs !! i) as [b|] eqn:Hb; [|by apply IH].
    destruct (Z.leb_spec (RolloverBucket.remain b) 0); [by apply IH|].
    intros Hrun. apply IH in Hrun.
    eapply Forall2_trans'; [apply bucket_step_trans| |exact Hrun].
    eapply Forall2_refl_insert; [apply bucket_step_refl|exact Hb|].
    unfold bucket_step; simpl. split; [done|lia].
  Qed.

Lemma drain_allowances_Forall2 ixs r d last als r' d' last' als' :
  drain_allowances ixs r d last als = (r', d', last', als') →
  Forall2 allowance_step als als'.
Proof.
  revert r d last als.
  induction ixs as [|i ixs IH]; intros r d last als; simpl.
  - intros [= <- <- <- <-]. apply Forall_Forall2_diag, Forall_forall.
    auto using allowance_step_refl.
  - destruct (Z.leb_spec r 0).
    { intros [= <- <- <- <-]. apply Forall_Forall2_diag, Forall_forall.
      auto using allowance_step_refl. }
    destruct (als !! i) as [a|] eqn:Ha; [|by apply IH].
    destruct (Z.leb_spec (Z.max (Allowance.total a - Allowance.used a) 0) 0);
      [by apply IH|].
    intros Hrun. apply IH in Hrun.
    eapply Forall2_trans'; [apply allowance_step_trans| |exact Hrun].
    eapply Forall2_refl_insert; [apply allowance_step_refl|exact Ha|].
    unfold allowance_step; simpl. split; [done|lia].
  Qed.

Lemma sumZ_map_insert {A} (f : A → Z) (l : list A) i x y :
  l !! i = Some x →
  sumZ (map f (<[i:=y]> l)) = sumZ (map f l) - f x + f y.
Proof.
  revert i. induction l as [|z l IH]; intros [|i]; simpl; try done.
  - intros [= ->]. lia.
  - intros Hl. rewrite (IH _ Hl). lia.
Qed.

Lemma drain_buckets_amounts ixs r d bs r' d' bs' :
  drain_buckets ixs r d bs = (r', d', bs') →
  r' ≤ r ∧ (0 ≤ r → 0 ≤ r') ∧ d' - d = r - r'
  ∧ sumZ (map RolloverBucket.remain bs)
    - sumZ (map RolloverBucket.remain bs') = d' - d.
Proof.
  revert r d bs. induction ixs as [|i ixs IH]; intros r d bs; simpl.
  - intros [= <- <- <-]. lia.
  - destruct (Z.leb_spec r 0); [intros [= <- <- <-]; lia|].
    destruct (bs !! i) as [b|] eqn:Hb; [|by apply IH].
    destruct (Z.leb_spec (RolloverBucket.remain b) 0); [by apply IH|].
    intros Hrun. apply IH in Hrun.
    rewrite (sumZ_map_insert _ _ _ _ _ Hb) in Hrun. simpl in Hrun. lia.
Qed.

Lemma drain_allowances_amounts ixs r d last als r' d' last' als' :
  drain_allowances ixs r d last als = (r', d', last', als') →
  r' ≤ r ∧ (0 ≤ r → 0 ≤ r') ∧ d' - d = r - r'
  ∧ sumZ (map (λ a, Allowance.total a - Allowance.used a) als)
    - sumZ (map (λ a, Allowance.total a - Allowance.used a) als') = d' - d.
Proof.
  revert r d last als.
  induction ixs as [|i ixs IH]; intros r d last als; simpl.
  - intros [= <- <- <- <-]. lia.
  - destruct (Z.leb_spec r 0); [intros [= <- <- <- <-]; lia|].
    destruct (als !! i) as [a|] eqn:Ha; [|by apply IH].
    destruct (Z.leb_spec (Z.max (Allowance.total a - Allowance.used a) 0) 0);
      [by apply IH|].
    intros Hrun. apply IH in Hrun.
    rewrite (sumZ_map_insert _ _ _ _ _ Ha) in Hrun. simpl in Hrun. lia.
Qed.

(** Rows the loop does not visit are left alone. *)
Lemma drain_buckets_other ixs r d bs r' d' bs' j :
  drain_buckets ixs r d bs = (r', d', bs') → j ∉ ixs → bs' !! j = bs !! j.
Proof.
  revert r d bs. induction ixs as [|i ixs IH]; intros r d bs; simpl.
  - by intros [= <- <- <-].
  - intros Hrun Hj. apply not_elem_of_cons in Hj as [Hji Hj].
    destruct (Z.leb_spec r 0); [by injection Hrun as <- <- <-|].
    destruct (bs !! i) as [b|] eqn:Hb; [|by eapply IH].
    destruct (Z.leb_spec (RolloverBucket.remain b) 0); [by eapply IH|].
    rewrite (IH _ _ _ Hrun Hj). by apply list_lookup_insert_ne.
Qed.

Lemma drain_allowances_other ixs r d last als r' d' last' als' j :
  drain_allowances ixs r d last als = (r', d', last', als') →
  j ∉ ixs → als' !! j = als !! j.
Proof.
  revert r d last als.
  induction ixs as [|i ixs IH]; intros r d last als; simpl.
  - by intros [= <- <- <- <-].
  - intros Hrun Hj. apply not_elem_of_cons in Hj as [Hji Hj].
    destruct (Z.leb_spec r 0); [by injection Hrun as <- <- <- <-|].
    destruct (als !! i) as [a|] eqn:Ha; [|by eapply IH].
    destruct (Z.leb_spec (Z.max (Allowance.total a - Allowance.used a) 0) 0);
      [by eapply IH|].
    rewrite (IH _ _ _ _ Hrun Hj). by apply list_lookup_insert_ne.
Qed.

(** A remainder after the loop means every visited bucket is empty. *)
Lemma drain_buckets_drained ixs r d bs r' d' bs' j b' :
  drain_buckets ixs r d bs = (r', d', bs') → 0 < r' →
  j ∈ ixs → bs' !! j = Some b' → RolloverBucket.remain b' ≤ 0.
Proof.
  revert r d bs. induction ixs as [|i ixs IH]; intros r d bs; simpl.
  - intros _ _ Hj. by apply elem_of_nil in Hj.
  - intros Hrun Hr' Hj Hb'.
    destruct (Z.leb_spec r 0); [injection Hrun as <- <- <-; lia|].
    destruct (decide (j ∈ ixs)) as [Hin|Hnin].
    { destruct (bs !! i) as [b|] eqn:Hb; [|by eapply IH].
      destruct (Z.leb_spec (RolloverBucket.remain b) 0); by eapply IH. }
    apply elem_of_cons in Hj as [->|Hj]; [|done].
    destruct (bs !! i) as [b|] eqn:Hb.
    + destruct (Z.leb_spec (RolloverBucket.remain b) 0).
      * rewrite (drain_buckets_other _ _ _ _ _ _ _ _ Hrun Hnin), Hb in Hb'.
        by injection Hb' as <-.
      * pose proof (drain_buckets_amounts _ _ _ _ _ _ _ Hrun) as (? & _).
        rewrite (drain_buckets_other _ _ _ _ _ _ _ _ Hrun Hnin) in Hb'.
        rewrite list_lookup_insert_eq in Hb'
          by (by eapply lookup_lt_Some).
        injection Hb' as <-. simpl. lia.
    + rewrite (drain_buckets_other _ _ _ _ _ _ _ _ Hrun Hnin), Hb in Hb'.
      done.
Qed.

Lemma drain_allowances_drained ixs r d last als r' d' last' als' j a' :
  drain_allowances ixs r d last als = (r', d', last', als') → 0 < r' →
  j ∈ ixs → als' !! j = Some a' →
  Allowance.total a' - Allowance.used a' ≤ 0.
Proof.
  revert r d last als.
  induction ixs as [|i ixs IH]; intros r d last als; simpl.
  - intros _ _ Hj. by apply elem_of_nil in Hj.
  - intros Hrun Hr' Hj Ha'.
    destruct (Z.leb_spec r 0); [injection Hrun as <- <- <- <-; lia|].
    destruct (decide (j ∈ ixs)) as [Hin|Hnin].
    { destruct (als !! i) as [a|] eqn:Ha; [|by eapply IH].
      destruct (Z.leb_spec
                  (Z.max (Allowance.total a - Allowance.used a) 0) 0);
        by eapply IH. }
    apply elem_of_cons in Hj as [->|Hj]; [|done].
    destruct (als !! i) as [a|] eqn:Ha.
    + destruct (Z.leb_spec
                  (Z.max (Allowance.total a - Allowance.used a) 0) 0).
      * rewrite (drain_allowances_other _ _ _ _ _ _ _ _ _ _ Hrun Hnin), Ha
          in Ha'.
        injection Ha' as <-. lia.
      * pose proof (drain_allowances_amounts _ _ _ _ _ _ _ _ _ Hrun)
          as (? & _).
        rewrite (drain_allowances_other _ _ _ _ _ _ _ _ _ _ Hrun Hnin)
          in Ha'.
        rewrite list_lookup_insert_eq in Ha'
          by (by eapply lookup_lt_Some).
        injection Ha' as <-. simpl. lia.
    + rewrite (drain_allowances_other _ _ _ _ _ _ _ _ _ _ Hrun Hnin), Ha
        in Ha'.
      done.
Qed.

(** The loops do nothing on pools that are already empty. *)
Lemma drain_buckets_empty ixs r d bs :
  (∀ j b, j ∈ ixs → bs !! j = Some b → RolloverBucket.remain b ≤ 0) →
  drain_buckets ixs r d bs = (r, d, bs).
Proof.
  induction ixs as [|i ixs IH]; intros Hall; simpl; [done|].
  destruct (Z.leb_spec r 0); [done|].
  assert (drain_buckets ixs r d bs = (r, d, bs)) as IH'.
  { apply IH. intros j b Hj. apply Hall. by right. }
  destruct (bs !! i) as [b|] eqn:Hb; [|done].
  by rewrite (proj2 (Z.leb_le _ 0)) by (eapply Hall; [left|done]).
Qed.

Lemma drain_allowances_empty ixs r d last als :
  (∀ j a, j ∈ ixs → als !! j = Some a →
          Allowance.total a - Allowance.used a ≤ 0) →
  drain_allowances ixs r d last als = (r, d, last, als).
Proof.
  induction ixs as [|i ixs IH]; intros Hall; simpl; [done|].
  destruct (Z.leb_spec r 0); [done|].
  assert (drain_allowances ixs r d last als = (r, d, last, als)) as IH'.
  { apply IH. intros j b Hj. apply Hall. by right. }
  destruct (als !! i) as [a|] eqn:Ha; [|done].
  assert (Allowance.total a - Allowance.used a ≤ 0)
    by (eapply Hall; [left|done]).
  by rewrite (proj2 (Z.leb_le _ 0)) by lia.
Qed.

Lemma drain_buckets_app ixs1 ixs2 r d bs :
  drain_buckets (ixs1 ++ ixs2) r d bs =
  let '(r1, d1, bs1) := drain_buckets ixs1 r d bs in
  drain_buckets ixs2 r1 d1 bs1.
Proof.
  revert r d bs. induction ixs1 as [|i ixs1 IH]; intros r d bs; simpl.
  - done.
  - destruct (Z.leb_spec r 0); [by rewrite drain_buckets_nonpos|].
    destruct (bs !! i) as [b|]; [|apply IH].
    destruct (RolloverBucket.remain b <=? 0); apply IH.
Qed.

(** ** The steps of [consume] *)

Lemma find_event_run action_hash s :
  find_event action_hash s
  = (Ok (consume_existing_stmt action_hash (live s)), s).
Proof. reflexivity. Qed.

Lemma truthy_str_Some h : h ≠ "" → truthy_str (Some h) = Some h.
Proof.
  intros Hh. unfold truthy_str.
  destruct (String.eqb_spec h ""); [done|done].
Qed.

Lemma _iter_rollover_buckets_run env user ty s :
  _iter_rollover_buckets env user ty s
  = (Ok (_iter_rollover_buckets_stmt env user ty (live s)), s).
Proof. reflexivity. Qed.

Lemma _iter_allowances_run env user ty s :
  _iter_allowances env user ty s
  = (Ok (_iter_allowances_stmt env user ty (live s)), s).
Proof. reflexivity. Qed.

(** [drain_pools] always returns; it rewrites the two pool tables and
    nothing else. *)
Lemma drain_pools_run env user ty amount s :
  ∃ r1 d1 bs' r d last als',
    drain_buckets (_iter_rollover_buckets_stmt env user ty (live s)).*1 amount 0
      (rollover_buckets (live s)) = (r1, d1, bs')
    ∧ drain_allowances (_iter_allowances_stmt env user ty (live s)).*1 r1 d1 None
        (allowances (live s)) = (r, d, last, als')
    ∧ drain_pools env user ty amount s =
      (Ok (r, d, last),
       {| live := set_allowances (set_rollover_buckets (live s) bs') als';
          durable := durable s |}).
Proof.
  destruct (drain_buckets (_iter_rollover_buckets_stmt env user ty (live s)).*1 amount 0
              (rollover_buckets (live s))) as [[r1 d1] bs'] eqn:Hb.
  destruct (drain_allowances (_iter_allowances_stmt env user ty (live s)).*1 r1 d1
              None (allowances (live s))) as [[[r d] last] als'] eqn:Ha.
  exists r1, d1, bs', r, d, last, als'. split; [done|]. split; [done|].
  unfold drain_pools.
  rewrite (bind_run_Ok _ _ _ _ _ (_iter_rollover_buckets_run env user ty s)).
  rewrite bind_run. unfold drain_rollover at 1. rewrite Hb. simpl.
  rewrite bind_run, _iter_allowances_run. simpl.
  unfold drain_current, _iter_allowances_stmt in *. simpl. by rewrite Ha.
Qed.

Lemma _apply_autofix_limit config env subscription user s :
  autofix_limit_of config subscription
    ≤ autofix_consumed env user (live s) →
  _apply_autofix config env subscription user s
  = (Raise AutoFixLimitExceeded, s).
Proof.
  unfold autofix_consumed, _apply_autofix. intros Hc.
  rewrite bind_run, query_run.
  destruct (_apply_autofix_stmt env user (live s)) as [[i record]|]; simpl.
  - by rewrite (proj2 (Z.leb_le _ _)) by done.
  - by rewrite (proj2 (Z.leb_le _ _)) by done.
Qed.

Lemma _apply_autofix_grant config env subscription user s :
  autofix_consumed env user (live s)
    < autofix_limit_of config subscription →
  ∃ record rows i,
    _apply_autofix config env subscription user s
    = (Ok record,
       {| live := set_allowance_daily_autofix (live s) rows;
          durable := durable s |})
    ∧ AllowanceDailyAutofix.consumed record
      = autofix_consumed env user (live s) + 1
    ∧ _apply_autofix_stmt env user
        (set_allowance_daily_autofix (live s) rows) = Some (i, record).
Proof.
  unfold autofix_consumed, _apply_autofix. intros Hc.
  rewrite bind_run, query_run.
  destruct (_apply_autofix_stmt env user (live s)) as [[i record]|] eqn:Hq;
    simpl.
  - rewrite (proj2 (Z.leb_gt _ _)) by done.
    eexists _, _, i. split; [reflexivity|]. split; [done|].
    unfold _apply_autofix_stmt in *. simpl.
    apply first_select_where_Some in Hq as (Hl & Hp & Hmin).
    apply first_select_where_Some. split_and!.
    + apply list_lookup_insert_eq. by eapply lookup_lt_Some.
    + done.
    + intros j y Hj Hji. rewrite list_lookup_insert_ne in Hj by lia. eauto.
  - rewrite (proj2 (Z.leb_gt _ _)) by done.
    eexists _, _, (length (allowance_daily_autofix (live s))).
    split; [reflexivity|]. split; [done|].
    unfold _apply_autofix_stmt in *. simpl.
    pose proof (proj1 (first_select_where_None _ _) Hq) as Hnone.
    apply first_select_where_Some. split_and!.
    + by rewrite lookup_app_r, Nat.sub_diag by done.
    + simpl. by rewrite String.eqb_refl, Z.eqb_refl.
    + intros j y Hj Hji. rewrite lookup_app_l in Hj by done.
      apply Hnone. by eapply list_elem_of_lookup_2.
Qed.

Lemma cover_remainder_none config env user ty r action allow_payg s :
  r ≤ 0 →
  cover_remainder config env user ty r action allow_payg s
  = (Ok (None, None), s).
Proof.
  intros Hr. unfold cover_remainder. by rewrite (proj2 (Z.ltb_ge 0 r)) by done.
Qed.

Lemma cover_remainder_exhausted config env user ty r action allow_payg s :
  0 < r →
  match get_primary_subscription_stmt user (live s) with
  | None => True
  | Some (_, subscription) =>
      plan_is_free (live s) subscription = false
      ∧ UserSubscription.payg_enabled subscription && allow_payg = false
  end →
  cover_remainder config env user ty r action allow_payg s
  = (Raise AllowanceExhaustedError, s).
Proof.
  intros Hr Hsub. unfold cover_remainder.
  rewrite (proj2 (Z.ltb_lt 0 r)) by done.
  unfold get_primary_subscription. rewrite bind_run, query_run.
  destruct (get_primary_subscription_stmt user (live s)) as [[i sub]|];
    [|done].
  destruct Hsub as [Hfree Hpayg]. unfold is_free_plan.
  rewrite bind_run, query_run, Hfree, Hpayg. done.
Qed.

Lemma cover_remainder_free config env user ty r action allow_payg s i sub :
  0 < r →
  get_primary_subscription_stmt user (live s) = Some (i, sub) →
  plan_is_free (live s) sub = true →
  cover_remainder config env user ty r action allow_payg s
  = match _apply_autofix config env sub user s with
    | (Ok record, s') => (Ok (Some record, None), s')
    | (Raise e, s') => (Raise e, s')
    end.
Proof.
  intros Hr Hsub Hfree. unfold cover_remainder.
  rewrite (proj2 (Z.ltb_lt 0 r)) by done.
  unfold get_primary_subscription. rewrite bind_run, query_run, Hsub.
  unfold is_free_plan. rewrite bind_run, query_run, Hfree.
  rewrite bind_run. by destruct (_apply_autofix _ _ _ _ _) as [[?|?] ?].
Qed.

Lemma cover_remainder_payg config env user ty r action allow_payg s i sub :
  0 < r →
  get_primary_subscription_stmt user (live s) = Some (i, sub) →
  plan_is_free (live s) sub = false →
  UserSubscription.payg_enabled sub && allow_payg = true →
  cover_remainder config env user ty r action allow_payg s
  = (Ok (None, Some (new_charge env user ty r action)),
     {| live := set_overage_charges (live s)
                  (overage_charges (live s)
                   ++ [new_charge env user ty r action]);
        durable := durable s |}).
Proof.
  intros Hr Hsub Hfree Hpayg. unfold cover_remainder.
  rewrite (proj2 (Z.ltb_lt 0 r)) by done.
  unfold get_primary_subscription. rewrite bind_run, query_run, Hsub.
  unfold is_free_plan. rewrite bind_run, query_run, Hfree, Hpayg.
  reflexivity.
Qed.

(** [cover_remainder] touches the auto-fix counters and the overage charges
    only, and leaves the session as it found it when it raises. *)
Lemma cover_remainder_frame config env user ty r action allow_payg s res s' :
  cover_remainder config env user ty r action allow_payg s = (res, s') →
  (∃ rows charges,
     s' = {| live := set_overage_charges
                       (set_allowance_daily_autofix (live s) rows) charges;
             durable := durable s |})
  ∧ (∀ e, res = Raise e → s' = s ∧ e ≠ ValueError).
Proof.
  assert (∀ s, {| live := set_overage_charges
                     (set_allowance_daily_autofix (live s)
                        (allowance_daily_autofix (live s)))
                     (overage_charges (live s));
                  durable := durable s |} = s) as Heta.
  { intros [[] ?]. done. }
  destruct (Z.lt_ge_cases 0 r) as [Hr|Hr].
  2:{ rewrite cover_remainder_none by done. intros [= <- <-].
      split; [|done]. eexists _, _. by rewrite Heta. }
  destruct (get_primary_subscription_stmt user (live s)) as [[i sub]|] eqn:Hs.
  2:{ rewrite cover_remainder_exhausted by (by rewrite ?Hs).
      intros [= <- <-]. split; [|by intros ? [= <-]].
      eexists _, _. by rewrite Heta. }
  destruct (plan_is_free (live s) sub) eqn:Hfree.
  - rewrite (cover_remainder_free _ _ _ _ _ _ _ _ _ _ Hr Hs Hfree).
    destruct (Z.lt_ge_cases (autofix_consumed env user (live s))
                (autofix_limit_of config sub)) as [Hc|Hc].
    + destruct (_apply_autofix_grant config env sub user s Hc)
        as (record & rows & j & -> & _).
      intros [= <- <-]. split; [|done].
      exists rows, (overage_charges (live s)). by destruct s as [[] ?].
    + rewrite _apply_autofix_limit by done. intros [= <- <-].
      split; [|by intros ? [= <-]]. eexists _, _. by rewrite Heta.
  - destruct (UserSubscription.payg_enabled sub && allow_payg) eqn:Hp.
    + rewrite (cover_remainder_payg _ _ _ _ _ _ _ _ _ _ Hr Hs Hfree Hp).
      intros [= <- <-]. split; [|done].
      eexists (allowance_daily_autofix (live s)), _. by destruct s as [[] ?].
    + rewrite cover_remainder_exhausted by (by rewrite ?Hs).
      intros [= <- <-]. split; [|by intros ? [= <-]].
      eexists _, _. by rewrite Heta.
Qed.

Lemma consume_hit config env user ty amount action cs action_hash allow_payg
    s existing :
  0 < amount →
  consume_existing_stmt action_hash (live s) = Some existing →
  consume config env user ty amount action cs action_hash allow_payg s
  = (Ok {| event := existing;
           total_deducted := ConsumptionEvent.amount existing;
           payg_triggered := None; autofix_grant := None |}, s).
Proof.
  intros Ha He. unfold consume.
  rewrite (proj2 (Z.leb_gt amount 0)) by done.
  by rewrite bind_run, find_event_run, He.
Qed.

Lemma consume_miss config env user ty amount action cs action_hash allow_payg
    s r d last s1 :
  0 < amount →
  consume_existing_stmt action_hash (live s) = None →
  drain_pools env user ty amount s = (Ok (r, d, last), s1) →
  consume config env user ty amount action cs action_hash allow_payg s
  = match cover_remainder config env user ty r action allow_payg s1 with
    | (Ok (autofix_record, payg_charge), s2) =>
        let ev := new_event env user last ty amount action cs action_hash
                    autofix_record payg_charge in
        let t := set_consumption_events (live s2)
                   (consumption_events (live s2) ++ [ev]) in
        (Ok {| event := ev; total_deducted := d;
               payg_triggered := payg_charge;
               autofix_grant := autofix_record |},
         {| live := t; durable := t |})
    | (Raise e, s2) => (Raise e, s2)
    end.
Proof.
  intros Ha He Hd. unfold consume.
  rewrite (proj2 (Z.leb_gt amount 0)) by done.
  rewrite bind_run, find_event_run, He.
  rewrite bind_run, Hd. rewrite bind_run.
  by destruct (cover_remainder _ _ _ _ _ _ _ _) as [[[??]|?] ?].
Qed.

(** ** Idempotency *)

Lemma consume_existing_stmt_Some h t :
  h ≠ "" →
  (∃ e, e ∈ consumption_events t ∧ ConsumptionEvent.action_hash e = h) →
  ∃ existing,
    consume_existing_stmt (Some h) t = Some existing
    ∧ existing ∈ consumption_events t
    ∧ ConsumptionEvent.action_hash existing = h.
Proof.
  intros Hh (e & He & Hhash). unfold consume_existing_stmt.
  rewrite truthy_str_Some by done.
  assert (e ∈ events_with_hash h t) as Hin.
  { apply elem_of_List_filter. split; [done|]. by apply String.eqb_eq. }
  destruct (events_with_hash h t) as [|e0 l] eqn:Hl;
    [by apply elem_of_nil in Hin|].
  exists e0. split; [done|].
  assert (e0 ∈ events_with_hash h t) as Hin0 by (rewrite Hl; by left).
  apply elem_of_List_filter in Hin0 as [? ?%String.eqb_eq]. done.
Qed.

(** After a successful call the supplied hash names the returned event, and
    names no other event if it named at most one before. *)
Lemma consume_records_hash config env user ty amount action cs h allow_payg
    s r s1 :
  0 < amount → h ≠ "" →
  consume config env user ty amount action cs (Some h) allow_payg s
  = (Ok r, s1) →
  consume_existing_stmt (Some h) (live s1) = Some (event r)
  ∧ ((length (events_with_hash h (live s)) ≤ 1)%nat →
     length (events_with_hash h (live s1)) = 1%nat).
Proof.
  intros Ha Hh Hrun.
  destruct (consume_existing_stmt (Some h) (live s)) as [ex|] eqn:Hex.
  - rewrite (consume_hit _ _ _ _ _ _ _ _ _ _ _ Ha Hex) in Hrun.
    injection Hrun as <- <-. split; [done|].
    unfold consume_existing_stmt in Hex. rewrite truthy_str_Some in Hex by done.
    destruct (events_with_hash h (live s)) as [|? [|??]]; simpl in *;
      [done|done|lia].
  - destruct (drain_pools_run env user ty amount s)
      as (r1 & d1 & bs' & r0 & d & last & als' & _ & _ & Hd).
    rewrite (consume_miss _ _ _ _ _ _ _ _ _ _ _ _ _ _ Ha Hex Hd) in Hrun.
    destruct (cover_remainder _ _ _ _ _ _ _ _) as [[[af pc]|e] s2] eqn:Hc;
      [|done].
    apply cover_remainder_frame in Hc as [(rows & charges & ->) _].
    injection Hrun as <- <-.
    assert ((h =? "")%string = false) as Hne by (by apply String.eqb_neq).
    unfold consume_existing_stmt, events_with_hash, truthy_str in *.
    simpl. rewrite Hne in *.
    rewrite List.filter_app. simpl. rewrite Hne, String.eqb_refl.
    destruct (List.filter _ (consumption_events (live s))); [|done].
    done.
Qed.

(** C1. A [consume] call whose supplied [action_hash] already names an
    event returns that event and leaves the session exactly as it was: no
    bucket or allowance is charged and no event is added.  Hence, once a
    call has succeeded, any number of repetitions of it return the event of
    the first call and change nothing further, and the hash names exactly
    one event. *)
Theorem consume_is_idempotent config user ty amount action cs h allow_payg :
  0 < amount → h ≠ "" →
  (∀ env s,
     (∃ e, e ∈ consumption_events (live s)
           ∧ ConsumptionEvent.action_hash e = h) →
     ∃ existing,
       existing ∈ consumption_events (live s)
       ∧ ConsumptionEvent.action_hash existing = h
       ∧ consume config env user ty amount action cs (Some h) allow_payg s
         = (Ok {| event := existing;
                  total_deducted := ConsumptionEvent.amount existing;
                  payg_triggered := None; autofix_grant := None |}, s))
  ∧ (∀ env envs s r s1,
       consume config env user ty amount action cs (Some h) allow_payg s
       = (Ok r, s1) →
       repeat_consume config (env :: envs) user ty amount action cs (Some h)
         allow_payg s = s1
       ∧ (∀ env',
            consume config env' user ty amount action cs (Some h) allow_payg
              s1
            = (Ok {| event := event r;
                     total_deducted := ConsumptionEvent.amount (event r);
                     payg_triggered := None; autofix_grant := None |}, s1))
       ∧ ((length (events_with_hash h (live s)) ≤ 1)%nat →
          length (events_with_hash h (live s1)) = 1%nat)).
Proof.
  intros Ha Hh. split.
  - intros env s Hex.
    destruct (consume_existing_stmt_Some h (live s) Hh Hex)
      as (existing & Hq & Hin & Hhash).
    exists existing. split_and!; [done..|]. by apply consume_hit.
  - intros env envs s r s1 Hrun.
    destruct (consume_records_hash _ _ _ _ _ _ _ _ _ _ _ _ Ha Hh Hrun)
      as [Hq Hone].
    assert (∀ env',
              consume config env' user ty amount action cs (Some h)
                allow_payg s1
              = (Ok {| event := event r;
                       total_deducted := ConsumptionEvent.amount (event r);
                       payg_triggered := None; autofix_grant := None |}, s1))
      as Hagain by (intros env'; by apply consume_hit).
    split_and!; [|done|done].
    unfold repeat_consume. simpl. unfold exec at 2. rewrite Hrun. simpl.
    induction envs as [|env' envs IH]; simpl; [done|].
    unfold exec at 2. by rewrite Hagain.
Qed.

(** ** Balances stay within bounds *)

Lemma Forall_Forall2_step {A} (P : A → Prop) (R : A → A → Prop)
    (l k : list A) :
  (∀ x y, P x → R x y → P y) → Forall P l → Forall2 R l k → Forall P k.
Proof.
  intros HPR HP HR. induction HR; inversion HP; subst; constructor; eauto.
Qed.

Lemma Forall2_diag_refl {A} (R : A → A → Prop) (l : list A) :
  (∀ x, R x x) → Forall2 R l l.
Proof. intros HR. apply Forall_Forall2_diag, Forall_forall. auto. Qed.

Lemma ledger_ok_steps t t' :
  ledger_ok t →
  Forall2 bucket_step (rollover_buckets t) (rollover_buckets t') →
  Forall2 allowance_step (allowances t) (allowances t') →
  ledger_ok t'.
Proof.
  intros [Ha Hb] Hbs Has. split.
  - eapply Forall_Forall2_step; [|exact Ha|exact Has].
    intros a a' Hle (E & ? & ?).
    assert (Allowance.total a' = Allowance.total a) as ->
      by (rewrite E; by destruct a).
    lia.
  - eapply Forall_Forall2_step; [|exact Hb|exact Hbs].
    intros b b' Hle (E & ? & ?). lia.
Qed.

(** Whatever it returns, a [consume] call only lowers [remain] and raises
    [used], within the bounds of [bucket_step] and [allowance_step], and
    either commits the tables it leaves or commits nothing. *)
Lemma consume_steps config env user ty amount action cs action_hash
    allow_payg s res s' :
  consume config env user ty amount action cs action_hash allow_payg s
  = (res, s') →
  Forall2 bucket_step (rollover_buckets (live s)) (rollover_buckets (live s'))
  ∧ Forall2 allowance_step (allowances (live s)) (allowances (live s'))
  ∧ (durable s' = durable s ∨ durable s' = live s').
Proof.
  intros Hrun.
  assert (Forall2 bucket_step (rollover_buckets (live s))
            (rollover_buckets (live s))
          ∧ Forall2 allowance_step (allowances (live s)) (allowances (live s))
          ∧ (durable s = durable s ∨ durable s = live s)) as Hsame.
  { split_and!; [apply Forall2_diag_refl, bucket_step_refl
                |apply Forall2_diag_refl, allowance_step_refl|by left]. }
  destruct (Z.lt_ge_cases 0 amount) as [Ha|Ha].
  2:{ unfold consume in Hrun. rewrite (proj2 (Z.leb_le amount 0)) in Hrun
        by done.
      by injection Hrun as <- <-. }
  destruct (consume_existing_stmt action_hash (live s)) as [ex|] eqn:Hex.
  { rewrite (consume_hit _ _ _ _ _ _ _ _ _ _ _ Ha Hex) in Hrun.
    by injection Hrun as <- <-. }
  destruct (drain_pools_run env user ty amount s)
    as (r1 & d1 & bs' & r0 & d & last & als' & Hb & Hal & Hd).
  rewrite (consume_miss _ _ _ _ _ _ _ _ _ _ _ _ _ _ Ha Hex Hd) in Hrun.
  apply drain_buckets_Forall2 in Hb. apply drain_allowances_Forall2 in Hal.
  destruct (cover_remainder _ _ _ _ _ _ _ _) as [[[af pc]|e] s2] eqn:Hc.
  - apply cover_remainder_frame in Hc as [(rows & charges & ->) _].
    injection Hrun as <- <-. simpl. split_and!; [done|done|by right].
  - apply cover_remainder_frame in Hc as [(rows & charges & ->) _].
    injection Hrun as <- <-. simpl. split_and!; [done|done|by left].
Qed.

(** C2. Over any sequence of [consume] calls issued one after the other,
    whatever each returns, [used ≤ total] holds on every allowance and
    [remain ≥ 0] on every bucket, provided they held at the start: every
    bucket keeps [0 ≤ remain' ≤ remain] and every allowance
    [used ≤ used' ≤ total], and no other field of either changes. *)
Theorem consume_keeps_balances_in_bounds config (calls : list ConsumeCall)
    (s : Session) :
  ledger_ok (live s) →
  ledger_ok (live (consume_calls config calls s))
  ∧ Forall2 bucket_step (rollover_buckets (live s))
      (rollover_buckets (live (consume_calls config calls s)))
  ∧ Forall2 allowance_step (allowances (live s))
      (allowances (live (consume_calls config calls s)))
  ∧ (ledger_ok (durable s) →
     ledger_ok (durable (consume_calls config calls s))).
Proof.
  revert s. induction calls as [|c calls IH]; intros s Hok.
  - split_and!; [done|apply Forall2_diag_refl, bucket_step_refl
                |apply Forall2_diag_refl, allowance_step_refl|done].
  - change (consume_calls config (c :: calls) s)
      with (consume_calls config calls (exec (consume_call config c) s)).
    unfold exec.
    destruct (consume_call config c s) as [res s1] eqn:Hrun. simpl.
    apply consume_steps in Hrun as (Hb & Ha & Hd).
    assert (ledger_ok (live s1)) as Hok1 by (by eapply ledger_ok_steps).
    destruct (IH s1 Hok1) as (Hok' & Hb' & Ha' & Hd').
    split_and!; [done| | |].
    + eapply Forall2_trans'; [apply bucket_step_trans|done..].
    + eapply Forall2_trans'; [apply allowance_step_trans|done..].
    + intros Hdur. apply Hd'. destruct Hd as [-> | ->]; done.
Qed.

(** ** How much the draining steps take *)

Lemma sumZ_Permutation (l k : list Z) : l ≡ₚ k → sumZ l = sumZ k.
Proof. induction 1; simpl; lia. Qed.

Lemma sumZ_nonneg (l : list Z) : Forall (λ x, 0 ≤ x) l → 0 ≤ sumZ l.
Proof. induction 1; simpl; lia. Qed.

Lemma sumZ_map_ext_in {A} (f g : A → Z) (l : list A) :
  (∀ x, x ∈ l → f x = g x) → sumZ (map f l) = sumZ (map g l).
Proof.
  induction l as [|x l IH]; intros H; simpl; [done|].
  rewrite (H x) by (by left). rewrite IH; [done|].
  intros y Hy. apply H. by right.
Qed.

Lemma bucket_take_nonneg bs ixs : 0 ≤ sumZ (map (bucket_take bs) ixs).
Proof.
  apply sumZ_nonneg, Forall_forall. intros x [i [-> _]]%list_elem_of_fmap.
  unfold bucket_take. destruct (bs !! i); lia.
Qed.

Lemma allowance_take_nonneg als ixs : 0 ≤ sumZ (map (allowance_take als) ixs).
Proof.
  apply sumZ_nonneg, Forall_forall. intros x [i [-> _]]%list_elem_of_fmap.
  unfold allowance_take. destruct (als !! i); lia.
Qed.

Lemma drain_buckets_remaining ixs r d bs r' d' bs' :
  drain_buckets ixs r d bs = (r', d', bs') → NoDup ixs → 0 ≤ r →
  r' = Z.max 0 (r - sumZ (map (bucket_take bs) ixs)).
Proof.
  revert r d bs. induction ixs as [|i ixs IH]; intros r d bs; simpl.
  - intros [= <- <- <-] _ Hr. lia.
  - intros Hrun [Hi Hnd]%NoDup_cons Hr.
    pose proof (bucket_take_nonneg bs ixs) as Hsum.
    destruct (Z.leb_spec r 0).
    { injection Hrun as <- <- <-. unfold bucket_take at 1.
      destruct (bs !! i); lia. }
    unfold bucket_take at 1.
    destruct (bs !! i) as [b|] eqn:Hb;
      [|rewrite (IH _ _ _ Hrun); [lia|done|lia]].
    destruct (Z.leb_spec (RolloverBucket.remain b) 0);
      [rewrite (IH _ _ _ Hrun); [lia|done|lia]|].
    rewrite (IH _ _ _ Hrun) by (done || lia).
    rewrite (sumZ_map_ext_in _ (bucket_take bs)).
    2:{ intros j Hj. unfold bucket_take.
        rewrite list_lookup_insert_ne; [done|]. by intros ->. }
    lia.
Qed.

Lemma drain_allowances_remaining ixs r d last als r' d' last' als' :
  drain_allowances ixs r d last als = (r', d', last', als') →
  NoDup ixs → 0 ≤ r →
  r' = Z.max 0 (r - sumZ (map (allowance_take als) ixs)).
Proof.
  revert r d last als.
  induction ixs as [|i ixs IH]; intros r d last als; simpl.
  - intros [= <- <- <- <-] _ Hr. lia.
  - intros Hrun [Hi Hnd]%NoDup_cons Hr.
    pose proof (allowance_take_nonneg als ixs) as Hsum.
    destruct (Z.leb_spec r 0).
    { injection Hrun as <- <- <- <-. unfold allowance_take at 1.
      destruct (als !! i); lia. }
    unfold allowance_take at 1.
    destruct (als !! i) as [a|] eqn:Ha;
      [|rewrite (IH _ _ _ _ Hrun); [lia|done|lia]].
    destruct (Z.leb_spec (Z.max (Allowance.total a - Allowance.used a) 0) 0);
      [rewrite (IH _ _ _ _ Hrun); [lia|done|lia]|].
    rewrite (IH _ _ _ _ Hrun) by (done || lia).
    rewrite (sumZ_map_ext_in _ (allowance_take als)).
    2:{ intros j Hj. unfold allowance_take.
        rewrite list_lookup_insert_ne; [done|]. by intros ->. }
    lia.
Qed.

Lemma NoDup_iter_rollover_buckets env user ty t :
  NoDup (_iter_rollover_buckets_stmt env user ty t).*1.
Proof.
  unfold _iter_rollover_buckets_stmt.
  rewrite order_by_Permutation. apply NoDup_select_where_fst.
Qed.

Lemma NoDup_iter_allowances env user ty t :
  NoDup (_iter_allowances_stmt env user ty t).*1.
Proof.
  unfold _iter_allowances_stmt.
  rewrite order_by_Permutation. apply NoDup_select_where_fst.
Qed.

Lemma elem_of_iter_rollover_buckets env user ty t i b :
  (i, b) ∈ _iter_rollover_buckets_stmt env user ty t ↔
  rollover_buckets t !! i = Some b ∧ bucket_eligible env user ty t b = true.
Proof.
  unfold _iter_rollover_buckets_stmt.
  by rewrite elem_of_order_by, elem_of_select_where.
Qed.

Lemma elem_of_iter_allowances env user ty t i a :
  (i, a) ∈ _iter_allowances_stmt env user ty t ↔
  allowances t !! i = Some a ∧ allowance_eligible env user ty a = true.
Proof.
  unfold _iter_allowances_stmt.
  by rewrite elem_of_order_by, elem_of_select_where.
Qed.

(** Over the rows a query returned, what the loop can take is the sum of
    what the rows hold. *)
Lemma bucket_take_rows env user ty t :
  sumZ (map (bucket_take (rollover_buckets t))
          (_iter_rollover_buckets_stmt env user ty t).*1)
  = rollover_usable env user ty t.
Proof.
  unfold rollover_usable.
  rewrite <- select_where_snd.
  change (map RolloverBucket.remain
            (select_where (bucket_eligible env user ty t)
               (rollover_buckets t)).*2)
    with (RolloverBucket.remain
            <$> (select_where (bucket_eligible env user ty t)
                   (rollover_buckets t)).*2).
  rewrite <- list_fmap_compose.
  change (map (bucket_take (rollover_buckets t))
            (_iter_rollover_buckets_stmt env user ty t).*1)
    with (bucket_take (rollover_buckets t)
            <$> (_iter_rollover_buckets_stmt env user ty t).*1).
  rewrite <- list_fmap_compose.
  rewrite (list_fmap_ext (bucket_take (rollover_buckets t) ∘ fst)
             (RolloverBucket.remain ∘ snd)).
  - apply sumZ_Permutation, fmap_Permutation, order_by_Permutation.
  - intros k [i b] Hk. simpl.
    apply list_elem_of_lookup_2, elem_of_iter_rollover_buckets in Hk
      as [Hl He].
    unfold bucket_take. rewrite Hl.
    unfold bucket_eligible in He.
    apply andb_true_iff in He as [_ ?%Z.ltb_lt]. lia.
Qed.

Lemma allowance_take_rows env user ty t :
  sumZ (map (allowance_take (allowances t))
          (_iter_allowances_stmt env user ty t).*1)
  = allowance_balance env user ty t.
Proof.
  unfold allowance_balance.
  rewrite <- select_where_snd.
  change (map (λ a, Z.max (Allowance.total a - Allowance.used a) 0)
            (select_where (allowance_eligible env user ty) (allowances t)).*2)
    with ((λ a, Z.max (Allowance.total a - Allowance.used a) 0)
            <$> (select_where (allowance_eligible env user ty)
                   (allowances t)).*2).
  rewrite <- list_fmap_compose.
  change (map (allowance_take (allowances t))
            (_iter_allowances_stmt env user ty t).*1)
    with (allowance_take (allowances t)
            <$> (_iter_allowances_stmt env user ty t).*1).
  rewrite <- list_fmap_compose.
  rewrite (list_fmap_ext (allowance_take (allowances t) ∘ fst)
             ((λ a, Z.max (Allowance.total a - Allowance.used a) 0) ∘ snd)).
  - apply sumZ_Permutation, fmap_Permutation, order_by_Permutation.
  - intros k [i a] Hk. simpl.
    apply list_elem_of_lookup_2, elem_of_iter_allowances in Hk as [Hl He].
    unfold allowance_take. by rewrite Hl.
Qed.

Lemma rollover_usable_nonneg env user ty t : 0 ≤ rollover_usable env user ty t.
Proof. rewrite <- bucket_take_rows. apply bucket_take_nonneg. Qed.

Lemma allowance_balance_nonneg env user ty t :
  0 ≤ allowance_balance env user ty t.
Proof. rewrite <- allowance_take_rows. apply allowance_take_nonneg. Qed.

(** The remainder and the amount deducted, from the balances before the
    call. *)
Lemma drain_pools_remaining env user ty amount s r d last s1 :
  drain_pools env user ty amount s = (Ok (r, d, last), s1) → 0 ≤ amount →
  r = Z.max 0 (amount - pools_available env user ty (live s))
  ∧ d = Z.min amount (pools_available env user ty (live s))
  ∧ (amount ≤ rollover_usable env user ty (live s) →
     allowances (live s1) = allowances (live s)).
Proof.
  intros Hrun Ha.
  destruct (drain_pools_run env user ty amount s)
    as (r1 & d1 & bs' & r0 & d0 & last0 & als' & Hb & Hal & Hd).
  rewrite Hd in Hrun. injection Hrun as -> -> -> <-.
  pose proof (drain_buckets_amounts _ _ _ _ _ _ _ Hb) as (? & ? & ? & _).
  pose proof (drain_allowances_amounts _ _ _ _ _ _ _ _ _ Hal)
    as (? & ? & ? & _).
  pose proof (drain_buckets_remaining _ _ _ _ _ _ _ Hb
                (NoDup_iter_rollover_buckets _ _ _ _) Ha) as Hr1.
  rewrite bucket_take_rows in Hr1.
  pose proof (drain_allowances_remaining _ _ _ _ _ _ _ _ _ Hal
                (NoDup_iter_allowances _ _ _ _) ltac:(lia)) as Hr.
  rewrite allowance_take_rows in Hr.
  pose proof (rollover_usable_nonneg env user ty (live s)).
  pose proof (allowance_balance_nonneg env user ty (live s)).
  unfold pools_available. split_and!; [lia|lia|].
  intros Hcover. simpl.
  rewrite drain_allowances_nonpos in Hal by lia.
  by injection Hal as _ _ _ <-.
Qed.

(** ** What the draining steps leave behind *)

Lemma drain_pools_spec env user ty amount s r d last s1 :
  drain_pools env user ty amount s = (Ok (r, d, last), s1) →
  ∃ bs' als',
    s1 = {| live := set_allowances (set_rollover_buckets (live s) bs') als';
            durable := durable s |}
    ∧ Forall2 bucket_step (rollover_buckets (live s)) bs'
    ∧ Forall2 allowance_step (allowances (live s)) als'
    ∧ r ≤ amount ∧ (0 ≤ amount → 0 ≤ r) ∧ d = amount - r
    ∧ pool_balance (live s1) = pool_balance (live s) - d
    ∧ (0 < r →
       ∀ i a a',
         (i, a) ∈ _iter_allowances_stmt env user ty (live s) →
         als' !! i = Some a' → Allowance.total a' - Allowance.used a' ≤ 0)
    ∧ (0 < r ∨ als' ≠ allowances (live s) →
       ∀ i b b',
         (i, b) ∈ _iter_rollover_buckets_stmt env user ty (live s) →
         bs' !! i = Some b' → RolloverBucket.remain b' ≤ 0).
Proof.
  intros Hrun.
  destruct (drain_pools_run env user ty amount s)
    as (r1 & d1 & bs' & r0 & d0 & last0 & als' & Hb & Ha & Hd).
  rewrite Hd in Hrun. injection Hrun as -> -> -> <-.
  exists bs', als'.
  pose proof (drain_buckets_amounts _ _ _ _ _ _ _ Hb) as (? & ? & ? & ?).
  pose proof (drain_allowances_amounts _ _ _ _ _ _ _ _ _ Ha)
    as (? & ? & ? & ?).
  split_and!; try done.
  - by eapply drain_buckets_Forall2.
  - by eapply drain_allowances_Forall2.
  - lia.
  - lia.
  - lia.
  - unfold pool_balance. simpl. lia.
  - intros Hr i a a' Hin Ha'.
    eapply drain_allowances_drained; [exact Ha|done| |done].
    apply list_elem_of_fmap. by exists (i, a).
  - intros Hr i b b' Hin Hb'.
    eapply drain_buckets_drained; [exact Hb| | |done].
    + destruct Hr as [Hr|Hne]; [lia|].
      destruct (Z.lt_ge_cases 0 r1) as [|Hle]; [done|].
      rewrite drain_allowances_nonpos in Ha by done.
      injection Ha as _ _ _ <-. done.
    + apply list_elem_of_fmap. by exists (i, b).
Qed.

(** With an unmet remainder and no cover, [consume] raises and returns the
    session of the draining steps. *)
Lemma consume_exhausted_run config env user ty amount
    action cs action_hash allow_payg s remaining total_deducted last s1 :
  0 < amount →
  consume_existing_stmt action_hash (live s) = None →
  drain_pools env user ty amount s
  = (Ok (remaining, total_deducted, last), s1) →
  0 < remaining →
  match get_primary_subscription_stmt user (live s) with
  | None => True
  | Some (_, subscription) =>
      plan_is_free (live s) subscription = false
      ∧ UserSubscription.payg_enabled subscription && allow_payg = false
  end →
  consume config env user ty amount action cs action_hash allow_payg s
  = (Raise AllowanceExhaustedError, s1)
  ∧ total_deducted = amount - remaining
  ∧ pool_balance (live s1) = pool_balance (live s) - total_deducted
  ∧ Forall2 bucket_step (rollover_buckets (live s))
      (rollover_buckets (live s1))
  ∧ Forall2 allowance_step (allowances (live s)) (allowances (live s1))
  ∧ consumption_events (live s1) = consumption_events (live s)
  ∧ overage_charges (live s1) = overage_charges (live s)
  ∧ allowance_daily_autofix (live s1) = allowance_daily_autofix (live s)
  ∧ durable s1 = durable s.
Proof.
  intros Ha Hex Hd Hr Hsub.
  rewrite (consume_miss _ _ _ _ _ _ _ _ _ _ _ _ _ _ Ha Hex Hd).
  destruct (drain_pools_spec _ _ _ _ _ _ _ _ _ Hd)
    as (bs' & als' & -> & Hb & Hal & ? & ? & ? & Hbal & _).
  rewrite cover_remainder_exhausted; [|done|exact Hsub].
  split_and!; done.
Qed.

(** ** Retrying a failed call *)

Lemma not_expired_earlier e now now' :
  now ≤ now' → not_expired e now' = true → not_expired e now = true.
Proof.
  intros Hle. destruct e as [e|]; simpl; [|done].
  rewrite !Z.ltb_lt. lia.
Qed.

Lemma bucket_has_type_steps t t' ty b :
  Forall2 allowance_step (allowances t) (allowances t') →
  bucket_has_type t' ty b = bucket_has_type t ty b.
Proof.
  unfold bucket_has_type. intros H.
  induction H as [|a a' l l' (E & _) _ IH]; simpl; [done|].
  rewrite IH. f_equal. rewrite E. by destruct a.
Qed.

Lemma bucket_eligible_earlier env env' user ty t t' b b' :
  utcnow env ≤ utcnow env' →
  Forall2 allowance_step (allowances t) (allowances t') →
  bucket_step b b' →
  bucket_eligible env' user ty t' b' = true →
  bucket_eligible env user ty t b = true.
Proof.
  intros Hnow Hal (E & Hle & _). unfold bucket_eligible.
  rewrite (bucket_has_type_steps t t') by done.
  rewrite !andb_true_iff, !Z.ltb_lt.
  intros [[[Hu Ht] He] Hr].
  rewrite E in Hu, Ht, He. destruct b; simpl in *.
  split_and!; [done|done|by eapply not_expired_earlier|lia].
Qed.

Lemma allowance_eligible_earlier env env' user ty a a' :
  utcnow env ≤ utcnow env' →
  allowance_step a a' →
  allowance_eligible env' user ty a' = true →
  allowance_eligible env user ty a = true.
Proof.
  intros Hnow (E & _). unfold allowance_eligible.
  rewrite !andb_true_iff. intros [[Hu Ht] He].
  rewrite E in Hu, Ht, He. destruct a; simpl in *.
  split_and!; [done|done|by eapply not_expired_earlier].
Qed.

(** Once the draining steps have left a remainder, running them again, at
    the same time or later, finds nothing to deduct. *)
Lemma drain_pools_again env env' user ty amount amount' s r d last s1 :
  drain_pools env user ty amount s = (Ok (r, d, last), s1) →
  0 < r → utcnow env ≤ utcnow env' →
  drain_pools env' user ty amount' s1 = (Ok (amount', 0, None), s1).
Proof.
  intros Hd Hr Hnow.
  destruct (drain_pools_spec _ _ _ _ _ _ _ _ _ Hd)
    as (bs' & als' & -> & Hb & Hal & _ & _ & _ & _ & Hda & Hdb).
  specialize (Hda Hr). specialize (Hdb (or_introl Hr)).
  destruct (drain_pools_run env' user ty amount'
              {| live := set_allowances
                           (set_rollover_buckets (live s) bs') als';
                 durable := durable s |})
    as (r1 & d1 & bs2 & r2 & d2 & last2 & als2 & Hb2 & Ha2 & ->).
  simpl in Hb2, Ha2.
  rewrite drain_buckets_empty in Hb2.
  2:{ intros j b' Hj Hl.
      apply list_elem_of_fmap in Hj as ([j' b2] & -> & Hin). simpl in *.
      apply elem_of_iter_rollover_buckets in Hin as [Hl2 Hel]. simpl in *.
      assert (b2 = b') as -> by congruence.
      destruct (Forall2_lookup_r _ _ _ _ _ Hb Hl) as (b & Hlb & Hstep).
      eapply (Hdb j' b b'); [|done].
      apply elem_of_iter_rollover_buckets. split; [done|].
      eapply bucket_eligible_earlier; [done| |done|done]. done. }
  injection Hb2 as <- <- <-.
  rewrite drain_allowances_empty in Ha2.
  2:{ intros j a' Hj Hl.
      apply list_elem_of_fmap in Hj as ([j' a2] & -> & Hin). simpl in *.
      apply elem_of_iter_allowances in Hin as [Hl2 Hel]. simpl in *.
      assert (a2 = a') as -> by congruence.
      destruct (Forall2_lookup_r _ _ _ _ _ Hal Hl) as (a & Hla & Hstep).
      eapply (Hda j' a a'); [|done].
      apply elem_of_iter_allowances. split; [done|].
      by eapply allowance_eligible_earlier. }
  injection Ha2 as <- <- <- <-. done.
Qed.

Lemma autofix_consumed_same_day env env' user t :
  date_key_of env' = date_key_of env →
  autofix_consumed env' user t = autofix_consumed env user t.
Proof.
  intros Hday. unfold autofix_consumed, _apply_autofix_stmt. by rewrite Hday.
Qed.

(** C4, the claim as stated fails.  The failed call keeps what it has
    deducted and logs no event, so its [action_hash] is not recorded and
    does not protect the retry.  Alice holds 150 build credits and asks
    for 200: the call fails with [AllowanceExhaustedError] and her 150
    credits are gone.  She buys the 500 points of the starter package,
    which commits the session, and the call is retried with the same
    [action_hash]: it finds no event, succeeds and deducts 200.  The one
    action of 200 has cost her 350 credits, where the single call made
    after the recharge costs 200 and the failed call alone 150. *)
Lemma retry_after_a_committed_failure_charges_twice :
  ∃ s1 tx d2 r s3,
    consume DEFAULT_CONFIG (sample_env 1000) alice BC 200 "build" 0
      (Some "action-1") true bucket_and_allowance
    = (Raise AllowanceExhaustedError, s1)
    ∧ pool_balance (live bucket_and_allowance) = 150
    ∧ pool_balance (live s1) = 0
    ∧ consumption_events (live s1) = []
    ∧ PointsService.recharge (sample_env 2000) alice "starter"
        {| billing_db := s1; point_transactions := [] |}
      = (Done tx, d2)
    ∧ pool_balance (live (billing_db d2)) = 500
    ∧ durable (billing_db d2) = live (billing_db d2)
    ∧ consume DEFAULT_CONFIG (sample_env 3000) alice BC 200 "build" 0
        (Some "action-1") true (billing_db d2)
      = (Ok r, s3)
    ∧ total_deducted r = 200
    ∧ pool_balance (live s3) = 150 + 500 - 350
    ∧ ∃ tx' d2' r' s3',
        PointsService.recharge (sample_env 2000) alice "starter"
          {| billing_db := bucket_and_allowance; point_transactions := [] |}
        = (Done tx', d2')
        ∧ consume DEFAULT_CONFIG (sample_env 3000) alice BC 200 "build" 0
            (Some "action-1") true (billing_db d2')
          = (Ok r', s3')
        ∧ pool_balance (live s3') = 150 + 500 - 200.
Proof.
  eexists _, _, _, _, _.
  split; [vm_compute; reflexivity|].
  split; [vm_compute; reflexivity|].
  split; [vm_compute; reflexivity|].
  split; [vm_compute; reflexivity|].
  split; [vm_compute; reflexivity|].
  split; [vm_compute; reflexivity|].
  split; [vm_compute; reflexivity|].
  split; [vm_compute; reflexivity|].
  split; [vm_compute; reflexivity|].
  split; [vm_compute; reflexivity|].
  eexists _, _, _, _.
  split; [vm_compute; reflexivity|].
  split; [vm_compute; reflexivity|].
  vm_compute; reflexivity.
Qed.

(** C4, amended. After a [consume] call has failed with
    [AllowanceExhaustedError] or [AutoFixLimitExceeded], the same call
    issued again on the session as the failed call left it, at the same
    time or later, deducts nothing more: buckets, allowances and
    overage charges are left exactly as the failed call left them.  After
    [AllowanceExhaustedError], or on the same day, the retry fails in the
    same way and changes nothing at all, so that the failed call and its
    retry together have the effect of the failed call alone.  If the caller
    rolls the session back instead, it is back at the last commit whether
    or not the failed call was ever made. *)
Theorem consume_retry_never_double_charges config env env' user ty amount
    action cs action_hash allow_payg s e s1 :
  consume config env user ty amount action cs action_hash allow_payg s
  = (Raise e, s1) →
  e = AllowanceExhaustedError ∨ e = AutoFixLimitExceeded →
  utcnow env ≤ utcnow env' →
  (∀ res2 s2,
     consume config env' user ty amount action cs action_hash allow_payg s1
     = (res2, s2) →
     rollover_buckets (live s2) = rollover_buckets (live s1)
     ∧ allowances (live s2) = allowances (live s1)
     ∧ overage_charges (live s2) = overage_charges (live s1)
     ∧ (e = AllowanceExhaustedError ∨ date_key_of env' = date_key_of env →
        res2 = Raise e ∧ s2 = s1))
  ∧ exec db_rollback s1 = exec db_rollback s.
Proof.
  intros Hrun He Hnow.
  destruct (Z.lt_ge_cases 0 amount) as [Ha|Ha].
  2:{ unfold consume in Hrun.
      rewrite (proj2 (Z.leb_le amount 0)) in Hrun by done.
      injection Hrun as <- _. by destruct He. }
  destruct (consume_existing_stmt action_hash (live s)) as [ex|] eqn:Hex.
  { by rewrite (consume_hit _ _ _ _ _ _ _ _ _ _ _ Ha Hex) in Hrun. }
  destruct (drain_pools_run env user ty amount s)
    as (r1 & d1 & bs' & r & d & last & als' & _ & _ & Hd).
  rewrite (consume_miss _ _ _ _ _ _ _ _ _ _ _ _ _ _ Ha Hex Hd) in Hrun.
  destruct (Z.lt_ge_cases 0 r) as [Hr|Hr].
  2:{ by rewrite cover_remainder_none in Hrun by done. }
  pose proof (drain_pools_again env env' user ty amount amount _ _ _ _ _
                Hd Hr Hnow) as Hd'.
  set (sd := {| live := set_allowances
                          (set_rollover_buckets (live s) bs') als';
                durable := durable s |}) in *.
  assert (consume_existing_stmt action_hash (live sd) = None) as Hex'
    by exact Hex.
  assert (∀ res2 s2,
            consume config env' user ty amount action cs action_hash
              allow_payg sd = (res2, s2) →
            cover_remainder config env' user ty amount action allow_payg sd
            = (Raise e, sd) →
            res2 = Raise e ∧ s2 = sd) as Hsame.
  { intros res2 s2 Hrun2 Hc2.
    rewrite (consume_miss _ _ _ _ _ _ _ _ _ _ _ _ _ _ Ha Hex' Hd'), Hc2
      in Hrun2.
    by injection Hrun2 as <- <-. }
  destruct (get_primary_subscription_stmt user (live sd)) as [[i sub]|]
    eqn:Hsub.
  2:{ rewrite cover_remainder_exhausted in Hrun by (by rewrite ?Hsub).
      injection Hrun as <- <-. split; [|done].
      intros res2 s2 Hrun2.
      destruct (Hsame res2 s2 Hrun2) as [-> ->];
        [by rewrite cover_remainder_exhausted by (by rewrite ?Hsub)|].
      done. }
  destruct (plan_is_free (live sd) sub) eqn:Hfree.
  - rewrite (cover_remainder_free _ _ _ _ _ _ _ _ _ _ Hr Hsub Hfree) in Hrun.
    destruct (Z.lt_ge_cases (autofix_consumed env user (live sd))
                (autofix_limit_of config sub)) as [Hc|Hc].
    { destruct (_apply_autofix_grant config env sub user sd Hc)
        as (record & rows & j & Hg & _).
      by rewrite Hg in Hrun. }
    rewrite _apply_autofix_limit in Hrun by done.
    injection Hrun as <- <-. split; [|done].
    intros res2 s2 Hrun2.
    destruct (Z.lt_ge_cases (autofix_consumed env' user (live sd))
                (autofix_limit_of config sub)) as [Hc'|Hc'].
    + rewrite (consume_miss _ _ _ _ _ _ _ _ _ _ _ _ _ _ Ha Hex' Hd')
        in Hrun2.
      rewrite (cover_remainder_free _ _ _ _ _ _ _ _ _ _ Ha Hsub Hfree)
        in Hrun2.
      destruct (_apply_autofix_grant config env' sub user sd Hc')
        as (record & rows & j & Hg & _).
      rewrite Hg in Hrun2. injection Hrun2 as <- <-. simpl.
      split_and!; [done..|].
      intros [?|Hday]; [done|].
      rewrite (autofix_consumed_same_day _ _ _ _ Hday) in Hc'. lia.
    + destruct (Hsame res2 s2 Hrun2) as [-> ->]; [|done].
      rewrite (cover_remainder_free _ _ _ _ _ _ _ _ _ _ Ha Hsub Hfree).
      by rewrite _apply_autofix_limit by done.
  - destruct (UserSubscription.payg_enabled sub && allow_payg) eqn:Hp.
    { by rewrite (cover_remainder_payg _ _ _ _ _ _ _ _ _ _ Hr Hsub Hfree Hp)
        in Hrun. }
    rewrite cover_remainder_exhausted in Hrun by (by rewrite ?Hsub).
    injection Hrun as <- <-. split; [|done].
    intros res2 s2 Hrun2.
    destruct (Hsame res2 s2 Hrun2) as [-> ->];
      [by rewrite cover_remainder_exhausted by (by rewrite ?Hsub)|].
    done.
Qed.

(** ** Order of consumption *)

Section OrderBy.
Context {A : Type} (leb : A → A → bool).
Hypothesis leb_total : ∀ x y, leb x y = true ∨ leb y x = true.
Hypothesis leb_trans :
  ∀ x y z, leb x y = true → leb y z = true → leb x z = true.

Lemma insert_by_StronglySorted x l :
  StronglySorted (λ a b, leb a b = true) l →
  StronglySorted (λ a b, leb a b = true) (insert_by leb x l).
Proof.
  induction 1 as [|y l Hl IH Hy]; simpl.
  - repeat constructor.
  - destruct (leb x y) eqn:Hxy.
    + constructor; [by constructor|]. constructor; [done|].
      eapply Forall_impl; [exact Hy|]. intros z Hz. by eapply leb_trans.
    + constructor; [done|].
      rewrite insert_by_Permutation. constructor; [|done].
      destruct (leb_total x y) as [H|H]; [congruence|done].
Qed.

Lemma order_by_StronglySorted l :
  StronglySorted (λ a b, leb a b = true) (order_by leb l).
Proof.
  induction l as [|x l IH]; simpl; [constructor|].
  by apply insert_by_StronglySorted.
Qed.
End OrderBy.

Lemma StronglySorted_lookup_lt {A} (R : A → A → Prop) (l : list A) k1 k2
    x y :
  StronglySorted R l → (k1 < k2)%nat →
  l !! k1 = Some x → l !! k2 = Some y → R x y.
Proof.
  intros Hs. revert k1 k2.
  induction Hs as [|z l Hs IH Hz]; intros k1 k2 Hlt H1 H2; [done|].
  destruct k2 as [|k2]; [lia|]. simpl in H2.
  destruct k1 as [|k1]; simpl in H1.
  - injection H1 as ->.
    eapply Forall_forall; [exact Hz|]. by eapply list_elem_of_lookup_2.
  - eapply (IH k1 k2); [lia|done..].
Qed.

Lemma expiry_then_created_leb_total e1 c1 e2 c2 :
  expiry_then_created_leb e1 c1 e2 c2 = true
  ∨ expiry_then_created_leb e2 c2 e1 c1 = true.
Proof.
  unfold expiry_then_created_leb.
  destruct e1 as [x|], e2 as [y|]; simpl; auto;
    rewrite ?orb_true_iff, ?andb_true_iff, ?Z.ltb_lt, ?Z.eqb_eq, ?Z.leb_le;
    lia.
Qed.

Lemma expiry_then_created_leb_trans e1 c1 e2 c2 e3 c3 :
  expiry_then_created_leb e1 c1 e2 c2 = true →
  expiry_then_created_leb e2 c2 e3 c3 = true →
  expiry_then_created_leb e1 c1 e3 c3 = true.
Proof.
  unfold expiry_then_created_leb.
  destruct e1 as [x|], e2 as [y|], e3 as [z|]; simpl; try done;
    rewrite ?orb_true_iff, ?andb_true_iff, ?Z.ltb_lt, ?Z.eqb_eq, ?Z.leb_le;
    lia.
Qed.

Lemma bucket_leb_before x y : bucket_leb x y = true → bucket_before x.2 y.2.
Proof.
  unfold bucket_leb, bucket_before, expiry_then_created_leb, expires_no_later.
  destruct (RolloverBucket.expires_at x.2) as [e1|],
           (RolloverBucket.expires_at y.2) as [e2|]; simpl; try done;
    rewrite ?orb_true_iff, ?andb_true_iff, ?Z.ltb_lt, ?Z.eqb_eq, ?Z.leb_le.
  - intros H. split; [lia|]. intros [= ->]. lia.
  - intros H. split; [done|]. intros _. done.
Qed.

(** In the first loop a bucket is charged only once every bucket visited
    before it is empty. *)
Lemma drain_buckets_in_order ixs1 i2 ixs2 r d bs r' d' bs' i1 b1 :
  drain_buckets (ixs1 ++ i2 :: ixs2) r d bs = (r', d', bs') →
  i1 ∈ ixs1 → i2 ∉ ixs1 →
  bs !! i1 = Some b1 → 0 ≤ RolloverBucket.remain b1 →
  bs' !! i2 ≠ bs !! i2 →
  ∃ b1', bs' !! i1 = Some b1' ∧ RolloverBucket.remain b1' = 0.
Proof.
  intros Hrun Hi1 Hi2 Hb1 Hpos Hchg.
  rewrite drain_buckets_app in Hrun.
  destruct (drain_buckets ixs1 r d bs) as [[rA dA] bsA] eqn:HA.
  destruct (Z.lt_ge_cases 0 rA) as [HrA|HrA].
  2:{ rewrite drain_buckets_nonpos in Hrun by done.
      injection Hrun as <- <- <-.
      by rewrite (drain_buckets_other _ _ _ _ _ _ _ _ HA Hi2) in Hchg. }
  pose proof (drain_buckets_Forall2 _ _ _ _ _ _ _ HA) as HstepA.
  pose proof (drain_buckets_Forall2 _ _ _ _ _ _ _ Hrun) as Hstep.
  destruct (Forall2_lookup_l _ _ _ _ _ HstepA Hb1) as (bA & HbA & (_ & ? & ?)).
  destruct (Forall2_lookup_l _ _ _ _ _ Hstep HbA) as (b1' & Hb1' & (_ & ? & ?)).
  pose proof (drain_buckets_drained _ _ _ _ _ _ _ _ _ HA HrA Hi1 HbA).
  exists b1'. split; [done|lia].
Qed.

(** The draining steps visit the buckets in order, and reach the allowances
    only after the buckets. *)
Lemma drain_pools_in_order env user ty amount s remaining total_deducted last
    s1 :
  drain_pools env user ty amount s
  = (Ok (remaining, total_deducted, last), s1) →
  (∀ k1 k2 i1 b1 i2 b2,
     (k1 < k2)%nat →
     _iter_rollover_buckets_stmt env user ty (live s) !! k1 = Some (i1, b1) →
     _iter_rollover_buckets_stmt env user ty (live s) !! k2 = Some (i2, b2) →
     bucket_before b1 b2
     ∧ (rollover_buckets (live s1) !! i2 ≠ Some b2 →
        ∃ b1', rollover_buckets (live s1) !! i1 = Some b1'
               ∧ RolloverBucket.remain b1' = 0))
  ∧ (allowances (live s1) ≠ allowances (live s) →
     ∀ i b,
       (i, b) ∈ _iter_rollover_buckets_stmt env user ty (live s) →
       ∃ b', rollover_buckets (live s1) !! i = Some b'
             ∧ RolloverBucket.remain b' = 0)
  ∧ (0 ≤ amount → amount ≤ rollover_usable env user ty (live s) →
     allowances (live s1) = allowances (live s)).
Proof.
  rename remaining into r, total_deducted into d. intros Hd.
  assert (0 ≤ amount → amount ≤ rollover_usable env user ty (live s) →
          allowances (live s1) = allowances (live s)) as Hcover.
  { intros Hamount.
    by destruct (drain_pools_remaining _ _ _ _ _ _ _ _ _ Hd Hamount)
      as (_ & _ & ?). }
  destruct (drain_pools_run env user ty amount s)
    as (r1 & d1 & bs' & r0 & d0 & last0 & als' & Hb & Ha & Hd').
  rewrite Hd' in Hd. injection Hd as -> -> -> <-. simpl in Hcover |- *.
  pose proof (drain_buckets_Forall2 _ _ _ _ _ _ _ Hb) as Hstep.
  assert (∀ i b,
            (i, b) ∈ _iter_rollover_buckets_stmt env user ty (live s) →
            rollover_buckets (live s) !! i = Some b
            ∧ 0 < RolloverBucket.remain b) as Hrow.
  { intros i b [Hl He]%elem_of_iter_rollover_buckets. split; [done|].
    unfold bucket_eligible in He.
    by apply andb_true_iff in He as [_ ?%Z.ltb_lt]. }
  split_and!; [| |exact Hcover].
  + intros k1 k2 i1 b1 i2 b2 Hlt H1 H2. split.
    * apply (bucket_leb_before (i1, b1) (i2, b2)).
      eapply (StronglySorted_lookup_lt (λ x y, bucket_leb x y = true)
                _ k1 k2); [|exact Hlt|exact H1|exact H2].
      apply order_by_StronglySorted.
      -- intros x y. apply expiry_then_created_leb_total.
      -- intros x y z. apply expiry_then_created_leb_trans.
    * intros Hchg.
      destruct (Hrow i1 b1) as [Hl1 Hp1];
        [by eapply list_elem_of_lookup_2|].
      destruct (Hrow i2 b2) as [Hl2 Hp2];
        [by eapply list_elem_of_lookup_2|].
      pose proof (NoDup_iter_rollover_buckets env user ty (live s)) as Hnd.
      assert ((_iter_rollover_buckets_stmt env user ty (live s)).*1 !! k1
              = Some i1) as Hk1 by (by rewrite list_lookup_fmap, H1).
      assert ((_iter_rollover_buckets_stmt env user ty (live s)).*1 !! k2
              = Some i2) as Hk2 by (by rewrite list_lookup_fmap, H2).
      destruct (list_elem_of_split_length _ _ _ Hk2)
        as (ixs1 & ixs2 & Hsplit & Hlen).
      rewrite Hsplit in Hb, Hnd, Hk1.
      apply NoDup_app in Hnd as (_ & Hdisj & _).
      eapply (drain_buckets_in_order ixs1 i2 ixs2); [exact Hb| | | | |].
      -- eapply list_elem_of_lookup_2.
         by rewrite lookup_app_l in Hk1 by lia.
      -- intros Hin. apply (Hdisj i2 Hin). by left.
      -- done.
      -- lia.
      -- by rewrite Hl2.
  + intros Hne i b Hin.
    destruct (Hrow i b Hin) as [Hl Hp].
    destruct (Forall2_lookup_l _ _ _ _ _ Hstep Hl) as (b' & Hb' & (_ & ? & ?)).
    exists b'. split; [done|].
    destruct (Z.lt_ge_cases 0 r1) as [Hr1|Hr1].
    2:{ rewrite drain_allowances_nonpos in Ha by done.
        injection Ha as _ _ _ <-. done. }
    assert (RolloverBucket.remain b' ≤ 0); [|lia].
    eapply drain_buckets_drained; [exact Hb|done| |done].
    apply list_elem_of_fmap. by exists (i, b).
Qed.

(** The pools after a [consume] call are as the call found them, or as its
    draining steps left them. *)
Lemma consume_pools config env user ty amount action cs action_hash
    allow_payg s res s2 :
  consume config env user ty amount action cs action_hash allow_payg s
  = (res, s2) →
  (rollover_buckets (live s2) = rollover_buckets (live s)
   ∧ allowances (live s2) = allowances (live s))
  ∨ (0 < amount
     ∧ ∃ r d last s1,
         drain_pools env user ty amount s = (Ok (r, d, last), s1)
         ∧ rollover_buckets (live s2) = rollover_buckets (live s1)
         ∧ allowances (live s2) = allowances (live s1)).
Proof.
  intros Hrun.
  destruct (Z.lt_ge_cases 0 amount) as [Ha|Ha].
  2:{ unfold consume in Hrun.
      rewrite (proj2 (Z.leb_le amount 0)) in Hrun by done.
      injection Hrun as <- <-. by left. }
  destruct (consume_existing_stmt action_hash (live s)) as [ex|] eqn:Hex.
  { rewrite (consume_hit _ _ _ _ _ _ _ _ _ _ _ Ha Hex) in Hrun.
    injection Hrun as <- <-. by left. }
  destruct (drain_pools_run env user ty amount s)
    as (r1 & d1 & bs' & r & d & last & als' & _ & _ & Hd).
  rewrite (consume_miss _ _ _ _ _ _ _ _ _ _ _ _ _ _ Ha Hex Hd) in Hrun.
  right. split; [done|]. eexists r, d, last, _. split; [exact Hd|].
  destruct (cover_remainder _ _ _ _ _ _ _ _) as [[[af pc]|e] s'] eqn:Hc;
    apply cover_remainder_frame in Hc as [(rows & charges & ->) _];
    by injection Hrun as <- <-.
Qed.

(** C5. [consume] drains the rollover buckets of the user and credit type
    before it touches a current-cycle allowance, and drains them
    soonest-expiring first (a bucket without expiry last), then
    oldest-created: of two buckets the query returns, the earlier one sorts
    before the later one, and the later one is charged only once the
    earlier one is empty; an allowance is charged only once every such
    bucket is empty, and not at all when the buckets hold the amount.  With
    a bucket holding 50 and an allowance with 100 left, consuming 30 leaves
    20 in the bucket and the allowance as it was. *)
Theorem rollover_drained_before_allowance :
  (∀ config env user ty amount action cs action_hash allow_payg s res s2,
     consume config env user ty amount action cs action_hash allow_payg s
     = (res, s2) →
     (∀ k1 k2 i1 b1 i2 b2,
        (k1 < k2)%nat →
        _iter_rollover_buckets_stmt env user ty (live s) !! k1
        = Some (i1, b1) →
        _iter_rollover_buckets_stmt env user ty (live s) !! k2
        = Some (i2, b2) →
        bucket_before b1 b2
        ∧ (rollover_buckets (live s2) !! i2 ≠ Some b2 →
           ∃ b1', rollover_buckets (live s2) !! i1 = Some b1'
                  ∧ RolloverBucket.remain b1' = 0))
     ∧ (allowances (live s2) ≠ allowances (live s) →
        ∀ i b,
          (i, b) ∈ _iter_rollover_buckets_stmt env user ty (live s) →
          ∃ b', rollover_buckets (live s2) !! i = Some b'
                ∧ RolloverBucket.remain b' = 0)
     ∧ (amount ≤ rollover_usable env user ty (live s) →
        allowances (live s2) = allowances (live s)))
  ∧ (∀ config,
       ∃ r s1,
         consume config (sample_env 1000) alice BC 30 "build" 0 None true
           bucket_and_allowance
         = (Ok r, s1)
         ∧ total_deducted r = 30
         ∧ rollover_buckets (live s1) = [sample_bucket 20]
         ∧ allowances (live s1) = [sample_allowance BC 200 100]).
Proof.
  split.
  - intros config env user ty amount action cs action_hash allow_payg s res
      s2 Hrun.
    destruct (consume_pools _ _ _ _ _ _ _ _ _ _ _ _ Hrun)
      as [[Hb Ha]|(Hpos & r & d & last & s1 & Hd & Hb & Ha)].
    + rewrite Hb, Ha. split_and!; [|done|done].
      intros k1 k2 i1 b1 i2 b2 Hlt H1 H2.
      assert (rollover_buckets (live s) !! i2 = Some b2) as Hl2.
      { eapply elem_of_iter_rollover_buckets, list_elem_of_lookup_2, H2. }
      split; [|done].
      apply (bucket_leb_before (i1, b1) (i2, b2)).
      eapply (StronglySorted_lookup_lt (λ x y, bucket_leb x y = true)
                _ k1 k2); [|exact Hlt|exact H1|exact H2].
      apply order_by_StronglySorted.
      * intros x y. apply expiry_then_created_leb_total.
      * intros x y z. apply expiry_then_created_leb_trans.
    + rewrite Hb, Ha.
      destruct (drain_pools_in_order _ _ _ _ _ _ _ _ _ Hd)
        as (H1 & H2 & H3).
      split_and!; [exact H1|exact H2|]. apply H3. lia.
  - intros config. eexists _, _. split; [vm_compute; reflexivity|].
    by vm_compute.
Qed.

(** ** Renewal *)

(** C6, the claim as stated fails: the bucket created when a Pro cycle is
    renewed at second 1000 holds the 250 unused credits, but it expires 60
    days after the start of the new cycle (30 days after its end), not 30
    days after its start; and when the 400 credits were all used, no bucket
    is created at all. *)
Lemma rollover_expiry_is_not_cycle_start_plus_30_days :
  (∃ b,
     rollover_buckets
       (live (exec (activate_plan DEFAULT_CONFIG (sample_env 1000) alice
                      pro_plan "plan_activation") pro_cycle_end))
     = [b]
     ∧ RolloverBucket.remain b = 250
     ∧ RolloverBucket.expires_at b = Some (1000 + timedelta_days 60)
     ∧ RolloverBucket.expires_at b ≠ Some (1000 + timedelta_days 30))
  ∧ rollover_buckets
      (live (exec (activate_plan DEFAULT_CONFIG (sample_env 1000) alice
                     pro_plan "plan_activation") pro_cycle_spent))
    = [].
Proof.
  split; [|by vm_compute].
  eexists. split; [vm_compute; reflexivity|]. by vm_compute.
Qed.

(** C6, amended. When [_upsert_allowance] finds an allowance of the same
    user, plan and credit type, it resets it to [used = 0] and the new
    quota; under the one-cycle policy a positive unconsumed balance
    [total - used] becomes a new bucket with [remain] equal to it, expiring
    30 days after the expiry passed in, and under the [none] policy, or
    with nothing left, no bucket is created.  [activate_plan] passes the end
    of the new cycle, 30 days after its start, so the bucket expires 60
    days after the start: renewing a Pro cycle with [total = 400] and
    [used = 150] yields a bucket with [remain = 250] and the allowance
    reset to [used = 0], [total = 400]. *)
Theorem upsert_allowance_rolls_over_leftover :
  (∀ env user plan ty total rollover_policy expires_at source s i existing,
     _upsert_allowance_stmt user plan ty (live s) = Some (i, existing) →
     ∃ s1,
       _upsert_allowance env user plan ty total rollover_policy expires_at
         source s
       = (Ok (Allowance.reseed existing total rollover_policy expires_at), s1)
       ∧ allowances (live s1)
         = <[i := Allowance.reseed existing total rollover_policy expires_at]>
             (allowances (live s))
       ∧ Allowance.used
           (Allowance.reseed existing total rollover_policy expires_at) = 0
       ∧ Allowance.total
           (Allowance.reseed existing total rollover_policy expires_at)
         = total
       ∧ (rollover_policy = ONE_CYCLE →
          0 < Allowance.total existing - Allowance.used existing →
          rollover_buckets (live s1)
          = rollover_buckets (live s)
            ++ [rollover_bucket_of env user existing ONE_CYCLE expires_at]
          ∧ RolloverBucket.expires_at
              (rollover_bucket_of env user existing ONE_CYCLE expires_at)
            = Some (expires_at + timedelta_days 30))
       ∧ (rollover_policy = NONE
          ∨ Allowance.total existing - Allowance.used existing ≤ 0 →
          rollover_buckets (live s1) = rollover_buckets (live s)))
  ∧ (∃ s1 subscription,
       activate_plan DEFAULT_CONFIG (sample_env 1000) alice pro_plan
         "plan_activation" pro_cycle_end
       = (Ok subscription, s1)
       ∧ rollover_buckets (live s1)
         = [rollover_bucket_of (env_skip 1 (sample_env 1000)) alice
              (sample_allowance BC 400 150) ONE_CYCLE
              (1000 + timedelta_days 30)]
       ∧ RolloverBucket.remain
           (rollover_bucket_of (env_skip 1 (sample_env 1000)) alice
              (sample_allowance BC 400 150) ONE_CYCLE
              (1000 + timedelta_days 30)) = 250
       ∧ allowances (live s1) !! 0%nat
         = Some (Allowance.reseed (sample_allowance BC 400 150) 400
                   ONE_CYCLE (1000 + timedelta_days 30))).
Proof.
  split.
  - intros env user plan ty total policy expires_at source s i existing Hq.
    unfold _upsert_allowance. rewrite bind_run, query_run, Hq.
    destruct (Z.lt_ge_cases 0
                (Allowance.total existing - Allowance.used existing))
      as [Hpos|Hle].
    + destruct policy; eexists; rewrite bind_run; simpl;
        rewrite (proj2 (Z.ltb_lt 0 _)) by lia; simpl;
        (split; [reflexivity|]); simpl; split_and!; try done;
        try (intros [|]; [done|lia]);
        try (intros _ _; unfold rollover_bucket_of;
             by rewrite Z.max_l by lia).
    + eexists. rewrite bind_run. simpl.
      rewrite (proj2 (Z.ltb_ge 0 _)) by lia. simpl.
      split; [reflexivity|]. simpl. split_and!; try done.
      intros _ ?. lia.
  - eexists _, _. split; [vm_compute; reflexivity|]. by vm_compute.
Qed.

(** ** Covering an unmet remainder *)



(** When the pools hold less than the amount, the draining steps take all
    they hold. *)
Lemma drain_pools_short env user ty amount s :
  0 < amount → pools_available env user ty (live s) < amount →
  ∃ last,
    drain_pools env user ty amount s
    = (Ok (amount - pools_available env user ty (live s),
           pools_available env user ty (live s), last),
       exec (drain_pools env user ty amount) s).
Proof.
  intros Ha Hshort. unfold exec.
  destruct (drain_pools env user ty amount s) as [res s1] eqn:Hd.
  destruct (drain_pools_run env user ty amount s)
    as (r1 & d1 & bs' & r & d & last & als' & _ & _ & Hd').
  rewrite Hd' in Hd. injection Hd as <- <-.
  destruct (drain_pools_remaining _ _ _ _ _ _ _ _ _ Hd' ltac:(lia))
    as (-> & -> & _).
  exists last. simpl. rewrite Z.max_r, Z.min_r by lia. reflexivity.
Qed.

Lemma pools_spent env env' user ty amount s r d last s1 :
  drain_pools env user ty amount s = (Ok (r, d, last), s1) →
  0 < r → utcnow env ≤ utcnow env' →
  pools_available env' user ty (live s1) = 0.
Proof.
  intros Hd Hr Hnow.
  pose proof (drain_pools_again env env' user ty amount 1 _ _ _ _ _
                Hd Hr Hnow) as Hd1.
  destruct (drain_pools_remaining _ _ _ _ _ _ _ _ _ Hd1 ltac:(lia))
    as (H1 & _).
  pose proof (rollover_usable_nonneg env' user ty (live s1)).
  pose proof (allowance_balance_nonneg env' user ty (live s1)).
  unfold pools_available in *. lia.
Qed.


(** C3. When the user's buckets and allowances of the credit type hold less
    than the amount, and the user has no primary subscription, or one that
    is neither on the free plan nor open to PAYG for this call, [consume]
    raises [AllowanceExhaustedError] and returns the session as the
    draining steps left it: everything the pools held has been deducted and
    stays deducted in the session, no event, charge or auto-fix counter is
    written, and nothing is committed. *)
Theorem consume_exhausted_keeps_partial_deductions config env user ty amount
    action cs action_hash allow_payg s :
  0 < amount →
  consume_existing_stmt action_hash (live s) = None →
  pools_available env user ty (live s) < amount →
  match get_primary_subscription_stmt user (live s) with
  | None => True
  | Some (_, subscription) =>
      plan_is_free (live s) subscription = false
      ∧ UserSubscription.payg_enabled subscription && allow_payg = false
  end →
  ∃ s1,
    consume config env user ty amount action cs action_hash allow_payg s
    = (Raise AllowanceExhaustedError, s1)
    ∧ s1 = exec (drain_pools env user ty amount) s
    ∧ pool_balance (live s1)
      = pool_balance (live s) - pools_available env user ty (live s)
    ∧ pools_available env user ty (live s1) = 0
    ∧ Forall2 bucket_step (rollover_buckets (live s))
        (rollover_buckets (live s1))
    ∧ Forall2 allowance_step (allowances (live s)) (allowances (live s1))
    ∧ consumption_events (live s1) = consumption_events (live s)
    ∧ overage_charges (live s1) = overage_charges (live s)
    ∧ allowance_daily_autofix (live s1) = allowance_daily_autofix (live s)
    ∧ durable s1 = durable s.
Proof.
  intros Ha Hex Hshort Hsub.
  destruct (drain_pools_short env user ty amount s Ha Hshort) as (last & Hd).
  exists (exec (drain_pools env user ty amount) s).
  destruct (consume_exhausted_run config env user ty amount action cs
              action_hash allow_payg s _ _ _ _ Ha Hex Hd ltac:(lia) Hsub)
    as (Hrun & _ & Hbal & Hb & Hal & He & Hc & Haf & Hdur).
  split_and!; try done.
  eapply (pools_spent env env); [exact Hd|lia|lia].
Qed.



(** ** The read-only pre-check *)

Lemma would_consume_run env user ty amount s :
  would_consume env user ty amount s
  = if amount <=? 0 then (Raise ValueError, s)
    else (Ok (allowance_balance env user ty (live s)
              + rollover_balance env user ty (live s),
              rollover_balance env user ty (live s)), s).
Proof.
  unfold would_consume. destruct (amount <=? 0); [done|].
  rewrite bind_run, _iter_allowances_run.
  unfold _rollover_available. rewrite bind_run, query_run.
  unfold mret, M_ret. do 3 f_equal.
  unfold allowance_balance, _iter_allowances_stmt.
  rewrite (sumZ_Permutation _
             (map (λ a : nat * Allowance.t,
                     Z.max (Allowance.total a.2 - Allowance.used a.2) 0)
                (select_where (allowance_eligible env user ty)
                   (allowances (live s))))).
  - rewrite <- select_where_snd.
    by rewrite <- (list_fmap_compose snd).
  - apply fmap_Permutation, order_by_Permutation.
Qed.

(** On a ledger without negative buckets the pre-check reports exactly what
    the draining steps of [consume] can take. *)
Lemma rollover_balance_usable env user ty t :
  Forall (λ b, 0 ≤ RolloverBucket.remain b) (rollover_buckets t) →
  rollover_balance env user ty t = rollover_usable env user ty t.
Proof.
  unfold rollover_balance, rollover_usable.
  change (bucket_eligible env user ty t)
    with (λ b, bucket_unexpired env user ty t b
               && (0 <? RolloverBucket.remain b)).
  generalize (bucket_unexpired env user ty t). intros p.
  induction 1 as [|b bs Hb _ IH]; simpl; [done|].
  destruct (p b); simpl; [|exact IH].
  destruct (Z.ltb_spec 0 (RolloverBucket.remain b)); simpl; lia.
Qed.

Lemma would_consume_reports_pools env user ty amount s :
  0 < amount → ledger_ok (live s) →
  would_consume env user ty amount s
  = (Ok (pools_available env user ty (live s),
         rollover_usable env user ty (live s)), s).
Proof.
  intros Ha [_ Hb]. rewrite would_consume_run.
  rewrite (proj2 (Z.leb_gt amount 0)) by done.
  rewrite (rollover_balance_usable _ _ _ _ Hb).
  unfold pools_available. do 3 f_equal. lia.
Qed.

(** C9. [would_consume] with a positive amount returns, first, what is left
    on the user's allowances of the credit type that have not expired plus
    what remains in the buckets of that type that have not expired and,
    second, the bucket part alone; it leaves the session, every table of it,
    exactly as it was, and so does any sequence of [would_consume] calls. *)
Theorem would_consume_is_read_only env user ty amount s :
  0 < amount →
  would_consume env user ty amount s
  = (Ok (allowance_balance env user ty (live s)
         + rollover_balance env user ty (live s),
         rollover_balance env user ty (live s)), s)
  ∧ ∀ calls, would_consume_calls calls s = s.
Proof.
  intros Ha. split.
  - rewrite would_consume_run. by rewrite (proj2 (Z.leb_gt amount 0)) by done.
  - intros calls. induction calls as [|[[[env' user'] ty'] amount'] calls IH];
      [done|].
    unfold would_consume_calls. simpl. unfold exec at 2.
    rewrite would_consume_run.
    destruct (amount' <=? 0); exact IH.
Qed.

(** ** Metered usage *)

Lemma _upsert_summary_run env user_id workspace_id metric period increment s :
  _upsert_summary env user_id workspace_id metric period increment s
  = match _upsert_summary_stmt workspace_id metric period (live s) with
    | None => (Raise TypeError, s)
    | Some (i, summary) =>
        (Raise AttributeError,
         {| live :=
              set_usage_summaries (live s)
                (<[i := UsageSummary.set_value summary
                          (UsageSummary.value summary + increment)%Q]>
                   (usage_summaries (live s)));
            durable := durable s |})
    end.
Proof.
  unfold _upsert_summary. rewrite bind_run, query_run.
  by destruct (_upsert_summary_stmt workspace_id metric period (live s))
    as [[i summary]|].
Qed.

(** [record_usage] adds the reading to the session and raises in
    [_upsert_summary]: the flush, the rounding and [consume] are never
    reached. *)
Lemma record_usage_run config env user workspace_id metric value period
    window_start window_end consume_allowance s :
  record_usage config env user workspace_id metric value period window_start
    window_end consume_allowance s
  = let t :=
      set_usage_meter_readings (live s)
        (usage_meter_readings (live s)
         ++ [new_reading env user workspace_id metric value period
               window_start window_end]) in
    match _upsert_summary_stmt workspace_id metric period (live s) with
    | None => (Raise TypeError, {| live := t; durable := durable s |})
    | Some (i, summary) =>
        (Raise AttributeError,
         {| live :=
              set_usage_summaries t
                (<[i := UsageSummary.set_value summary
                          (UsageSummary.value summary + value)%Q]>
                   (usage_summaries (live s)));
            durable := durable s |})
    end.
Proof.
  unfold record_usage. rewrite bind_run. unfold mutate at 1.
  rewrite bind_run, _upsert_summary_run. cbn [live durable].
  change (_upsert_summary_stmt workspace_id metric period
            (set_usage_meter_readings (live s) _))
    with (_upsert_summary_stmt workspace_id metric period (live s)).
  by destruct (_upsert_summary_stmt workspace_id metric period (live s))
    as [[i summary]|].
Qed.

(** C10, on the code as it is: [record_usage] does not get as far as the
    rounding.  [UsageSummary] declares no [metadata_json], so
    [_upsert_summary] raises [TypeError] when the (workspace, metric,
    period) has no summary yet and [AttributeError] when it has one.  A
    reading of 0.25 is therefore not added to a summary: none is created.
    A reading of 40 is not charged either: the 1200 Usage credits of the
    user are untouched and no event is logged.  On a summary that exists,
    [value] is assigned before the exception, and nothing is flushed or
    committed. *)
Theorem record_usage_raises_in_upsert_summary :
  (∃ s1,
     record_usage DEFAULT_CONFIG (sample_env 1000) alice "workspace-1"
       "bandwidth" (1 # 4) "2025-09" 0 3600 true pro_usage_unused
     = (Raise TypeError, s1)
     ∧ usage_summaries (live s1) = []
     ∧ length (usage_meter_readings (live s1)) = 1%nat
     ∧ durable s1 = durable pro_usage_unused)
  ∧ (∃ s1,
       record_usage DEFAULT_CONFIG (sample_env 1000) alice "workspace-1"
         "bandwidth" (40 # 1) "2025-09" 0 3600 true pro_usage_unused
       = (Raise TypeError, s1)
       ∧ allowances (live s1) = [sample_allowance USAGE 1200 0]
       ∧ consumption_events (live s1) = []
       ∧ usage_summaries (live s1) = [])
  ∧ (∃ s1,
       record_usage DEFAULT_CONFIG (sample_env 1000) alice "workspace-1"
         "bandwidth" (1 # 4) "2025-09" 0 3600 true pro_usage_metered
       = (Raise AttributeError, s1)
       ∧ (summary_value "workspace-1" "bandwidth" "2025-09" (live s1)
          == 10 + (1 # 4))%Q
       ∧ durable s1 = durable pro_usage_metered).
Proof.
  rewrite !record_usage_run. split_and!.
  - eexists. split; [vm_compute; reflexivity|]. by vm_compute.
  - eexists. split; [vm_compute; reflexivity|]. by vm_compute.
  - eexists. split; [vm_compute; reflexivity|]. by vm_compute.
Qed.

(** ** The theorems at work on the sample data *)

Lemma consume_is_idempotent_witness :
  0 < 30 ∧ "action-1" ≠ ""
  ∧ ∃ r s1,
      consume DEFAULT_CONFIG (sample_env 1000) alice BC 30 "build" 0
        (Some "action-1") true bucket_and_allowance = (Ok r, s1)
      ∧ repeat_consume DEFAULT_CONFIG
          [sample_env 1000; sample_env 1001; sample_env 1002] alice BC 30
          "build" 0 (Some "action-1") true bucket_and_allowance = s1
      ∧ length (events_with_hash "action-1" (live s1)) = 1%nat.
Proof.
  split; [lia|]. split; [done|].
  assert (∃ r s1,
            consume DEFAULT_CONFIG (sample_env 1000) alice BC 30 "build" 0
              (Some "action-1") true bucket_and_allowance = (Ok r, s1))
    as (r & s1 & Hrun) by (eexists _, _; vm_compute; reflexivity).
  exists r, s1.
  destruct (proj2 (consume_is_idempotent DEFAULT_CONFIG alice BC 30 "build"
                     0 "action-1" true ltac:(lia) ltac:(done))
              (sample_env 1000) [sample_env 1001; sample_env 1002]
              bucket_and_allowance r s1 Hrun) as (Hrep & _ & Hone).
  split; [exact Hrun|]. split; [exact Hrep|].
  apply Hone. vm_compute. lia.
Defined.

Lemma consume_keeps_balances_in_bounds_witness :
  ledger_ok (live bucket_and_allowance)
  ∧ ledger_ok (live (consume_calls DEFAULT_CONFIG sample_calls
                       bucket_and_allowance)).
Proof.
  assert (ledger_ok (live bucket_and_allowance)) as Hok.
  { split; (apply Forall_cons; split; [simpl; lia|apply Forall_nil_2]). }
  split; [exact Hok|].
  exact (proj1 (consume_keeps_balances_in_bounds DEFAULT_CONFIG sample_calls
                  bucket_and_allowance Hok)).
Defined.

Lemma consume_exhausted_keeps_partial_deductions_witness :
  pools_available (sample_env 1000) alice BC (live bucket_and_allowance) = 150
  ∧ ∃ s1,
      consume DEFAULT_CONFIG (sample_env 1000) alice BC 200 "build" 0
        (Some "action-1") true bucket_and_allowance
      = (Raise AllowanceExhaustedError, s1)
      ∧ pool_balance (live s1)
        = pool_balance (live bucket_and_allowance) - 150
      ∧ consumption_events (live s1) = [].
Proof.
  assert (pools_available (sample_env 1000) alice BC
            (live bucket_and_allowance) = 150) as Hav by reflexivity.
  split; [exact Hav|].
  destruct (consume_exhausted_keeps_partial_deductions DEFAULT_CONFIG
              (sample_env 1000) alice BC 200 "build" 0 (Some "action-1")
              true bucket_and_allowance
              ltac:(lia) eq_refl ltac:(rewrite Hav; lia) I)
    as (s1 & Hrun & _ & Hbal & _ & _ & _ & Hev & _).
  exists s1. split; [exact Hrun|]. split; [|exact Hev].
  rewrite Hbal, Hav. reflexivity.
Defined.

Lemma consume_retry_never_double_charges_witness :
  ∃ s1,
    consume DEFAULT_CONFIG (sample_env 1000) alice BC 200 "build" 0
      (Some "action-1") true bucket_and_allowance
    = (Raise AllowanceExhaustedError, s1)
    ∧ consume DEFAULT_CONFIG (sample_env 1001) alice BC 200 "build" 0
        (Some "action-1") true s1
      = (Raise AllowanceExhaustedError, s1).
Proof.
  assert (∃ s1,
            consume DEFAULT_CONFIG (sample_env 1000) alice BC 200 "build" 0
              (Some "action-1") true bucket_and_allowance
            = (Raise AllowanceExhaustedError, s1))
    as (s1 & Hrun) by (eexists; vm_compute; reflexivity).
  exists s1. split; [exact Hrun|].
  destruct (consume_retry_never_double_charges DEFAULT_CONFIG
              (sample_env 1000) (sample_env 1001) alice BC 200 "build" 0
              (Some "action-1") true bucket_and_allowance
              AllowanceExhaustedError s1 Hrun (or_introl eq_refl)
              ltac:(simpl; lia)) as [Hretry _].
  destruct (consume DEFAULT_CONFIG (sample_env 1001) alice BC 200 "build" 0
              (Some "action-1") true s1) as [res2 s2] eqn:Hrun2.
  destruct (Hretry res2 s2 eq_refl) as (_ & _ & _ & Hsame).
  destruct (Hsame (or_introl eq_refl)) as [-> ->]. reflexivity.
Defined.

Lemma rollover_drained_before_allowance_witness :
  ∃ s1,
    consume DEFAULT_CONFIG (sample_env 1000) alice BC 200 "build" 0 None
      true bucket_and_allowance
    = (Raise AllowanceExhaustedError, s1)
    ∧ allowances (live s1) ≠ allowances (live bucket_and_allowance)
    ∧ ∃ b', rollover_buckets (live s1) !! 0%nat = Some b'
            ∧ RolloverBucket.remain b' = 0.
Proof.
  assert (∃ s1,
            consume DEFAULT_CONFIG (sample_env 1000) alice BC 200 "build" 0
              None true bucket_and_allowance
            = (Raise AllowanceExhaustedError, s1)
            ∧ allowances (live s1) ≠ allowances (live bucket_and_allowance))
    as (s1 & Hrun & Hne)
    by (eexists; split; [vm_compute; reflexivity|by vm_compute]).
  exists s1. split; [exact Hrun|]. split; [exact Hne|].
  apply (proj1 (proj2 (proj1 rollover_drained_before_allowance
                         DEFAULT_CONFIG (sample_env 1000) alice BC 200
                         "build" 0 None true bucket_and_allowance _ s1
                         Hrun))
           Hne 0%nat (sample_bucket 50)).
  vm_compute. by left.
Defined.

Lemma upsert_allowance_rolls_over_leftover_witness :
  _upsert_allowance_stmt alice pro_plan BC (live pro_cycle_end)
  = Some (0%nat, sample_allowance BC 400 150)
  ∧ ∃ s1,
      _upsert_allowance (sample_env 1000) alice pro_plan BC 400 ONE_CYCLE
        (1000 + timedelta_days 30) "plan_activation" pro_cycle_end
      = (Ok (Allowance.reseed (sample_allowance BC 400 150) 400 ONE_CYCLE
               (1000 + timedelta_days 30)), s1)
      ∧ rollover_buckets (live s1)
        = [rollover_bucket_of (sample_env 1000) alice
             (sample_allowance BC 400 150) ONE_CYCLE
             (1000 + timedelta_days 30)].
Proof.
  split; [reflexivity|].
  destruct (proj1 upsert_allowance_rolls_over_leftover (sample_env 1000)
              alice pro_plan BC 400 ONE_CYCLE (1000 + timedelta_days 30)
              "plan_activation" pro_cycle_end 0%nat
              (sample_allowance BC 400 150) eq_refl)
    as (s1 & Hrun & _ & _ & _ & Hone & _).
  exists s1. split; [exact Hrun|].
  exact (proj1 (Hone eq_refl ltac:(simpl; lia))).
Defined.



Lemma would_consume_is_read_only_witness :
  0 < 30
  ∧ would_consume (sample_env 1000) alice BC 30 bucket_and_allowance
    = (Ok (150, 50), bucket_and_allowance).
Proof.
  split; [lia|].
  exact (proj1 (would_consume_is_read_only (sample_env 1000) alice BC 30
                  bucket_and_allowance ltac:(lia))).
Defined.

(** * Further properties *)

(** ** What [consume] leaves alone *)

Lemma cover_remainder_charges config env user ty r action allow_payg s res
    s' :
  cover_remainder config env user ty r action allow_payg s = (res, s') →
  (∃ rows, live s' = set_overage_charges
                       (set_allowance_daily_autofix (live s) rows)
                       (overage_charges (live s)
                        ++ match res with
                           | Ok (_, Some c) => [c]
                           | _ => []
                           end))
  ∧ (∀ af c, res = Ok (af, Some c) →
             c = new_charge env user ty r action ∧ 0 < r).
Proof.
  assert (∀ t, set_overage_charges
                 (set_allowance_daily_autofix t (allowance_daily_autofix t))
                 (overage_charges t ++ []) = t) as Heta.
  { intros []. unfold set_overage_charges. simpl. by rewrite app_nil_r. }
  destruct (Z.lt_ge_cases 0 r) as [Hr|Hr].
  2:{ rewrite cover_remainder_none by done. intros [= <- <-].
      split; [|done]. eexists. by rewrite Heta. }
  destruct (get_primary_subscription_stmt user (live s)) as [[i sub]|] eqn:Hs.
  2:{ rewrite cover_remainder_exhausted by (by rewrite ?Hs).
      intros [= <- <-]. split; [|done]. eexists. by rewrite Heta. }
  destruct (plan_is_free (live s) sub) eqn:Hfree.
  - rewrite (cover_remainder_free _ _ _ _ _ _ _ _ _ _ Hr Hs Hfree).
    destruct (Z.lt_ge_cases (autofix_consumed env user (live s))
                (autofix_limit_of config sub)) as [Hc|Hc].
    + destruct (_apply_autofix_grant config env sub user s Hc)
        as (record & rows & j & -> & _).
      intros [= <- <-]. split; [|done].
      exists rows. simpl. unfold set_overage_charges. simpl.
      by rewrite app_nil_r.
    + rewrite _apply_autofix_limit by done. intros [= <- <-].
      split; [|done]. eexists. by rewrite Heta.
  - destruct (UserSubscription.payg_enabled sub && allow_payg) eqn:Hp.
    + rewrite (cover_remainder_payg _ _ _ _ _ _ _ _ _ _ Hr Hs Hfree Hp).
      intros [= <- <-]. split; [|by intros ?? [= _ <-]].
      exists (allowance_daily_autofix (live s)). simpl.
      by destruct (live s).
    + rewrite cover_remainder_exhausted by (by rewrite ?Hs).
      intros [= <- <-]. split; [|done]. eexists. by rewrite Heta.
Qed.

(** The tables a [consume] call leaves, whatever it returns: plans,
    subscriptions and the usage tables as they were, at most one event and
    at most one charge appended. *)
Lemma consume_shape config env user ty amount action cs action_hash
    allow_payg s res s2 :
  consume config env user ty amount action cs action_hash allow_payg s
  = (res, s2) →
  ∃ evs chs,
    consumption_events (live s2) = consumption_events (live s) ++ evs
    ∧ overage_charges (live s2) = overage_charges (live s) ++ chs
    ∧ (length evs ≤ 1)%nat ∧ (length chs ≤ 1)%nat
    ∧ Forall (λ e, ConsumptionEvent.user_id e = User.id user
                   ∧ ConsumptionEvent.amount e = amount) evs
    ∧ Forall (λ c, OverageCharge.user_id c = User.id user
                   ∧ OverageCharge.status c = PENDING
                   ∧ 0 < OverageCharge.amount c ≤ amount) chs
    ∧ plans (live s2) = plans (live s)
    ∧ user_subscriptions (live s2) = user_subscriptions (live s)
    ∧ usage_meter_readings (live s2) = usage_meter_readings (live s)
    ∧ usage_summaries (live s2) = usage_summaries (live s).
Proof.
  intros Hrun.
  assert (∃ evs chs,
    consumption_events (live s) = consumption_events (live s) ++ evs
    ∧ overage_charges (live s) = overage_charges (live s) ++ chs
    ∧ (length evs ≤ 1)%nat ∧ (length chs ≤ 1)%nat
    ∧ Forall (λ e, ConsumptionEvent.user_id e = User.id user
                   ∧ ConsumptionEvent.amount e = amount) evs
    ∧ Forall (λ c, OverageCharge.user_id c = User.id user
                   ∧ OverageCharge.status c = PENDING
                   ∧ 0 < OverageCharge.amount c ≤ amount) chs
    ∧ plans (live s) = plans (live s)
    ∧ user_subscriptions (live s) = user_subscriptions (live s)
    ∧ usage_meter_readings (live s) = usage_meter_readings (live s)
    ∧ usage_summaries (live s) = usage_summaries (live s)) as Hsame.
  { exists [], []. rewrite !app_nil_r. simpl. split_and!; try done; lia. }
  destruct (Z.lt_ge_cases 0 amount) as [Ha|Ha].
  2:{ unfold consume in Hrun.
      rewrite (proj2 (Z.leb_le amount 0)) in Hrun by done.
      by injection Hrun as <- <-. }
  destruct (consume_existing_stmt action_hash (live s)) as [ex|] eqn:Hex.
  { rewrite (consume_hit _ _ _ _ _ _ _ _ _ _ _ Ha Hex) in Hrun.
    by injection Hrun as <- <-. }
  destruct (drain_pools_run env user ty amount s)
    as (r1 & d1 & bs' & r & d & last & als' & Hb & Hal & Hd).
  rewrite (consume_miss _ _ _ _ _ _ _ _ _ _ _ _ _ _ Ha Hex Hd) in Hrun.
  pose proof (drain_buckets_amounts _ _ _ _ _ _ _ Hb) as (? & ? & ? & _).
  pose proof (drain_allowances_amounts _ _ _ _ _ _ _ _ _ Hal)
    as (? & ? & ? & _).
  destruct (cover_remainder _ _ _ _ _ _ _ _) as [[[af pc]|e] s'] eqn:Hc;
    apply cover_remainder_charges in Hc as [[rows Hs'] Hpc];
    injection Hrun as <- <-; simpl in *; rewrite ?Hs'; simpl.
  - eexists [_], _. split_and!; try done; simpl; try lia.
    + destruct pc; simpl; lia.
    + by repeat constructor.
    + destruct pc as [c|]; [|constructor].
      destruct (Hpc af c eq_refl) as [-> ?].
      repeat constructor; simpl; lia.
  - exists [], []. rewrite !app_nil_r. split_and!; try done; simpl; lia.
Qed.

(** X1. A sequence of [consume] calls, whatever each returns, never removes
    or rewrites a consumption event or an overage charge: the two tables
    only grow at the end, by at most one row per call. *)
Theorem consume_log_is_append_only config (calls : list ConsumeCall)
    (s : Session) :
  consumption_events (live s)
    `prefix_of` consumption_events (live (consume_calls config calls s))
  ∧ overage_charges (live s)
      `prefix_of` overage_charges (live (consume_calls config calls s))
  ∧ (length (consumption_events (live (consume_calls config calls s)))
     ≤ length (consumption_events (live s)) + length calls)%nat
  ∧ (length (overage_charges (live (consume_calls config calls s)))
     ≤ length (overage_charges (live s)) + length calls)%nat.
Proof.
  revert s. induction calls as [|c calls IH]; intros s.
  { simpl. split_and!; try done; lia. }
  change (consume_calls config (c :: calls) s)
    with (consume_calls config calls (exec (consume_call config c) s)).
  destruct (IH (exec (consume_call config c) s)) as (He & Hc & Hle & Hlc).
  unfold exec in *.
  destruct (consume_call config c s) as [res s1] eqn:Hrun.
  apply consume_shape in Hrun
    as (evs & chs & Hevs & Hchs & ? & ? & _). simpl in *.
  rewrite Hevs in He, Hle. rewrite Hchs in Hc, Hlc.
  rewrite length_app in Hle, Hlc.
  split_and!; try lia.
  - etrans; [|exact He]. by apply prefix_app_r.
  - etrans; [|exact Hc]. by apply prefix_app_r.
Qed.

(** X2. [consume] charges only rows its two queries return: an allowance of
    another user or another credit type, or one that has expired, and a
    bucket that is not eligible, are left exactly as they were, whatever
    the call returns; so are the plans, the subscriptions and the usage
    tables. *)
Theorem consume_charges_only_eligible_rows config env user ty amount action
    cs action_hash allow_payg s res s2 :
  consume config env user ty amount action cs action_hash allow_payg s
  = (res, s2) →
  (∀ i a, allowances (live s) !! i = Some a →
          allowance_eligible env user ty a = false →
          allowances (live s2) !! i = Some a)
  ∧ (∀ i b, rollover_buckets (live s) !! i = Some b →
            bucket_eligible env user ty (live s) b = false →
            rollover_buckets (live s2) !! i = Some b)
  ∧ plans (live s2) = plans (live s)
  ∧ user_subscriptions (live s2) = user_subscriptions (live s)
  ∧ usage_meter_readings (live s2) = usage_meter_readings (live s)
  ∧ usage_summaries (live s2) = usage_summaries (live s).
Proof.
  intros Hrun.
  destruct (consume_shape _ _ _ _ _ _ _ _ _ _ _ _ Hrun)
    as (_ & _ & _ & _ & _ & _ & _ & _ & Hp & Hu & Hr & Hsm).
  split_and!; try done.
  - intros i a Hi He.
    destruct (consume_pools _ _ _ _ _ _ _ _ _ _ _ _ Hrun)
      as [[_ ->]|(_ & r & d & last & s1 & Hd & _ & ->)]; [done|].
    destruct (drain_pools_run env user ty amount s)
      as (r1 & d1 & bs' & r0 & d0 & last0 & als' & Hb & Hal & Hd').
    rewrite Hd' in Hd. injection Hd as _ _ _ <-. simpl.
    rewrite (drain_allowances_other _ _ _ _ _ _ _ _ _ i Hal); [done|].
    intros [[j a'] [Hj Hin]]%list_elem_of_fmap. simpl in Hj. subst j.
    apply elem_of_iter_allowances in Hin as [Hl He'].
    congruence.
  - intros i b Hi He.
    destruct (consume_pools _ _ _ _ _ _ _ _ _ _ _ _ Hrun)
      as [[-> _]|(_ & r & d & last & s1 & Hd & -> & _)]; [done|].
    destruct (drain_pools_run env user ty amount s)
      as (r1 & d1 & bs' & r0 & d0 & last0 & als' & Hb & Hal & Hd').
    rewrite Hd' in Hd. injection Hd as _ _ _ <-. simpl.
    rewrite (drain_buckets_other _ _ _ _ _ _ _ i Hb); [done|].
    intros [[j b'] [Hj Hin]]%list_elem_of_fmap. simpl in Hj. subst j.
    apply elem_of_iter_rollover_buckets in Hin as [Hl He'].
    congruence.
Qed.

(** ** What [consume] takes from the pools *)

Lemma sumZ_filter_Forall2 {A} (q q' : A → bool) (f : A → Z) (l l' : list A) :
  Forall2 (λ x y, q' y = q x ∧ (q x = false → f y = f x)) l l' →
  sumZ (map f (List.filter q l)) - sumZ (map f (List.filter q' l'))
  = sumZ (map f l) - sumZ (map f l').
Proof.
  unfold sumZ.
  induction 1 as [|x y l l' [Hq Hf] _ IH]; simpl; [done|].
  rewrite Hq. destruct (q x) eqn:E; simpl; [lia|].
  rewrite (Hf eq_refl). lia.
Qed.

Lemma bucket_unexpired_steps env user ty t t' b b' :
  Forall2 allowance_step (allowances t) (allowances t') →
  bucket_step b b' →
  bucket_unexpired env user ty t' b' = bucket_unexpired env user ty t b.
Proof.
  intros Hal (E & _). unfold bucket_unexpired.
  rewrite (bucket_has_type_steps t t' ty b') by done.
  rewrite E. unfold bucket_has_type. by destruct b.
Qed.

Lemma allowance_eligible_step env user ty a a' :
  allowance_step a a' →
  allowance_eligible env user ty a' = allowance_eligible env user ty a.
Proof. intros (E & _). rewrite E. by destruct a. Qed.

Lemma bucket_eligible_unexpired env user ty t b :
  bucket_eligible env user ty t b = true →
  bucket_unexpired env user ty t b = true.
Proof.
  unfold bucket_eligible, bucket_unexpired. by intros [? _]%andb_true_iff.
Qed.

(** The two loops take what they deduct from the balance of the user and
    credit type, and from nowhere else. *)
Lemma drain_pools_takes env user ty amount s r d last s1 :
  drain_pools env user ty amount s = (Ok (r, d, last), s1) →
  ledger_ok (live s) →
  ledger_ok (live s1)
  ∧ rollover_balance env user ty (live s1)
    + allowance_balance env user ty (live s1)
    = rollover_balance env user ty (live s)
      + allowance_balance env user ty (live s) - d.
Proof.
  intros Hrun Hok.
  destruct (drain_pools_run env user ty amount s)
    as (r1 & d1 & bs' & r0 & d0 & last0 & als' & Hb & Hal & Hd).
  rewrite Hd in Hrun. injection Hrun as -> -> -> <-.
  pose proof (drain_buckets_Forall2 _ _ _ _ _ _ _ Hb) as Hbs.
  pose proof (drain_allowances_Forall2 _ _ _ _ _ _ _ _ _ Hal) as Has.
  pose proof (drain_buckets_amounts _ _ _ _ _ _ _ Hb) as (_ & _ & _ & Hsb).
  pose proof (drain_allowances_amounts _ _ _ _ _ _ _ _ _ Hal)
    as (_ & _ & _ & Hsa).
  assert (ledger_ok
            (set_allowances (set_rollover_buckets (live s) bs') als'))
    as Hok' by (by eapply ledger_ok_steps).
  split; [exact Hok'|]. simpl.
  assert (rollover_balance env user ty
            (set_allowances (set_rollover_buckets (live s) bs') als')
          = rollover_balance env user ty (live s) - d1) as ->.
  { unfold rollover_balance. simpl.
    pose proof (sumZ_filter_Forall2
                  (bucket_unexpired env user ty (live s))
                  (bucket_unexpired env user ty
                     (set_allowances (set_rollover_buckets (live s) bs')
                        als'))
                  RolloverBucket.remain (rollover_buckets (live s)) bs')
      as Hsum.
    cut (Forall2
           (λ x y, bucket_unexpired env user ty
                     (set_allowances (set_rollover_buckets (live s) bs')
                        als') y
                   = bucket_unexpired env user ty (live s) x
                   ∧ (bucket_unexpired env user ty (live s) x = false →
                      RolloverBucket.remain y = RolloverBucket.remain x))
           (rollover_buckets (live s)) bs').
    { intros HF. specialize (Hsum HF). lia. }
    apply Forall2_same_length_lookup. split; [by eapply Forall2_length|].
    intros i b b' Hi Hi'.
    pose proof (Forall2_lookup_lr _ _ _ _ _ _ Hbs Hi Hi') as Hstep.
    split; [by apply bucket_unexpired_steps|].
    intros Hne.
    rewrite (drain_buckets_other _ _ _ _ _ _ _ i Hb) in Hi'; [congruence|].
    intros [[j b0] [Hj Hin]]%list_elem_of_fmap. simpl in Hj. subst j.
    apply elem_of_iter_rollover_buckets in Hin as [Hl He].
    apply bucket_eligible_unexpired in He. congruence. }
  assert (allowance_balance env user ty
            (set_allowances (set_rollover_buckets (live s) bs') als')
          = allowance_balance env user ty (live s) - (d - d1)) as ->.
  { unfold allowance_balance. simpl.
    destruct Hok as [Hu _]. destruct Hok' as [Hu' _]. simpl in Hu'.
    rewrite (sumZ_map_ext_in _
               (λ a, Allowance.total a - Allowance.used a)
               (List.filter _ als')).
    2:{ intros a [Hin _]%elem_of_List_filter.
        rewrite Forall_forall in Hu'. specialize (Hu' a Hin). simpl in Hu'.
        lia. }
    rewrite (sumZ_map_ext_in _
               (λ a, Allowance.total a - Allowance.used a)
               (List.filter _ (allowances (live s)))).
    2:{ intros a [Hin _]%elem_of_List_filter.
        rewrite Forall_forall in Hu. specialize (Hu a Hin). simpl in Hu.
        lia. }
    pose proof (sumZ_filter_Forall2
                  (allowance_eligible env user ty)
                  (allowance_eligible env user ty)
                  (λ a, Allowance.total a - Allowance.used a)
                  (allowances (live s)) als') as Hsum.
    cut (Forall2
           (λ x y, allowance_eligible env user ty y
                   = allowance_eligible env user ty x
                   ∧ (allowance_eligible env user ty x = false →
                      Allowance.total y - Allowance.used y
                      = Allowance.total x - Allowance.used x))
           (allowances (live s)) als').
    { intros HF. specialize (Hsum HF). lia. }
    apply Forall2_same_length_lookup. split; [by eapply Forall2_length|].
    intros i a a' Hi Hi'.
    pose proof (Forall2_lookup_lr _ _ _ _ _ _ Has Hi Hi') as Hstep.
    split; [by apply allowance_eligible_step|].
    intros Hne.
    rewrite (drain_allowances_other _ _ _ _ _ _ _ _ _ i Hal) in Hi';
      [congruence|].
    intros [[j a0] [Hj Hin]]%list_elem_of_fmap. simpl in Hj. subst j.
    apply elem_of_iter_allowances in Hin as [Hl He]. congruence. }
  lia.
Qed.

Lemma cover_remainder_Ok config env user ty r action allow_payg s af pc s' :
  cover_remainder config env user ty r action allow_payg s
  = (Ok (af, pc), s') →
  (r ≤ 0 ∧ af = None ∧ pc = None)
  ∨ (0 < r
     ∧ ((∃ record, af = Some record ∧ pc = None)
        ∨ (af = None ∧ pc = Some (new_charge env user ty r action)))).
Proof.
  destruct (Z.lt_ge_cases 0 r) as [Hr|Hr].
  2:{ rewrite cover_remainder_none by done. intros [= <- <- <-]. by left. }
  right. split; [done|].
  destruct (get_primary_subscription_stmt user (live s)) as [[i sub]|] eqn:Hs.
  2:{ rewrite cover_remainder_exhausted in H by (by rewrite ?Hs). done. }
  destruct (plan_is_free (live s) sub) eqn:Hfree.
  - rewrite (cover_remainder_free _ _ _ _ _ _ _ _ _ _ Hr Hs Hfree) in H.
    destruct (_apply_autofix _ _ _ _ _) as [[record|e] s0]; [|done].
    injection H as <- <- <-. left. by eexists.
  - destruct (UserSubscription.payg_enabled sub && allow_payg) eqn:Hp.
    + rewrite (cover_remainder_payg _ _ _ _ _ _ _ _ _ _ Hr Hs Hfree Hp) in H.
      injection H as <- <- <-. by right.
    + rewrite cover_remainder_exhausted in H by (by rewrite ?Hs). done.
Qed.

Lemma pools_available_balance env user ty t :
  ledger_ok t →
  pools_available env user ty t
  = rollover_balance env user ty t + allowance_balance env user ty t.
Proof.
  intros [_ Hb]. unfold pools_available.
  by rewrite rollover_balance_usable.
Qed.

(** Where a [consume] call that finds no recorded event stands after the
    two loops. *)
Lemma consume_after_drain config env user ty amount action cs action_hash
    allow_payg s :
  0 < amount →
  consume_existing_stmt action_hash (live s) = None →
  ∃ r d last s1,
    drain_pools env user ty amount s = (Ok (r, d, last), s1)
    ∧ r = Z.max 0 (amount - pools_available env user ty (live s))
    ∧ d = Z.min amount (pools_available env user ty (live s))
    ∧ consumption_events (live s1) = consumption_events (live s)
    ∧ overage_charges (live s1) = overage_charges (live s)
    ∧ allowance_daily_autofix (live s1) = allowance_daily_autofix (live s)
    ∧ (ledger_ok (live s) →
       ledger_ok (live s1)
       ∧ pools_available env user ty (live s1)
         = pools_available env user ty (live s) - d)
    ∧ pool_balance (live s1) = pool_balance (live s) - d
    ∧ consume config env user ty amount action cs action_hash allow_payg s
      = match cover_remainder config env user ty r action allow_payg s1 with
        | (Ok (autofix_record, payg_charge), s2) =>
            let ev := new_event env user last ty amount action cs action_hash
                        autofix_record payg_charge in
            let t := set_consumption_events (live s2)
                       (consumption_events (live s2) ++ [ev]) in
            (Ok {| event := ev; total_deducted := d;
                   payg_triggered := payg_charge;
                   autofix_grant := autofix_record |},
             {| live := t; durable := t |})
        | (Raise e, s2) => (Raise e, s2)
        end.
Proof.
  intros Ha Hex.
  destruct (drain_pools_run env user ty amount s)
    as (r1 & d1 & bs' & r & d & last & als' & Hb & Hal & Hd).
  exists r, d, last. eexists. split; [exact Hd|].
  destruct (drain_pools_remaining _ _ _ _ _ _ _ _ _ Hd ltac:(lia))
    as (Hr & Hdd & _).
  destruct (drain_pools_spec _ _ _ _ _ _ _ _ _ Hd)
    as (? & ? & _ & _ & _ & _ & _ & _ & Hpb & _).
  split_and!; try done.
  - intros Hok.
    destruct (drain_pools_takes _ _ _ _ _ _ _ _ _ Hd Hok) as [Hok' Hsum].
    split; [done|]. rewrite !pools_available_balance by done. lia.
  - by apply consume_miss.
Qed.


(** The accounting of a [consume] call that succeeds without finding a
    recorded event. *)
Lemma consume_accounting config env user ty amount action
    cs action_hash allow_payg s r s2 :
  consume config env user ty amount action cs action_hash allow_payg s
  = (Ok r, s2) →
  consume_existing_stmt action_hash (live s) = None →
  ledger_ok (live s) →
  total_deducted r = Z.min amount (pools_available env user ty (live s))
  ∧ 0 ≤ total_deducted r ≤ amount
  ∧ pools_available env user ty (live s2)
    = pools_available env user ty (live s) - total_deducted r
  ∧ pool_balance (live s2) = pool_balance (live s) - total_deducted r
  ∧ ledger_ok (live s2)
  ∧ match payg_triggered r, autofix_grant r with
    | None, None => total_deducted r = amount
    | Some charge, None =>
        OverageCharge.amount charge = amount - total_deducted r
        ∧ 0 < OverageCharge.amount charge
    | None, Some _ => total_deducted r < amount
    | Some _, Some _ => False
    end.
Proof.
  intros Hrun Hex Hok.
  assert (0 < amount) as Ha.
  { destruct (Z.lt_ge_cases 0 amount) as [?|Hle]; [done|].
    unfold consume in Hrun.
    by rewrite (proj2 (Z.leb_le amount 0)) in Hrun by done. }
  destruct (consume_after_drain config env user ty amount action cs
              action_hash allow_payg s Ha Hex)
    as (r0 & d & last & s1 & Hd & Hr & Hdd & _ & _ & _ & Hok1 & Hpb & Hc).
  rewrite Hc in Hrun. clear Hc.
  destruct (Hok1 Hok) as [[Hu Hb] Hp].
  pose proof (rollover_usable_nonneg env user ty (live s)).
  pose proof (allowance_balance_nonneg env user ty (live s)).
  assert (0 ≤ pools_available env user ty (live s))
    by (unfold pools_available; lia).
  destruct (cover_remainder _ _ _ _ _ _ _ _) as [[[af pc]|e] s'] eqn:Hcov;
    [|done].
  pose proof (cover_remainder_frame _ _ _ _ _ _ _ _ _ _ Hcov)
    as [(rows & charges & ->) _].
  apply cover_remainder_Ok in Hcov.
  injection Hrun as <- <-. simpl.
  split_and!; try done; try lia.
  destruct Hcov as [(? & -> & ->)|(? & [(record & -> & ->)|[-> ->]])];
    simpl; lia.
Qed.

(** X4. The accounting of a [consume] call that succeeds without finding
    a recorded event: [total_deducted] is what the pools of the user and
    credit type held, capped by the amount; their balance goes down by
    that much; a shortfall is covered either by one overage charge of
    exactly the difference or by one auto-fix grant, never both, and when
    there is none neither is made. *)
Theorem consume_deducts_what_the_pools_hold config env user ty amount action
    cs action_hash allow_payg s r s2 :
  consume config env user ty amount action cs action_hash allow_payg s
  = (Ok r, s2) →
  consume_existing_stmt action_hash (live s) = None →
  ledger_ok (live s) →
  total_deducted r = Z.min amount (pools_available env user ty (live s))
  ∧ 0 ≤ total_deducted r ≤ amount
  ∧ pools_available env user ty (live s2)
    = pools_available env user ty (live s) - total_deducted r
  ∧ pool_balance (live s2) = pool_balance (live s) - total_deducted r
  ∧ ledger_ok (live s2)
  ∧ match payg_triggered r, autofix_grant r with
    | None, None => total_deducted r = amount
    | Some charge, None =>
        OverageCharge.amount charge = amount - total_deducted r
        ∧ 0 < OverageCharge.amount charge
    | None, Some _ => total_deducted r < amount
    | Some _, Some _ => False
    end.
Proof. apply consume_accounting. Qed.

(** X5. A non-positive amount is rejected with [ValueError] by
    [would_consume], [consume] and [grant_allowance] before anything is
    read or written: the session is returned as it was, also when the
    [action_hash] names an event already recorded. *)
Theorem nonpositive_amount_is_rejected config env user plan ty amount action
    cs action_hash allow_payg window rollover_policy expires_at source s :
  amount ≤ 0 →
  would_consume env user ty amount s = (Raise ValueError, s)
  ∧ consume config env user ty amount action cs action_hash allow_payg s
    = (Raise ValueError, s)
  ∧ grant_allowance env user plan ty amount window rollover_policy expires_at
      source s
    = (Raise ValueError, s).
Proof.
  intros Ha. unfold would_consume, consume, grant_allowance.
  by rewrite (proj2 (Z.leb_le amount 0)) by done.
Qed.

(** ** Granting and revoking allowances *)

Lemma sumZ_app (l k : list Z) : sumZ (l ++ k) = sumZ l + sumZ k.
Proof. unfold sumZ. induction l as [|x l IH]; simpl; lia. Qed.

Lemma sumZ_filter_snoc {A} (q : A → bool) (f : A → Z) (l : list A) x :
  sumZ (map f (List.filter q (l ++ [x])))
  = sumZ (map f (List.filter q l)) + (if q x then f x else 0).
Proof.
  rewrite List.filter_app, map_app, sumZ_app. simpl.
  destruct (q x); unfold sumZ; simpl; lia.
Qed.

Lemma sumZ_filter_insert {A} (q : A → bool) (f : A → Z) (l : list A) i x y :
  l !! i = Some x →
  sumZ (map f (List.filter q (<[i:=y]> l)))
  = sumZ (map f (List.filter q l))
    - (if q x then f x else 0) + (if q y then f y else 0).
Proof.
  unfold sumZ. revert i. induction l as [|z l IH]; intros [|i] Hi; try done.
  - injection Hi as ->. simpl. destruct (q x), (q y); simpl; lia.
  - simpl in *. specialize (IH i Hi). destruct (q z); simpl; lia.
Qed.

(** The join depends on the identifiers and types of the allowances
    only. *)
Lemma bucket_has_type_ext t t' ty b :
  map (λ a, (Allowance.id a, Allowance.type a)) (allowances t')
  = map (λ a, (Allowance.id a, Allowance.type a)) (allowances t) →
  bucket_has_type t' ty b = bucket_has_type t ty b.
Proof.
  unfold bucket_has_type.
  generalize (allowances t). generalize (allowances t').
  induction l as [|a l IH]; intros [|a' l'] E; try done.
  simpl in *. injection E as E1 E2 E. rewrite E1, E2. f_equal. by apply IH.
Qed.

Lemma bucket_has_type_insert t ty b i a a' :
  allowances t !! i = Some a →
  Allowance.id a' = Allowance.id a → Allowance.type a' = Allowance.type a →
  bucket_has_type (set_allowances t (<[i:=a']> (allowances t))) ty b
  = bucket_has_type t ty b.
Proof.
  intros Hi Hid Hty. apply bucket_has_type_ext. simpl.
  change (map ?f ?l) with (f <$> l).
  rewrite list_fmap_insert, Hid, Hty. apply list_insert_id.
  by rewrite list_lookup_fmap, Hi.
Qed.

Lemma rollover_usable_ext env user ty t t' :
  rollover_buckets t' = rollover_buckets t →
  (∀ b, bucket_has_type t' ty b = bucket_has_type t ty b) →
  rollover_usable env user ty t' = rollover_usable env user ty t.
Proof.
  intros Hb Hty. unfold rollover_usable. rewrite Hb. do 2 f_equal.
  apply List.filter_ext. intros b. unfold bucket_eligible. by rewrite Hty.
Qed.

Lemma rollover_balance_ext env user ty t t' :
  rollover_buckets t' = rollover_buckets t →
  (∀ b, bucket_has_type t' ty b = bucket_has_type t ty b) →
  rollover_balance env user ty t' = rollover_balance env user ty t.
Proof.
  intros Hb Hty. unfold rollover_balance. rewrite Hb. do 2 f_equal.
  apply List.filter_ext. intros b. unfold bucket_unexpired. by rewrite Hty.
Qed.

(** *** Unique constraints *)

Lemma clashes_false {A} (k : A → A → bool) (l : list A) i x :
  l !! i = Some x →
  (∀ j y, l !! j = Some y → j ≠ i → k x y = false) →
  clashes k l i = false.
Proof.
  intros Hi Hall. unfold clashes. rewrite Hi.
  apply not_true_is_false. intros [[j y] [Hin Hk]]%existsb_exists.
  apply list_elem_of_In, elem_of_indexed in Hin. simpl in Hk.
  apply andb_true_iff in Hk as [Hne%negb_true_iff%Nat.eqb_neq Hk].
  by rewrite (Hall j y) in Hk.
Qed.

Lemma clashes_true {A} (k : A → A → bool) (l : list A) i x j y :
  l !! i = Some x → l !! j = Some y → j ≠ i → k x y = true →
  clashes k l i = true.
Proof.
  intros Hi Hj Hne Hk. unfold clashes. rewrite Hi.
  apply existsb_exists. exists (j, y). split.
  - by apply list_elem_of_In, elem_of_indexed.
  - simpl. rewrite Hk. by rewrite (proj2 (Nat.eqb_neq j i)).
Qed.

Lemma clashes_snoc {A} (k : A → A → bool) (l : list A) x :
  clashes k (l ++ [x]) (length l) = existsb (k x) l.
Proof.
  destruct (existsb (k x) l) eqn:He.
  - apply existsb_exists in He as [y [[j Hj]%list_elem_of_In%list_elem_of_lookup_1 Hk]].
    apply (clashes_true k _ _ x j y); [|by apply lookup_app_l_Some| |done].
    + by rewrite lookup_app_r, Nat.sub_diag.
    + apply lookup_lt_Some in Hj. lia.
  - apply (clashes_false k _ _ x).
    + by rewrite lookup_app_r, Nat.sub_diag.
    + intros j y Hj Hne.
      apply lookup_app_Some in Hj as [Hj|[Hge Hj]].
      * apply not_true_is_false. intros Hk.
        apply not_true_iff_false in He. apply He, existsb_exists.
        exists y. split; [|done].
        by eapply list_elem_of_In, list_elem_of_lookup_2.
      * destruct (j - length l)%nat eqn:E; [lia|done].
Qed.

Lemma allowance_key_taken_NULL user plan ty source t :
  plan = None ∨ source = None →
  allowance_key_taken user plan ty source t = false.
Proof.
  intros Hnull. unfold allowance_key_taken.
  apply not_true_is_false. intros [b [_ Hk]]%existsb_exists.
  destruct Hnull as [-> | ->]; simpl in Hk;
    by rewrite ?andb_false_r in Hk.
Qed.

Lemma grant_allowance_run env user plan ty total window rollover_policy
    expires_at source s :
  0 < total →
  grant_allowance env user plan ty total window rollover_policy expires_at
    source s
  = (if allowance_key_taken user plan ty source (live s)
     then Raise IntegrityError
     else Ok (new_allowance env user plan ty total window rollover_policy
                expires_at source),
     {| live :=
          set_allowances (live s)
            (allowances (live s)
             ++ [new_allowance env user plan ty total window rollover_policy
                   expires_at source]);
        durable := durable s |}).
Proof.
  intros Ht. unfold grant_allowance.
  rewrite (proj2 (Z.leb_gt total 0)) by done.
  rewrite bind_run, query_run, bind_run. unfold mutate at 1.
  rewrite bind_run. unfold flush_row at 1. cbn [live durable allowances
                                                  set_allowances].
  rewrite clashes_snoc.
  change (existsb _ (allowances (live s)))
    with (allowance_key_taken user plan ty source (live s)).
  by destruct (allowance_key_taken user plan ty source (live s)).
Qed.

(** Without a plan or without a source the insert cannot clash. *)
Lemma grant_allowance_fresh env user plan ty total window rollover_policy
    expires_at source s :
  0 < total → plan = None ∨ source = None →
  ∃ a,
    grant_allowance env user plan ty total window rollover_policy expires_at
      source s
    = (Ok a, {| live := set_allowances (live s) (allowances (live s) ++ [a]);
                durable := durable s |})
    ∧ a = {| Allowance.id := uuid4 env 0;
             Allowance.user_id := User.id user;
             Allowance.plan_id := Plan.id <$> plan;
             Allowance.type := ty;
             Allowance.total := total;
             Allowance.used := 0;
             Allowance.window := window;
             Allowance.rollover_policy := rollover_policy;
             Allowance.expires_at := expires_at;
             Allowance.source := source;
             Allowance.created_at := utcnow env |}.
Proof.
  intros Ht Hnull. rewrite grant_allowance_run by done.
  rewrite allowance_key_taken_NULL by done.
  eexists. split; reflexivity.
Qed.

(** X6. [grant_allowance] with a positive total that fits the column
    fails only on the unique key of the table: when another allowance
    holds the same user, plan, type and source, the insert is refused with
    [IntegrityError]; without a plan or without a source that cannot
    happen.  Otherwise it appends one unused allowance, without committing,
    and from then on the allowance counts, for its owner and credit type and
    until it expires, with its whole total in the balance that
    [would_consume] reports; no other balance changes, and the invariant
    [used ≤ total] is kept.  (Integers are not bounded in the model; the
    flush of the source refuses a total beyond [INTEGER_MAX].) *)
Theorem grant_allowance_adds_credit env user plan ty total window
    rollover_policy expires_at source s :
  0 < total ≤ INTEGER_MAX →
  (allowance_key_taken user plan ty source (live s) = true →
   ∃ s1,
     grant_allowance env user plan ty total window rollover_policy expires_at
       source s
     = (Raise IntegrityError, s1)
     ∧ durable s1 = durable s)
  ∧ (plan = None ∨ source = None →
     allowance_key_taken user plan ty source (live s) = false)
  ∧ (allowance_key_taken user plan ty source (live s) = false →
     ∃ a s1,
       grant_allowance env user plan ty total window rollover_policy
         expires_at source s
       = (Ok a, s1)
       ∧ allowances (live s1) = allowances (live s) ++ [a]
       ∧ rollover_buckets (live s1) = rollover_buckets (live s)
       ∧ durable s1 = durable s
       ∧ Allowance.total a = total ∧ Allowance.used a = 0
       ∧ Allowance.user_id a = User.id user ∧ Allowance.type a = ty
       ∧ Allowance.expires_at a = expires_at
       ∧ (ledger_ok (live s) → ledger_ok (live s1))
       ∧ (∀ env' user' ty',
            allowance_balance env' user' ty' (live s1)
            = allowance_balance env' user' ty' (live s)
              + (if String.eqb (User.id user) (User.id user')
                    && AllowanceType_eqb ty ty'
                    && not_expired expires_at (utcnow env')
                 then total else 0))
       ∧ (Forall (λ b, RolloverBucket.allowance_id b ≠ uuid4 env 0)
            (rollover_buckets (live s)) →
          ∀ env' amount available rollover,
            would_consume env' user ty amount s
            = (Ok (available, rollover), s) →
            not_expired expires_at (utcnow env') = true →
            would_consume env' user ty amount s1
            = (Ok (available + total, rollover), s1))).
Proof.
  intros [Ht _].
  pose proof (grant_allowance_run env user plan ty total window
                rollover_policy expires_at source s Ht) as Hrun.
  set (a := new_allowance env user plan ty total window rollover_policy
              expires_at source) in *.
  assert (a = new_allowance env user plan ty total window rollover_policy
                expires_at source) as Ea by done.
  clearbody a. unfold new_allowance in Ea.
  split_and!.
  { intros Hk. rewrite Hk in Hrun. eexists. split; [exact Hrun|done]. }
  { apply allowance_key_taken_NULL. }
  intros Hk. rewrite Hk in Hrun. rewrite Hrun.
  eexists _, _. split; [reflexivity|]. simpl.
  split_and!; try done; try (by rewrite Ea).
  - intros [Hu Hb]. split; [|done]. simpl.
    apply Forall_app. split; [done|].
    apply Forall_singleton. rewrite Ea. simpl. lia.
  - intros env' user' ty'. unfold allowance_balance. simpl.
    rewrite sumZ_filter_snoc. f_equal.
    rewrite Ea. unfold allowance_eligible. simpl.
    destruct (_ && _ && _); lia.
  - intros Hfresh env' amount available rollover Hw Hne.
    rewrite would_consume_run in *.
    destruct (amount <=? 0); [done|]. injection Hw as <- <-.
    cbn [live].
    assert (∀ b, b ∈ rollover_buckets (live s) →
                 bucket_has_type
                   (set_allowances (live s) (allowances (live s) ++ [a])) ty b
                 = bucket_has_type (live s) ty b) as Hty.
    { intros b Hb. unfold bucket_has_type. simpl.
      rewrite existsb_app. simpl.
      rewrite Forall_forall in Hfresh. specialize (Hfresh b Hb).
      apply not_eq_sym, String.eqb_neq in Hfresh. rewrite Ea. simpl.
      rewrite Hfresh. simpl. by rewrite !orb_false_r. }
    assert (rollover_balance env' user ty
              (set_allowances (live s) (allowances (live s) ++ [a]))
            = rollover_balance env' user ty (live s)) as ->.
    { unfold rollover_balance. simpl. do 2 f_equal.
      apply List.filter_ext_in. intros b Hb%list_elem_of_In.
      unfold bucket_unexpired. by rewrite Hty. }
    unfold allowance_balance. simpl. rewrite sumZ_filter_snoc.
    rewrite Ea. unfold allowance_eligible at 2. simpl.
    rewrite String.eqb_refl, Hne.
    assert (AllowanceType_eqb ty ty = true) as -> by (by destruct ty).
    simpl. do 3 f_equal. lia.
Qed.

(** X7. [revoke_allowance] sets the expiry of the allowance to the time
    of the call and changes nothing else.  From that time on the allowance
    is not eligible for any user or credit type, so what was left on it
    leaves the balance; the rollover buckets carried over from it are not
    touched and stay spendable. *)
Theorem revoke_allowance_ends_eligibility env i a s :
  allowances (live s) !! i = Some a →
  ∃ s1,
    revoke_allowance env (i, a) s
    = (Ok (expire_allowance a (utcnow env)), s1)
    ∧ allowances (live s1)
      = <[i := expire_allowance a (utcnow env)]> (allowances (live s))
    ∧ rollover_buckets (live s1) = rollover_buckets (live s)
    ∧ durable s1 = durable s
    ∧ (∀ env' user ty,
         utcnow env ≤ utcnow env' →
         allowance_eligible env' user ty (expire_allowance a (utcnow env))
         = false
         ∧ allowance_balance env' user ty (live s1)
           = allowance_balance env' user ty (live s)
             - (if allowance_eligible env' user ty a
                then Z.max (Allowance.total a - Allowance.used a) 0 else 0))
    ∧ (∀ env' user ty,
         rollover_usable env' user ty (live s1)
         = rollover_usable env' user ty (live s)).
Proof.
  intros Hi. eexists. split; [reflexivity|]. simpl.
  split_and!; try done.
  - intros env' user ty Hnow.
    assert (allowance_eligible env' user ty
              (expire_allowance a (utcnow env)) = false) as Hne.
    { unfold allowance_eligible. simpl.
      rewrite (proj2 (Z.ltb_ge _ _)) by done. apply andb_false_r. }
    split; [done|].
    unfold allowance_balance. simpl.
    rewrite (sumZ_filter_insert _ _ _ _ _ _ Hi), Hne. lia.
  - intros env' user ty. apply rollover_usable_ext; [done|].
    intros b. by apply (bucket_has_type_insert _ _ _ _ a).
Qed.

(** ** Seeding the plans *)

Lemma first_select_where_insert {A} (p : A → bool) (l : list A) i x y :
  l !! i = Some x → p y = p x →
  first (select_where p (<[i:=y]> l))
  = (λ jr : nat * A, if decide (jr.1 = i) then (i, y) else jr)
      <$> first (select_where p l).
Proof.
  intros Hi Hp.
  destruct (first (select_where p l)) as [[j z]|] eqn:Hq; simpl.
  - apply first_select_where_Some in Hq as (Hj & Hz & Hmin).
    destruct (decide (j = i)) as [->|Hne]; apply first_select_where_Some.
    + split_and!.
      * apply list_lookup_insert_eq. by eapply lookup_lt_Some.
      * congruence.
      * intros k w Hk Hlt. rewrite list_lookup_insert_ne in Hk by lia. eauto.
    + split_and!.
      * by rewrite list_lookup_insert_ne.
      * done.
      * intros k w Hk Hlt. destruct (decide (k = i)) as [->|Hki].
        -- rewrite list_lookup_insert_eq in Hk by (by eapply lookup_lt_Some).
           injection Hk as <-. rewrite Hp. eauto.
        -- rewrite list_lookup_insert_ne in Hk by done. eauto.
  - pose proof (proj1 (first_select_where_None _ _) Hq) as Hnone.
    apply first_select_where_None.
    intros w [k Hk]%list_elem_of_lookup_1.
    destruct (decide (k = i)) as [->|Hki].
    + rewrite list_lookup_insert_eq in Hk by (by eapply lookup_lt_Some).
      injection Hk as <-. rewrite Hp. apply Hnone.
      by eapply list_elem_of_lookup_2.
    + rewrite list_lookup_insert_ne in Hk by done.
      apply Hnone. by eapply list_elem_of_lookup_2.
Qed.

Lemma first_select_where_snoc {A} (p : A → bool) (l : list A) x :
  first (select_where p (l ++ [x]))
  = match first (select_where p l) with
    | Some r => Some r
    | None => if p x then Some (length l, x) else None
    end.
Proof.
  destruct (first (select_where p l)) as [[j z]|] eqn:Hq.
  - apply first_select_where_Some in Hq as (Hj & Hz & Hmin).
    apply first_select_where_Some. split_and!; [|done|].
    + by apply lookup_app_l_Some.
    + intros k w Hk Hlt.
      rewrite lookup_app_l in Hk by (apply lookup_lt_Some in Hj; lia). eauto.
  - pose proof (proj1 (first_select_where_None _ _) Hq) as Hnone.
    destruct (p x) eqn:Hx.
    + apply first_select_where_Some. split_and!; [|done|].
      * by rewrite lookup_app_r, Nat.sub_diag by done.
      * intros k w Hk Hlt. rewrite lookup_app_l in Hk by done.
        apply Hnone. by eapply list_elem_of_lookup_2.
    + apply first_select_where_None.
      intros w [Hw|Hw%list_elem_of_singleton]%elem_of_app; [auto|by subst].
Qed.

Lemma session_eta s :
  {| live := live s; durable := durable s |} = s.
Proof. by destruct s. Qed.

Lemma set_plans_eta t : set_plans t (plans t) = t.
Proof. by destruct t. Qed.

Lemma ensure_plan_eq seed s :
  ensure_plan seed s
  = (if clashes Plan_same_key (ensure_plan_rows seed (live s))
          (ensure_plan_row seed (live s))
     then Raise IntegrityError else Ok (plan_of_seed seed),
     {| live := set_plans (live s) (ensure_plan_rows seed (live s));
        durable := durable s |}).
Proof.
  unfold ensure_plan, ensure_plan_rows, ensure_plan_row.
  rewrite bind_run, query_run.
  destruct (get_plan (live s) (seed_id seed)) as [[i q]|].
  - rewrite bind_run. unfold mutate at 1. rewrite bind_run.
    unfold flush_row at 1. cbn [live durable plans set_plans].
    by destruct (clashes _ _ _).
  - rewrite bind_run, query_run, bind_run. unfold mutate at 1.
    rewrite bind_run. unfold flush_row at 1.
    cbn [live durable plans set_plans].
    by destruct (clashes _ _ _).
Qed.

(** What one iteration writes. *)
Lemma ensure_plan_rows_spec seed t :
  (∃ i, get_plan (set_plans t (ensure_plan_rows seed t)) (seed_id seed)
        = Some (i, plan_of_seed seed))
  ∧ (∀ id, id ≠ seed_id seed →
           get_plan (set_plans t (ensure_plan_rows seed t)) id
           = get_plan t id)
  ∧ ((∃ i, get_plan t (seed_id seed) = Some (i, plan_of_seed seed)) →
     ensure_plan_rows seed t = plans t)
  ∧ (length (plans t) ≤ length (ensure_plan_rows seed t)
     ≤ length (plans t) + 1)%nat
  ∧ (∀ j p, plans t !! j = Some p → Plan.id p ≠ seed_id seed →
            ensure_plan_rows seed t !! j = Some p).
Proof.
  unfold ensure_plan_rows.
  assert (Plan.id (plan_of_seed seed) = seed_id seed) as Hid by done.
  destruct (get_plan t (seed_id seed)) as [[i q]|] eqn:Hq.
  - unfold get_plan in *. cbn [plans set_plans].
    pose proof Hq as (Hi & Hp & _)%first_select_where_Some.
    split_and!.
    + exists i. rewrite (first_select_where_insert _ _ _ q) by
        (by rewrite ?Hid, ?String.eqb_refl).
      rewrite Hq. simpl. by rewrite decide_True.
    + intros id Hne.
      assert ((Plan.id q =? id)%string = false) as Hqf.
      { apply String.eqb_eq in Hp. rewrite Hp. by apply String.eqb_neq. }
      rewrite (first_select_where_insert _ _ _ q); [|done|].
      2:{ rewrite Hqf. simpl. by apply String.eqb_neq. }
      destruct (first (select_where (λ p : Plan.t, Plan.id p =? id)%string
                         (plans t))) as [[j z]|] eqn:Hz; [|done].
      simpl. rewrite decide_False; [done|]. intros ->.
      apply first_select_where_Some in Hz as (Hj & Hz & _). congruence.
    + intros [j [= _ ->]]. by apply list_insert_id.
    + rewrite length_insert. lia.
    + rewrite length_insert. lia.
    + intros j p Hj Hne. rewrite list_lookup_insert_ne; [done|].
      intros ->. apply String.eqb_eq in Hp. congruence.
  - unfold get_plan in *. cbn [plans set_plans].
    split_and!.
    + eexists. rewrite first_select_where_snoc, Hq.
      by rewrite Hid, String.eqb_refl.
    + intros id Hne. rewrite first_select_where_snoc.
      destruct (first (select_where (λ p : Plan.t, Plan.id p =? id)%string
                         (plans t))); [done|].
      rewrite Hid. by rewrite (proj2 (String.eqb_neq _ _)).
    + by intros [j ?].
    + rewrite length_app. simpl. lia.
    + rewrite length_app. simpl. lia.
    + intros j p Hj _. by apply lookup_app_l_Some.
Qed.

Lemma seed_names_injective seed seed' :
  seed ∈ DEFAULT_PLAN_SEEDS → seed' ∈ DEFAULT_PLAN_SEEDS →
  seed_name seed = seed_name seed' → seed_id seed = seed_id seed'.
Proof.
  unfold DEFAULT_PLAN_SEEDS. rewrite !elem_of_cons, !elem_of_nil.
  intros [->|[->|[->|[->|[]]]]] [->|[->|[->|[->|[]]]]]; by simpl.
Qed.

(** A table that can take the seeds takes each of them, and can still
    take the others. *)
Lemma ensure_plan_seedable seed t :
  seed ∈ DEFAULT_PLAN_SEEDS → plans_seedable t →
  clashes Plan_same_key (ensure_plan_rows seed t) (ensure_plan_row seed t)
  = false
  ∧ plans_seedable (set_plans t (ensure_plan_rows seed t)).
Proof.
  intros Hs [Hnd Hnames]. unfold ensure_plan_rows, ensure_plan_row.
  assert (Plan.name (plan_of_seed seed) = seed_name seed) as Hname by done.
  assert (Plan.id (plan_of_seed seed) = seed_id seed) as Hid by done.
  destruct (get_plan t (seed_id seed)) as [[i q]|] eqn:Hq.
  - unfold get_plan in Hq.
    apply first_select_where_Some in Hq as (Hi & Hp%String.eqb_eq & _).
    split.
    + apply (clashes_false _ _ _ (plan_of_seed seed)).
      { apply list_lookup_insert_eq. by eapply lookup_lt_Some. }
      intros j y Hj Hne. rewrite list_lookup_insert_ne in Hj by done.
      unfold Plan_same_key. apply String.eqb_neq. intros Hy.
      apply Hne.
      apply (NoDup_lookup (Plan.id <$> plans t) j i (seed_id seed));
        [done| |].
      * rewrite list_lookup_fmap, Hj. simpl. f_equal.
        apply Hnames; [by eapply list_elem_of_lookup_2|done|].
        by rewrite <- Hy.
      * by rewrite list_lookup_fmap, Hi, <- Hp.
    + unfold plans_seedable. cbn [plans set_plans]. split.
      * rewrite list_fmap_insert, Hid, <- Hp.
        rewrite list_insert_id; [done|]. by rewrite list_lookup_fmap, Hi.
      * intros p seed' [k Hk]%list_elem_of_lookup_1 Hs' Hn.
        destruct (decide (k = i)) as [->|Hne].
        -- rewrite list_lookup_insert_eq in Hk by (by eapply lookup_lt_Some).
           injection Hk as <-. rewrite Hid.
           by apply seed_names_injective.
        -- rewrite list_lookup_insert_ne in Hk by done.
           apply Hnames; [by eapply list_elem_of_lookup_2|done..].
  - unfold get_plan in Hq.
    pose proof (proj1 (first_select_where_None _ _) Hq) as Hnone.
    assert (∀ y, y ∈ plans t → Plan.name y ≠ seed_name seed) as Hfree.
    { intros y Hy Hn. specialize (Hnone y Hy). simpl in Hnone.
      apply String.eqb_neq in Hnone. apply Hnone. by apply Hnames. }
    split.
    + rewrite clashes_snoc. apply not_true_is_false.
      intros [y [Hy%list_elem_of_In Hk]]%existsb_exists.
      unfold Plan_same_key in Hk. apply String.eqb_eq in Hk.
      by apply (Hfree y Hy).
    + unfold plans_seedable. cbn [plans set_plans]. split.
      * rewrite fmap_app. apply NoDup_app. split_and!; [done| |].
        -- intros id [y [-> Hy]]%list_elem_of_fmap
             Hin%list_elem_of_singleton.
           specialize (Hnone y Hy). simpl in Hnone.
           apply String.eqb_neq in Hnone. by apply Hnone.
        -- simpl. apply NoDup_singleton.
      * intros p seed' [Hp| ->%list_elem_of_singleton]%elem_of_app Hs' Hn.
        -- by apply Hnames.
        -- rewrite Hid. by apply seed_names_injective.
Qed.

(** A stored plan that bears the name of the seed under another
    identifier makes the write fail. *)
Lemma ensure_plan_clash seed t j p :
  plans t !! j = Some p → Plan.name p = seed_name seed →
  Plan.id p ≠ seed_id seed →
  clashes Plan_same_key (ensure_plan_rows seed t) (ensure_plan_row seed t)
  = true.
Proof.
  intros Hj Hn Hne. unfold ensure_plan_rows, ensure_plan_row.
  destruct (get_plan t (seed_id seed)) as [[i q]|] eqn:Hq.
  - unfold get_plan in Hq.
    apply first_select_where_Some in Hq as (Hi & Hp%String.eqb_eq & _).
    assert (j ≠ i) as Hji by (intros ->; congruence).
    apply (clashes_true _ _ _ (plan_of_seed seed) j p); [| |done|].
    + apply list_lookup_insert_eq. by eapply lookup_lt_Some.
    + by rewrite list_lookup_insert_ne.
    + unfold Plan_same_key. simpl. rewrite Hn. apply String.eqb_refl.
  - apply (clashes_true _ _ _ (plan_of_seed seed) j p).
    + by rewrite lookup_app_r, Nat.sub_diag.
    + by apply lookup_app_l_Some.
    + apply lookup_lt_Some in Hj. lia.
    + unfold Plan_same_key. simpl. rewrite Hn. apply String.eqb_refl.
Qed.

Lemma ensure_plan_run seed s :
  seed ∈ DEFAULT_PLAN_SEEDS → plans_seedable (live s) →
  ∃ rows,
    ensure_plan seed s
    = (Ok (plan_of_seed seed),
       {| live := set_plans (live s) rows; durable := durable s |})
    ∧ (∃ i, get_plan (set_plans (live s) rows) (seed_id seed)
            = Some (i, plan_of_seed seed))
    ∧ (∀ id, id ≠ seed_id seed →
             get_plan (set_plans (live s) rows) id = get_plan (live s) id)
    ∧ ((∃ i, get_plan (live s) (seed_id seed)
             = Some (i, plan_of_seed seed)) →
       rows = plans (live s))
    ∧ (length (plans (live s)) ≤ length rows ≤ length (plans (live s)) + 1)%nat
    ∧ plans_seedable (set_plans (live s) rows).
Proof.
  intros Hs Hok.
  destruct (ensure_plan_seedable seed (live s) Hs Hok) as [Hfree Hok'].
  destruct (ensure_plan_rows_spec seed (live s))
    as (H1 & H2 & H3 & H4 & _).
  exists (ensure_plan_rows seed (live s)).
  rewrite ensure_plan_eq, Hfree. done.
Qed.

Lemma ensure_plans_run (seeds : list PlanSeed) s :
  NoDup (seed_id <$> seeds) →
  (∀ seed, seed ∈ seeds → seed ∈ DEFAULT_PLAN_SEEDS) →
  plans_seedable (live s) →
  ∃ rows,
    mapM ensure_plan seeds s
    = (Ok (plan_of_seed <$> seeds),
       {| live := set_plans (live s) rows; durable := durable s |})
    ∧ (∀ seed, seed ∈ seeds →
               ∃ i, get_plan (set_plans (live s) rows) (seed_id seed)
                    = Some (i, plan_of_seed seed))
    ∧ (∀ id, id ∉ seed_id <$> seeds →
             get_plan (set_plans (live s) rows) id = get_plan (live s) id)
    ∧ ((∀ seed, seed ∈ seeds →
                ∃ i, get_plan (live s) (seed_id seed)
                     = Some (i, plan_of_seed seed)) →
       rows = plans (live s))
    ∧ (length (plans (live s)) ≤ length rows
       ≤ length (plans (live s)) + length seeds)%nat
    ∧ plans_seedable (set_plans (live s) rows).
Proof.
  revert s. induction seeds as [|seed seeds IH]; intros s Hnd Hsub Hok.
  { exists (plans (live s)). rewrite set_plans_eta, session_eta.
    split_and!; try done; [by intros ? ?%elem_of_nil|simpl; lia]. }
  apply NoDup_cons in Hnd as [Hfresh Hnd].
  destruct (ensure_plan_run seed s (Hsub seed ltac:(by left)) Hok)
    as (rows1 & Hrun1 & Hin1 & Hout1 & Hid1 & Hlen1 & Hok1).
  destruct (IH {| live := set_plans (live s) rows1; durable := durable s |}
              Hnd (λ x Hx, Hsub x ltac:(by right)) Hok1)
    as (rows & Hrun & Hin & Hout & Hid & Hlen & Hok2).
  cbn [live durable] in *.
  exists rows.
  change (set_plans (set_plans (live s) rows1) rows)
    with (set_plans (live s) rows) in *.
  split_and!.
  - cbn [mapM]. rewrite bind_run, Hrun1, bind_run, Hrun. done.
  - intros seed' [->|Hs]%elem_of_cons; [|by apply Hin].
    destruct Hin1 as [i Hi]. exists i. by rewrite Hout.
  - intros id Hnotin. rewrite fmap_cons in Hnotin.
    apply not_elem_of_cons in Hnotin as [Hne Hnotin].
    rewrite Hout by done. by apply Hout1.
  - intros Hall.
    assert (rows1 = plans (live s)) as ->.
    { apply Hid1, Hall. by left. }
    rewrite set_plans_eta in *.
    apply Hid. intros seed' Hs. apply Hall. by right.
  - cbn [plans set_plans] in Hlen. simpl. lia.
  - cbn [plans set_plans] in Hlen. simpl. lia.
  - done.
Qed.

Lemma ensure_plans_clash (seeds : list PlanSeed) s j p seed :
  seed ∈ seeds → plans (live s) !! j = Some p →
  Plan.name p = seed_name seed → Plan.id p ∉ seed_id <$> seeds →
  ∃ rows,
    mapM ensure_plan seeds s
    = (Raise IntegrityError,
       {| live := set_plans (live s) rows; durable := durable s |}).
Proof.
  revert s. induction seeds as [|seed0 seeds IH]; intros s Hs Hj Hn Hid.
  { by apply elem_of_nil in Hs. }
  rewrite fmap_cons in Hid. apply not_elem_of_cons in Hid as [Hne Hid].
  cbn [mapM]. rewrite bind_run, ensure_plan_eq.
  destruct (clashes _ _ _) eqn:Hc; [by eexists|].
  apply elem_of_cons in Hs as [->|Hs].
  { by rewrite (ensure_plan_clash seed0 (live s) j p) in Hc. }
  destruct (ensure_plan_rows_spec seed0 (live s)) as (_ & _ & _ & _ & Hkeep).
  destruct (IH {| live := set_plans (live s)
                            (ensure_plan_rows seed0 (live s));
                  durable := durable s |} Hs (Hkeep j p Hj Hne) Hn Hid)
    as (rows & Hrun).
  exists rows. by rewrite bind_run, Hrun.
Qed.

Lemma NoDup_DEFAULT_PLAN_SEEDS : NoDup (seed_id <$> DEFAULT_PLAN_SEEDS).
Proof.
  simpl. repeat (apply NoDup_cons; split;
                 [rewrite ?elem_of_cons, elem_of_nil; intros H;
                  repeat (destruct H as [H|H]; [discriminate H|]); done|]).
  apply NoDup_nil_2.
Qed.

(** Whatever the table holds, the loop writes to [plans] only, and fails
    with [IntegrityError] only; when it succeeds the seeded plans are
    stored with the values of their seeds. *)
Lemma ensure_plans_shape (seeds : list PlanSeed) s :
  NoDup (seed_id <$> seeds) →
  ∃ rows,
    (mapM ensure_plan seeds s
     = (Ok (plan_of_seed <$> seeds),
        {| live := set_plans (live s) rows; durable := durable s |})
     ∧ (∀ seed, seed ∈ seeds →
                ∃ i, get_plan (set_plans (live s) rows) (seed_id seed)
                     = Some (i, plan_of_seed seed))
     ∧ (∀ id, id ∉ seed_id <$> seeds →
              get_plan (set_plans (live s) rows) id = get_plan (live s) id))
    ∨ mapM ensure_plan seeds s
      = (Raise IntegrityError,
         {| live := set_plans (live s) rows; durable := durable s |}).
Proof.
  revert s. induction seeds as [|seed seeds IH]; intros s Hnd.
  { exists (plans (live s)). left. rewrite set_plans_eta, session_eta.
    split_and!; [done|by intros ? ?%elem_of_nil|done]. }
  apply NoDup_cons in Hnd as [Hfresh Hnd].
  cbn [mapM]. rewrite bind_run, ensure_plan_eq.
  destruct (clashes _ _ _).
  { eexists. by right. }
  destruct (ensure_plan_rows_spec seed (live s))
    as (Hin1 & Hout1 & _ & _ & _).
  destruct (IH {| live := set_plans (live s)
                            (ensure_plan_rows seed (live s));
                  durable := durable s |} Hnd)
    as (rows & [(Hrun & Hin & Hout)|Hrun]);
    exists rows; rewrite bind_run, Hrun; [left|by right].
  cbn [live durable] in *.
  change (set_plans (set_plans (live s) _) rows)
    with (set_plans (live s) rows) in *.
  split_and!; [done| |].
  - intros seed' [->|Hs]%elem_of_cons; [|by apply Hin].
    destruct Hin1 as [i Hi]. exists i. by rewrite Hout.
  - intros id Hnotin. rewrite fmap_cons in Hnotin.
    apply not_elem_of_cons in Hnotin as [Hne Hnotin].
    rewrite Hout by done. by apply Hout1.
Qed.

Lemma ensure_default_plans_run s :
  plans_seedable (live s) →
  ∃ rows,
    ensure_default_plans s
    = (Ok (plan_of_seed <$> DEFAULT_PLAN_SEEDS),
       {| live := set_plans (live s) rows; durable := durable s |})
    ∧ (∀ seed, seed ∈ DEFAULT_PLAN_SEEDS →
               ∃ i, get_plan (set_plans (live s) rows) (seed_id seed)
                    = Some (i, plan_of_seed seed))
    ∧ (∀ id, id ∉ seed_id <$> DEFAULT_PLAN_SEEDS →
             get_plan (set_plans (live s) rows) id = get_plan (live s) id)
    ∧ ((∀ seed, seed ∈ DEFAULT_PLAN_SEEDS →
                ∃ i, get_plan (live s) (seed_id seed)
                     = Some (i, plan_of_seed seed)) →
       rows = plans (live s))
    ∧ (length (plans (live s)) ≤ length rows
       ≤ length (plans (live s)) + 4)%nat
    ∧ plans_seedable (set_plans (live s) rows).
Proof.
  intros Hok.
  destruct (ensure_plans_run DEFAULT_PLAN_SEEDS s NoDup_DEFAULT_PLAN_SEEDS
              (λ _ H, H) Hok)
    as (rows & Hrun & Hin & Hout & Hid & Hlen & Hok').
  exists rows. split_and!; try done; try apply Hlen.
  unfold ensure_default_plans. by rewrite bind_run, Hrun.
Qed.

Lemma ensure_default_plans_shape s :
  ∃ rows,
    (ensure_default_plans s
     = (Ok (plan_of_seed <$> DEFAULT_PLAN_SEEDS),
        {| live := set_plans (live s) rows; durable := durable s |})
     ∧ (∀ seed, seed ∈ DEFAULT_PLAN_SEEDS →
                ∃ i, get_plan (set_plans (live s) rows) (seed_id seed)
                     = Some (i, plan_of_seed seed))
     ∧ (∀ id, id ∉ seed_id <$> DEFAULT_PLAN_SEEDS →
              get_plan (set_plans (live s) rows) id = get_plan (live s) id))
    ∨ ensure_default_plans s
      = (Raise IntegrityError,
         {| live := set_plans (live s) rows; durable := durable s |}).
Proof.
  destruct (ensure_plans_shape DEFAULT_PLAN_SEEDS s NoDup_DEFAULT_PLAN_SEEDS)
    as (rows & [(Hrun & Hin & Hout)|Hrun]);
    exists rows; unfold ensure_default_plans; rewrite bind_run, Hrun;
    [by left|by right].
Qed.

(** X8. [ensure_default_plans] is idempotent on a [plans] table that can
    take the seeds, and fails on one that cannot.  When no stored plan
    bears the name of a seed under another identifier (and identifiers are
    unique), the call succeeds: afterwards the four plans of
    [DEFAULT_PLAN_SEEDS] are in the table with the values of their seeds,
    whatever the rows with those identifiers held before; a plan with
    another identifier is left as it was, at most four rows are added and
    none removed, no other table changes and nothing is committed; a
    second call returns the same plans and changes nothing.  When a stored
    plan bears the name of a seed and its identifier is that of no seed,
    the unique constraint on [plans.name] refuses the write and the call
    fails with [IntegrityError]. *)
Theorem ensure_default_plans_is_idempotent s :
  (plans_seedable (live s) →
   ∃ rows,
     let s1 := {| live := set_plans (live s) rows; durable := durable s |} in
     ensure_default_plans s = (Ok (plan_of_seed <$> DEFAULT_PLAN_SEEDS), s1)
     ∧ (∀ seed, seed ∈ DEFAULT_PLAN_SEEDS →
                ∃ i, get_plan (live s1) (seed_id seed)
                     = Some (i, plan_of_seed seed))
     ∧ (∀ id, id ∉ seed_id <$> DEFAULT_PLAN_SEEDS →
              get_plan (live s1) id = get_plan (live s) id)
     ∧ (length (plans (live s)) ≤ length (plans (live s1))
        ≤ length (plans (live s)) + 4)%nat
     ∧ ensure_default_plans s1
       = (Ok (plan_of_seed <$> DEFAULT_PLAN_SEEDS), s1))
  ∧ (∀ p seed,
       p ∈ plans (live s) → seed ∈ DEFAULT_PLAN_SEEDS →
       Plan.name p = seed_name seed →
       Plan.id p ∉ seed_id <$> DEFAULT_PLAN_SEEDS →
       ∃ rows,
         ensure_default_plans s
         = (Raise IntegrityError,
            {| live := set_plans (live s) rows; durable := durable s |})).
Proof.
  split.
  - intros Hok.
    destruct (ensure_default_plans_run s Hok)
      as (rows & Hrun & Hin & Hout & _ & [Hlen1 Hlen2] & Hok').
    exists rows. cbn zeta. split_and!; try done.
    destruct (ensure_default_plans_run
                {| live := set_plans (live s) rows; durable := durable s |}
                Hok')
      as (rows' & Hrun' & _ & _ & Hid & _).
    rewrite Hrun'. cbn [live durable] in *.
    rewrite (Hid Hin). by rewrite set_plans_eta.
  - intros p seed [j Hj]%list_elem_of_lookup_1 Hs Hn Hid.
    destruct (ensure_plans_clash DEFAULT_PLAN_SEEDS s j p seed Hs Hj Hn Hid)
      as (rows & Hrun).
    exists rows. unfold ensure_default_plans. by rewrite bind_run, Hrun.
Qed.

(** ** Activating a plan *)

Lemma indexed_insert {A} (l : list A) i y :
  indexed (<[i:=y]> l)
  = (λ jr : nat * A, if decide (jr.1 = i) then (i, y) else jr) <$> indexed l.
Proof.
  apply list_eq. intros k. unfold indexed.
  rewrite list_lookup_fmap, !list_lookup_imap.
  destruct (decide (k = i)) as [->|Hne].
  - destruct (l !! i) as [x|] eqn:Hi.
    + rewrite list_lookup_insert_eq by (by eapply lookup_lt_Some).
      simpl. by rewrite decide_True.
    + rewrite list_insert_ge by (by apply lookup_ge_None). by rewrite Hi.
  - rewrite list_lookup_insert_ne by done.
    destruct (l !! k); simpl; [|done]. by rewrite decide_False.
Qed.

Lemma select_where_insert {A} (p : A → bool) (l : list A) i x y :
  l !! i = Some x → p y = p x →
  select_where p (<[i:=y]> l)
  = (λ jr : nat * A, if decide (jr.1 = i) then (i, y) else jr)
      <$> select_where p l.
Proof.
  intros Hi Hp. unfold select_where.
  rewrite indexed_insert, List_filter_fmap. f_equal.
  apply List.filter_ext_in. intros [k z] Hin%list_elem_of_In.
  apply elem_of_indexed in Hin. simpl.
  destruct (decide (k = i)) as [->|]; [|done]. simpl. congruence.
Qed.

Lemma select_where_snoc {A} (p : A → bool) (l : list A) x :
  select_where p (l ++ [x])
  = select_where p l ++ (if p x then [(length l, x)] else []).
Proof.
  unfold select_where, indexed. rewrite imap_app, List.filter_app.
  simpl. rewrite Nat.add_0_r. by destruct (p x).
Qed.

Lemma insert_by_fmap_in {A} (leb : A → A → bool) (g : A → A) x (l : list A) :
  (∀ b, b ∈ l → leb (g x) (g b) = leb x b) →
  insert_by leb (g x) (g <$> l) = g <$> insert_by leb x l.
Proof.
  induction l as [|b l IH]; intros Hg; [done|].
  simpl. rewrite Hg by (by left).
  destruct (leb x b); [done|]. simpl. f_equal.
  apply IH. intros c Hc. apply Hg. by right.
Qed.

Lemma order_by_fmap_in {A} (leb : A → A → bool) (g : A → A) (l : list A) :
  (∀ a b, a ∈ l → b ∈ l → leb (g a) (g b) = leb a b) →
  order_by leb (g <$> l) = g <$> order_by leb l.
Proof.
  induction l as [|x l IH]; intros Hg; [done|].
  change (order_by leb (g <$> x :: l))
    with (insert_by leb (g x) (order_by leb (g <$> l))).
  change (order_by leb (x :: l)) with (insert_by leb x (order_by leb l)).
  rewrite IH.
  - apply insert_by_fmap_in. intros b Hb%elem_of_order_by.
    apply Hg; [by left|by right].
  - intros a b Ha Hb. apply Hg; by right.
Qed.

Lemma order_by_nil_inv {A} (leb : A → A → bool) (l : list A) :
  first (order_by leb l) = None → l = [].
Proof.
  intros H. apply Permutation_nil_r. rewrite <- (order_by_Permutation leb l).
  by destruct (order_by leb l).
Qed.

Lemma first_order_by_elem {A} (leb : A → A → bool) (l : list A) x :
  first (order_by leb l) = Some x → x ∈ l.
Proof.
  intros H. apply (elem_of_order_by leb).
  destruct (order_by leb l); [done|]. injection H as ->. by left.
Qed.

(** The primary subscription after the row the query returned has been
    rewritten in place, keeping its creation time. *)
Lemma get_primary_subscription_stmt_insert user t i old sub :
  get_primary_subscription_stmt user t = Some (i, old) →
  UserSubscription.user_id sub = User.id user →
  UserSubscription.is_primary sub = true →
  subscription_status_open (UserSubscription.status sub) = true →
  UserSubscription.created_at sub = UserSubscription.created_at old →
  get_primary_subscription_stmt user
    (set_user_subscriptions t (<[i:=sub]> (user_subscriptions t)))
  = Some (i, sub).
Proof.
  intros Hq Hu Hp Hs Hc. unfold get_primary_subscription_stmt in *.
  cbn [user_subscriptions set_user_subscriptions].
  pose proof (first_order_by_elem _ _ _ Hq) as [Hi Hold]%elem_of_select_where.
  rewrite (select_where_insert _ _ _ old) by
    (by rewrite ?Hold, ?Hu, ?Hp, ?Hs, ?String.eqb_refl).
  rewrite order_by_fmap_in.
  - destruct (order_by _ _) as [|h tl]; [done|]. injection Hq as ->.
    simpl. by rewrite decide_True.
  - intros [j a] [k b] [Hj _]%elem_of_select_where
      [Hk _]%elem_of_select_where. simpl.
    destruct (decide (j = i)) as [->|], (decide (k = i)) as [->|];
      simplify_eq/=; by rewrite ?Hc.
Qed.

Lemma get_primary_subscription_stmt_snoc user t sub :
  get_primary_subscription_stmt user t = None →
  UserSubscription.user_id sub = User.id user →
  UserSubscription.is_primary sub = true →
  subscription_status_open (UserSubscription.status sub) = true →
  get_primary_subscription_stmt user
    (set_user_subscriptions t (user_subscriptions t ++ [sub]))
  = Some (length (user_subscriptions t), sub).
Proof.
  intros Hq Hu Hp Hs. unfold get_primary_subscription_stmt in *.
  cbn [user_subscriptions set_user_subscriptions].
  apply order_by_nil_inv in Hq.
  by rewrite select_where_snoc, Hq, Hu, Hp, Hs, String.eqb_refl.
Qed.


Lemma _upsert_allowance_renew env user plan ty total policy e source s i
    existing :
  _upsert_allowance_stmt user plan ty (live s) = Some (i, existing) →
  _upsert_allowance env user plan ty total policy e source s
  = (Ok (Allowance.reseed existing total policy e),
     {| live :=
          set_allowances
            (set_rollover_buckets (live s)
               (rollover_buckets (live s)
                ++ if (0 <? Z.max (Allowance.total existing
                                   - Allowance.used existing) 0)
                      && negb (RolloverPolicy_eqb policy NONE)
                   then [ {| RolloverBucket.id := uuid4 env 0;
                             RolloverBucket.user_id := User.id user;
                             RolloverBucket.allowance_id :=
                               Allowance.id existing;
                             RolloverBucket.remain :=
                               Z.max (Allowance.total existing
                                      - Allowance.used existing) 0;
                             RolloverBucket.expires_at :=
                               Some (_calculate_rollover_expiry e policy);
                             RolloverBucket.created_at := utcnow env |} ]
                   else []))
            (<[i := Allowance.reseed existing total policy e]>
               (allowances (live s)));
        durable := durable s |}).
Proof.
  intros Hq. unfold _upsert_allowance. rewrite bind_run, query_run, Hq.
  destruct (_ && _); [done|].
  rewrite app_nil_r. by destruct s as [[] ?].
Qed.

Lemma _upsert_allowance_new env user plan ty total policy e source s :
  _upsert_allowance_stmt user plan ty (live s) = None →
  _upsert_allowance env user plan ty total policy e source s
  = grant_allowance env user (Some plan) ty total MONTHLY policy (Some e)
      (Some source) s.
Proof.
  intros Hq. unfold _upsert_allowance. by rewrite bind_run, query_run, Hq.
Qed.

Lemma AllowanceType_eqb_eq a b : AllowanceType_eqb a b = true ↔ a = b.
Proof. by destruct a, b. Qed.

(** The row [_upsert_allowance] inserts cannot clash: its query has
    found no allowance of the user for the plan and type. *)
Lemma _upsert_allowance_key_free user plan ty source t :
  _upsert_allowance_stmt user plan ty t = None →
  allowance_key_taken user (Some plan) ty source t = false.
Proof.
  intros Hq. unfold _upsert_allowance_stmt in Hq.
  pose proof (proj1 (first_select_where_None _ _) Hq) as Hnone.
  unfold allowance_key_taken. apply not_true_is_false.
  intros [b [Hb%list_elem_of_In Hk]]%existsb_exists.
  specialize (Hnone b Hb). simpl in *.
  apply andb_true_iff in Hk as [[[Hu Hp]%andb_true_iff Ht]%andb_true_iff _].
  apply String.eqb_eq in Hu. rewrite <- Hu, String.eqb_refl in Hnone.
  destruct (Allowance.plan_id b) as [pid|]; [|done]. simpl in *.
  apply String.eqb_eq in Hp. rewrite <- Hp, String.eqb_refl in Hnone.
  apply AllowanceType_eqb_eq in Ht. rewrite <- Ht in Hnone.
  by destruct ty.
Qed.

(** What one [_upsert_allowance] of [activate_plan] does to the tables. *)
Lemma _upsert_allowance_run env user plan ty total policy e source s :
  0 < total →
  ∃ a als new i,
    _upsert_allowance env user plan ty total policy e source s
    = (Ok a,
       {| live := set_allowances
                    (set_rollover_buckets (live s)
                       (rollover_buckets (live s) ++ new)) als;
          durable := durable s |})
    ∧ Forall (λ b, 0 < RolloverBucket.remain b) new
    ∧ first (select_where (upsert_matches user plan ty) als) = Some (i, a)
    ∧ Allowance.total a = total ∧ Allowance.used a = 0
    ∧ Allowance.expires_at a = Some e
    ∧ Allowance.rollover_policy a = policy
    ∧ (∀ j x, allowances (live s) !! j = Some x →
              upsert_matches user plan ty x = false → als !! j = Some x)
    ∧ (∀ j x, als !! j = Some x →
              upsert_matches user plan ty x = false →
              allowances (live s) !! j = Some x)
    ∧ (length (allowances (live s)) ≤ length als)%nat
    ∧ (Forall (λ a, Allowance.used a ≤ Allowance.total a)
         (allowances (live s)) →
       Forall (λ a, Allowance.used a ≤ Allowance.total a) als).
Proof.
  intros Ht.
  destruct (_upsert_allowance_stmt user plan ty (live s))
    as [[i existing]|] eqn:Hq.
  - rewrite (_upsert_allowance_renew _ _ _ _ _ _ _ _ _ _ _ Hq).
    eexists _, _, _, i. split; [reflexivity|].
    unfold _upsert_allowance_stmt in Hq.
    change (λ a : Allowance.t, _) with (upsert_matches user plan ty) in Hq.
    pose proof Hq as (Hi & Hp & _)%first_select_where_Some.
    split_and!; try done.
    + destruct (_ && _) eqn:Hc; [|constructor].
      apply andb_true_iff in Hc as [Hc%Z.ltb_lt _].
      by repeat constructor.
    + rewrite (first_select_where_insert _ _ _ existing) by done.
      rewrite Hq. simpl. by rewrite decide_True.
    + intros j x Hj Hx. rewrite list_lookup_insert_ne; [done|].
      intros <-. congruence.
    + intros j x Hj Hx. destruct (decide (j = i)) as [->|Hne].
      * rewrite list_lookup_insert_eq in Hj by (by eapply lookup_lt_Some).
        injection Hj as <-. unfold upsert_matches in *. simpl in *.
        congruence.
      * by rewrite list_lookup_insert_ne in Hj.
    + by rewrite length_insert.
    + intros Hok. apply Forall_insert; [done|]. simpl. lia.
  - rewrite (_upsert_allowance_new _ _ _ _ _ _ _ _ _ Hq).
    rewrite grant_allowance_run by done.
    rewrite (_upsert_allowance_key_free _ _ _ _ _ Hq).
    set (a := new_allowance env user (Some plan) ty total MONTHLY policy
                (Some e) (Some source)).
    assert (a = new_allowance env user (Some plan) ty total MONTHLY policy
                  (Some e) (Some source)) as Ea by done.
    clearbody a. unfold new_allowance in Ea.
    exists a, (allowances (live s) ++ [a]), [],
      (length (allowances (live s))).
    unfold _upsert_allowance_stmt in Hq.
    change (λ a : Allowance.t, _) with (upsert_matches user plan ty) in Hq.
    split_and!; try (by rewrite Ea).
    + rewrite app_nil_r. by destruct s as [[] ?].
    + constructor.
    + rewrite first_select_where_snoc, Hq, Ea. unfold upsert_matches.
      simpl. rewrite !String.eqb_refl.
      by assert (AllowanceType_eqb ty ty = true) as -> by (by destruct ty).
    + intros j x Hj _. by apply lookup_app_l_Some.
    + intros j x Hj Hx.
      apply lookup_app_Some in Hj as [Hj|[_ Hj]]; [done|].
      destruct (j - _)%nat; [|done]. injection Hj as <-.
      rewrite Ea in Hx. unfold upsert_matches in Hx. simpl in Hx.
      rewrite !String.eqb_refl in Hx.
      by assert (AllowanceType_eqb ty ty = true) as E by (by destruct ty);
        rewrite E in Hx.
    + rewrite length_app. lia.
    + intros Hok. apply Forall_app. split; [done|].
      apply Forall_singleton. rewrite Ea. simpl. lia.
Qed.

Lemma first_select_where_stable {A} (p : A → bool) (l l' : list A) :
  (∀ j x, l !! j = Some x → p x = true → l' !! j = Some x) →
  (∀ j x, l' !! j = Some x → p x = true → l !! j = Some x) →
  first (select_where p l') = first (select_where p l).
Proof.
  intros H1 H2.
  destruct (first (select_where p l)) as [[i x]|] eqn:Hq.
  - apply first_select_where_Some in Hq as (Hi & Hp & Hmin).
    apply first_select_where_Some. split_and!; [by apply H1|done|].
    intros j y Hj Hlt. destruct (p y) eqn:Hy; [|done].
    rewrite <- (Hmin j y); [done|by apply H2|done].
  - pose proof (proj1 (first_select_where_None _ _) Hq) as Hnone.
    apply first_select_where_None.
    intros y [j Hj]%list_elem_of_lookup_1.
    destruct (p y) eqn:Hy; [|done].
    rewrite <- (Hnone y); [done|].
    eapply list_elem_of_lookup_2. by apply H2.
Qed.

Lemma upsert_matches_type user plan ty x :
  upsert_matches user plan ty x = true → Allowance.type x = ty.
Proof.
  unfold upsert_matches. by intros [_ ?%AllowanceType_eqb_eq]%andb_true_iff.
Qed.

(** What the loop of [activate_plan] does to the tables. *)
Lemma seed_allowances_run env user plan
    (specs : list (AllowanceType * Z * RolloverPolicy)) e source s :
  ∃ als new,
    seed_allowances env user plan specs e source s
    = (Ok tt,
       {| live := set_allowances
                    (set_rollover_buckets (live s)
                       (rollover_buckets (live s) ++ new)) als;
          durable := durable s |})
    ∧ Forall (λ b, 0 < RolloverBucket.remain b) new
    ∧ (length (allowances (live s)) ≤ length als)%nat
    ∧ (Forall (λ a, Allowance.used a ≤ Allowance.total a)
         (allowances (live s)) →
       Forall (λ a, Allowance.used a ≤ Allowance.total a) als)
    ∧ (∀ j x, allowances (live s) !! j = Some x →
              (∀ ty total policy, (ty, total, policy) ∈ specs → 0 < total →
                                  upsert_matches user plan ty x = false) →
              als !! j = Some x)
    ∧ (∀ j x, als !! j = Some x →
              (∀ ty total policy, (ty, total, policy) ∈ specs → 0 < total →
                                  upsert_matches user plan ty x = false) →
              allowances (live s) !! j = Some x)
    ∧ (NoDup specs.*1.*1 →
       ∀ ty total policy, (ty, total, policy) ∈ specs → 0 < total →
         ∃ i a,
           first (select_where (upsert_matches user plan ty) als)
           = Some (i, a)
           ∧ Allowance.total a = total ∧ Allowance.used a = 0
           ∧ Allowance.expires_at a = Some e
           ∧ Allowance.rollover_policy a = policy).
Proof.
  revert env s. induction specs as [|[[ty total] policy] specs IH];
    intros env s.
  { exists (allowances (live s)), []. rewrite app_nil_r.
    split_and!; try done.
    - by destruct s as [[] ?].
    - by intros _ ??? ?%elem_of_nil. }
  cbn [seed_allowances].
  destruct (Z.leb_spec total 0) as [Hle|Hlt].
  - destruct (IH (env_skip 1 env) s)
      as (als & new & Hrun & Hnew & Hlen & Hok & Hkeep & Hback & Hrows).
    exists als, new. rewrite bind_run. simpl. rewrite Hrun.
    split_and!; try done.
    + intros j x Hj Hx. apply Hkeep; [done|].
      intros ty' total' policy' Hin. apply (Hx ty' total' policy'). by right.
    + intros j x Hj Hx. apply Hback; [done|].
      intros ty' total' policy' Hin. apply (Hx ty' total' policy'). by right.
    + intros [_ Hnd]%NoDup_cons ty' total' policy'
        [[= -> -> ->]|Hin]%elem_of_cons Hpos; [lia|].
      by eapply Hrows.
  - destruct (_upsert_allowance_run env user plan ty total policy e source s
                Hlt)
      as (a & als1 & new1 & i & Hrun1 & Hnew1 & Hq1 & Ht1 & Hu1 & He1 & Hp1
          & Hkeep1 & Hback1 & Hlen1 & Hok1).
    destruct (IH (env_skip 1 env)
                {| live := set_allowances
                             (set_rollover_buckets (live s)
                                (rollover_buckets (live s) ++ new1)) als1;
                   durable := durable s |})
      as (als & new & Hrun & Hnew & Hlen & Hok & Hkeep & Hback & Hrows).
    cbn [live durable allowances rollover_buckets set_allowances
           set_rollover_buckets] in *.
    exists als, (new1 ++ new).
    split_and!.
    + rewrite !bind_run, Hrun1. simpl. rewrite Hrun.
      by rewrite <- app_assoc.
    + by apply Forall_app.
    + lia.
    + auto.
    + intros j x Hj Hx. apply Hkeep.
      * apply Hkeep1; [done|]. apply (Hx ty total policy); [by left|done].
      * intros ty' total' policy' Hin. apply (Hx ty' total' policy'). by right.
    + intros j x Hj Hx. apply Hback1.
      * apply Hback; [done|].
        intros ty' total' policy' Hin. apply (Hx ty' total' policy'). by right.
      * apply (Hx ty total policy); [by left|done].
    + intros [Hfresh Hnd]%NoDup_cons ty' total' policy'
        [[= -> -> ->]|Hin]%elem_of_cons Hpos.
      * exists i, a. split_and!; try done.
        rewrite <- Hq1. apply first_select_where_stable.
        -- intros j x Hj Hx. apply Hkeep; [done|].
           intros ty' total' policy' Hin _.
           destruct (upsert_matches user plan ty' x) eqn:Hx'; [|done].
           apply upsert_matches_type in Hx, Hx'. subst.
           exfalso. apply Hfresh. simpl.
           apply list_elem_of_fmap. exists (Allowance.type x, total').
           split; [done|]. apply list_elem_of_fmap.
           by exists (Allowance.type x, total', policy').
        -- intros j x Hj Hx. apply Hback; [done|].
           intros ty' total' policy' Hin _.
           destruct (upsert_matches user plan ty' x) eqn:Hx'; [|done].
           apply upsert_matches_type in Hx, Hx'. subst.
           exfalso. apply Hfresh. simpl.
           apply list_elem_of_fmap. exists (Allowance.type x, total').
           split; [done|]. apply list_elem_of_fmap.
           by exists (Allowance.type x, total', policy').
      * by eapply Hrows.
Qed.

Lemma activated_plan_id plan t : Plan.id (activated_plan plan t) = Plan.id plan.
Proof.
  unfold activated_plan, get_plan.
  destruct (first _) as [[i stored]|] eqn:Hq; [|done].
  apply first_select_where_Some in Hq as (_ & Hid%String.eqb_eq & _).
  destruct (List.find _ _) as [seed|] eqn:Hf; [|done].
  by apply List.find_some in Hf as [_ ?%String.eqb_eq].
Qed.

(** [activate_plan], step by step: it stops at the first of the
    [IntegrityError] of [ensure_default_plans], the exception of the
    conversion to [int], and the [IntegrityError] of the subscription;
    the loop over the allowances does not fail. *)
Lemma activate_plan_cases config env user plan source s :
  ∃ rows,
    let plan' := activated_plan plan (live s) in
    let found := get_primary_subscription_stmt user (live s) in
    let subscription := activated_subscription env user plan' source found in
    let subs :=
      match found with
      | Some (i, _) => <[i := subscription]> (user_subscriptions (live s))
      | None => user_subscriptions (live s) ++ [subscription]
      end in
    let row :=
      match found with
      | Some (i, _) => i
      | None => length (user_subscriptions (live s))
      end in
    let s0 :=
      {| live := set_user_subscriptions (set_plans (live s) rows) subs;
         durable := durable s |} in
    (ensure_default_plans s
     = (Raise IntegrityError,
        {| live := set_plans (live s) rows; durable := durable s |})
     ∧ activate_plan config env user plan source s
       = (Raise IntegrityError,
          {| live := set_plans (live s) rows; durable := durable s |}))
    ∨ (ensure_default_plans s
       = (Ok (plan_of_seed <$> DEFAULT_PLAN_SEEDS),
          {| live := set_plans (live s) rows; durable := durable s |})
       ∧ activate_plan config env user plan source s
         = match usage_total_of config plan' with
           | Raise e => (Raise e, s0)
           | Ok usage_total =>
               if clashes UserSubscription_same_key subs row
               then (Raise IntegrityError, s0)
               else
                 (Ok subscription,
                  exec (seed_allowances (env_skip 1 env) user plan'
                          (allowance_specs_of plan' usage_total)
                          (utcnow env + timedelta_days 30) source) s0)
           end).
Proof.
  destruct (ensure_default_plans_shape s)
    as (rows & [(Hens & Hin & Hout)|Hens]); exists rows; cbn zeta.
  2:{ left. split; [done|]. unfold activate_plan.
      by rewrite bind_run, query_run, bind_run, Hens. }
  right. split; [done|].
  set (plan' := activated_plan plan (live s)).
  set (found := get_primary_subscription_stmt user (live s)).
  set (subscription := activated_subscription env user plan' source found).
  set (subs := match found with
               | Some (i, _) =>
                   <[i := subscription]> (user_subscriptions (live s))
               | None => user_subscriptions (live s) ++ [subscription]
               end).
  set (row := match found with
              | Some (i, _) => i
              | None => length (user_subscriptions (live s))
              end).
  unfold activate_plan.
  rewrite bind_run, query_run, bind_run, Hens, bind_run, query_run.
  cbn [live durable].
  assert (match get_plan (live s) (Plan.id plan) with
          | Some _ =>
              default plan
                (snd <$> get_plan (set_plans (live s) rows) (Plan.id plan))
          | None => plan
          end = plan') as ->.
  { unfold plan', activated_plan.
    destruct (get_plan (live s) (Plan.id plan)) as [[i stored]|] eqn:Hq;
      [|done].
    destruct (List.find _ _) as [seed|] eqn:Hf.
    - apply List.find_some in Hf as [Hs%list_elem_of_In Hid%String.eqb_eq].
      destruct (Hin seed Hs) as [j Hj]. rewrite <- Hid, Hj. done.
    - rewrite Hout, Hq; [done|].
      intros [seed [Hid Hs]]%list_elem_of_fmap.
      pose proof (List.find_none _ _ Hf seed
                    (proj1 (list_elem_of_In _ _) Hs)) as Hne.
      simpl in Hne. rewrite <- Hid, String.eqb_refl in Hne. done. }
  rewrite bind_run. unfold get_primary_subscription. rewrite query_run.
  cbn [live durable].
  change (get_primary_subscription_stmt user (set_plans (live s) rows))
    with found.
  assert (∀ (c : bool) (x : Z),
            match (if c then None else Some x) with
            | Some _ => TRIALING
            | None => ACTIVE
            end = if c then ACTIVE else TRIALING) as Hst by (by intros []).
  rewrite Hst.
  change {| UserSubscription.id := _; UserSubscription.created_at := _ |}
    with subscription.
  rewrite bind_run, query_run. cbn [live durable user_subscriptions set_plans].
  fold row.
  rewrite bind_run. unfold mutate at 1.
  cbn [live durable user_subscriptions set_plans]. fold subs.
  rewrite bind_run. unfold lift at 1.
  change (int_of_product _ _) with (usage_total_of config plan').
  destruct (usage_total_of config plan') as [usage_total|e]; [|done].
  change (_ ++ (if _ <? _ then _ else _))
    with (allowance_specs_of plan' usage_total).
  rewrite bind_run. unfold flush_row at 1.
  cbn [live durable user_subscriptions set_user_subscriptions].
  destruct (clashes UserSubscription_same_key subs row); [done|].
  rewrite bind_run. unfold exec.
  destruct (seed_allowances_run (env_skip 1 env) user plan'
              (allowance_specs_of plan' usage_total)
              (utcnow env + timedelta_days 30) source
              {| live := set_user_subscriptions (set_plans (live s) rows)
                           subs;
                 durable := durable s |})
    as (als & new & -> & _).
  done.
Qed.

(** The subscription [activate_plan] writes is the only one of its user
    on its plan when the table held no other before. *)
Lemma membership_free_no_clash env user plan plan' source t :
  Plan.id plan' = Plan.id plan →
  membership_free user plan t →
  let found := get_primary_subscription_stmt user t in
  let subscription := activated_subscription env user plan' source found in
  clashes UserSubscription_same_key
    match found with
    | Some (i, _) => <[i := subscription]> (user_subscriptions t)
    | None => user_subscriptions t ++ [subscription]
    end
    match found with
    | Some (i, _) => i
    | None => length (user_subscriptions t)
    end
  = false.
Proof.
  intros Hid Hfree. cbn zeta.
  set (subscription := activated_subscription env user plan' source _).
  assert (∀ j y, user_subscriptions t !! j = Some y →
                 UserSubscription_same_key subscription y = true →
                 get_primary_subscription_stmt user t = Some (j, y))
    as Hkey.
  { intros j y Hj [Hu%String.eqb_eq Hp%String.eqb_eq]%andb_true_iff.
    simpl in Hu, Hp. apply Hfree; [done|done|congruence]. }
  destruct (get_primary_subscription_stmt user t) as [[i old]|] eqn:Hq.
  - pose proof (first_order_by_elem _ _ _ Hq)
      as [Hi _]%elem_of_select_where.
    apply (clashes_false _ _ _ subscription).
    { apply list_lookup_insert_eq. by eapply lookup_lt_Some. }
    intros j y Hj Hne. rewrite list_lookup_insert_ne in Hj by done.
    apply not_true_is_false. intros Hk.
    specialize (Hkey j y Hj Hk). congruence.
  - rewrite clashes_snoc. apply not_true_is_false.
    intros [y [[j Hj]%list_elem_of_In%list_elem_of_lookup_1 Hk]]%existsb_exists.
    by specialize (Hkey j y Hj Hk).
Qed.

(** Another subscription of the user on the plan refuses the one
    [activate_plan] writes. *)
Lemma membership_clash env user plan plan' source t j row :
  Plan.id plan' = Plan.id plan →
  user_subscriptions t !! j = Some row →
  UserSubscription.user_id row = User.id user →
  UserSubscription.plan_id row = Plan.id plan →
  get_primary_subscription_stmt user t ≠ Some (j, row) →
  let found := get_primary_subscription_stmt user t in
  let subscription := activated_subscription env user plan' source found in
  clashes UserSubscription_same_key
    match found with
    | Some (i, _) => <[i := subscription]> (user_subscriptions t)
    | None => user_subscriptions t ++ [subscription]
    end
    match found with
    | Some (i, _) => i
    | None => length (user_subscriptions t)
    end
  = true.
Proof.
  intros Hid Hj Hu Hp Hne. cbn zeta.
  set (subscription := activated_subscription env user plan' source _).
  assert (UserSubscription_same_key subscription row = true) as Hk.
  { unfold UserSubscription_same_key. simpl.
    by rewrite Hu, Hp, Hid, !String.eqb_refl. }
  destruct (get_primary_subscription_stmt user t) as [[i old]|] eqn:Hq.
  - pose proof (first_order_by_elem _ _ _ Hq)
      as [Hi _]%elem_of_select_where.
    assert (j ≠ i) as Hji by (intros ->; congruence).
    apply (clashes_true _ _ _ subscription j row); [| |done|done].
    + apply list_lookup_insert_eq. by eapply lookup_lt_Some.
    + by rewrite list_lookup_insert_ne.
  - apply (clashes_true _ _ _ subscription j row); [| | |done].
    + by rewrite lookup_app_r, Nat.sub_diag.
    + by apply lookup_app_l_Some.
    + apply lookup_lt_Some in Hj. lia.
Qed.

(** [activate_plan] when nothing stands in its way. *)
Lemma activate_plan_run config env user plan source s usage_total :
  plans_seedable (live s) →
  membership_free user plan (live s) →
  usage_total_of config (activated_plan plan (live s)) = Ok usage_total →
  ∃ rows als new,
    let plan' := activated_plan plan (live s) in
    let found := get_primary_subscription_stmt user (live s) in
    let subscription := activated_subscription env user plan' source found in
    let subs :=
      match found with
      | Some (i, _) => <[i := subscription]> (user_subscriptions (live s))
      | None => user_subscriptions (live s) ++ [subscription]
      end in
    let s0 :=
      {| live := set_user_subscriptions (set_plans (live s) rows) subs;
         durable := durable s |} in
    activate_plan config env user plan source s
    = (Ok subscription,
       {| live := set_allowances
                    (set_rollover_buckets (live s0)
                       (rollover_buckets (live s) ++ new)) als;
          durable := durable s |})
    ∧ ensure_default_plans s
      = (Ok (plan_of_seed <$> DEFAULT_PLAN_SEEDS),
         {| live := set_plans (live s) rows; durable := durable s |})
    ∧ seed_allowances (env_skip 1 env) user plan'
        (allowance_specs_of plan' usage_total)
        (utcnow env + timedelta_days 30) source s0
      = (Ok tt,
         {| live := set_allowances
                      (set_rollover_buckets (live s0)
                         (rollover_buckets (live s) ++ new)) als;
            durable := durable s |}).
Proof.
  intros Hok Hfree Hu.
  destruct (activate_plan_cases config env user plan source s)
    as (rows & Hcases).
  cbn zeta in Hcases.
  destruct (ensure_default_plans_run s Hok) as (rows' & Hens & _).
  destruct Hcases as [[Hens' _]|[Hens' Hrun]]; [congruence|].
  rewrite Hu in Hrun.
  rewrite (membership_free_no_clash env user plan _ source (live s)
             (activated_plan_id plan (live s)) Hfree) in Hrun.
  exists rows.
  match type of Hrun with
  | _ = (_, exec (seed_allowances ?env ?user ?plan ?specs ?e ?source) ?s0) =>
      destruct (seed_allowances_run env user plan specs e source s0)
        as (als & new & Hseed & _)
  end.
  exists als, new. cbn zeta. unfold exec in Hrun. rewrite Hseed in Hrun.
  split_and!; [exact Hrun|exact Hens'|exact Hseed].
Qed.

(** X9. [activate_plan] succeeds when nothing in the tables refuses its
    writes: the [plans] table can take the seeds, the conversion of the
    usage quota to [int] succeeds, and the user has no subscription on the
    plan other than the primary one the call finds.  It does not commit.
    The subscription it returns is on the requested plan, open and
    primary, with a period of thirty days from the time of the call, and
    it is the primary subscription of the user in the session it leaves.
    When the user had a primary subscription, that row is rewritten in
    place, keeping its identifier and creation time, so activating again
    never adds a second row; otherwise one row is appended.  When the
    user has another subscription on the plan (a canceled one, say, which
    the lookup of the primary subscription skips), the unique constraint
    on (user, plan) refuses the write and the call fails with
    [IntegrityError].  (Integers are not bounded in the model; the flush
    of the source refuses a quota beyond [INTEGER_MAX].) *)
Theorem activate_plan_sets_primary_subscription config env user plan source
    s usage_total :
  plans_seedable (live s) →
  usage_total_of config (activated_plan plan (live s)) = Ok usage_total →
  Forall (λ spec : AllowanceType * Z * RolloverPolicy,
            spec.1.2 ≤ INTEGER_MAX)
    (allowance_specs_of (activated_plan plan (live s)) usage_total) →
  (membership_free user plan (live s) →
   ∃ subscription s1 i,
     activate_plan config env user plan source s = (Ok subscription, s1)
     ∧ get_primary_subscription_stmt user (live s1) = Some (i, subscription)
     ∧ UserSubscription.user_id subscription = User.id user
     ∧ UserSubscription.plan_id subscription = Plan.id plan
     ∧ UserSubscription.is_primary subscription = true
     ∧ subscription_status_open (UserSubscription.status subscription) = true
     ∧ UserSubscription.current_period_start subscription = utcnow env
     ∧ UserSubscription.current_period_end subscription
       = Some (utcnow env + timedelta_days 30)
     ∧ match get_primary_subscription_stmt user (live s) with
       | Some (j, old) =>
           i = j
           ∧ user_subscriptions (live s1)
             = <[j := subscription]> (user_subscriptions (live s))
           ∧ UserSubscription.id subscription = UserSubscription.id old
           ∧ UserSubscription.created_at subscription
             = UserSubscription.created_at old
       | None =>
           user_subscriptions (live s1)
           = user_subscriptions (live s) ++ [subscription]
           ∧ UserSubscription.id subscription = uuid4 env 0
       end
     ∧ durable s1 = durable s)
  ∧ (∀ j row,
       user_subscriptions (live s) !! j = Some row →
       UserSubscription.user_id row = User.id user →
       UserSubscription.plan_id row = Plan.id plan →
       get_primary_subscription_stmt user (live s) ≠ Some (j, row) →
       ∃ s1,
         activate_plan config env user plan source s
         = (Raise IntegrityError, s1)
         ∧ durable s1 = durable s).
Proof.
  intros Hok Hu _. split.
  - intros Hfree.
    destruct (activate_plan_run config env user plan source s usage_total
                Hok Hfree Hu)
      as (rows & als & new & Hrun & _ & _).
    cbn zeta in Hrun.
    set (subscription :=
           activated_subscription env user (activated_plan plan (live s))
             source (get_primary_subscription_stmt user (live s))) in *.
    assert (subscription_status_open (UserSubscription.status subscription)
            = true) as Hopen.
    { unfold subscription. simpl. by destruct (_ =? _). }
    destruct (get_primary_subscription_stmt user (live s))
      as [[j old]|] eqn:Hq.
    + eexists subscription, _, j. split; [exact Hrun|].
      cbn [live durable].
      split_and!; try done; [|apply activated_plan_id].
      by apply (get_primary_subscription_stmt_insert user (live s) j old).
    + eexists subscription, _, _. split; [exact Hrun|].
      cbn [live durable].
      split_and!; try done; [|apply activated_plan_id].
      by apply (get_primary_subscription_stmt_snoc user (live s)).
  - intros j row Hj Hur Hpr Hne.
    destruct (activate_plan_cases config env user plan source s)
      as (rows & Hcases).
    cbn zeta in Hcases.
    destruct (ensure_default_plans_run s Hok) as (rows' & Hens & _).
    destruct Hcases as [[Hens' _]|[_ Hrun]]; [congruence|].
    rewrite Hu in Hrun.
    rewrite (membership_clash env user plan _ source (live s) j row
               (activated_plan_id plan (live s)) Hj Hur Hpr Hne) in Hrun.
    eexists. split; [exact Hrun|done].
Qed.

Lemma upsert_matches_activated user plan t ty x :
  upsert_matches user (activated_plan plan t) ty x
  = upsert_matches user plan ty x.
Proof. unfold upsert_matches. by rewrite activated_plan_id. Qed.

Lemma NoDup_allowance_specs_of plan usage_total :
  NoDup (allowance_specs_of plan usage_total).*1.*1.
Proof.
  unfold allowance_specs_of. destruct (0 <? _); simpl;
    repeat (apply NoDup_cons; split;
            [rewrite ?elem_of_cons, elem_of_nil; intros H;
             repeat (destruct H as [H|H]; [discriminate H|]); done|]);
    apply NoDup_nil_2.
Qed.

(** X10. [activate_plan] keeps the invariants of the ledger: afterwards
    every allowance still has [used ≤ total] and every bucket
    [remain ≥ 0].  No rollover bucket is removed or changed (buckets are
    only appended), and an allowance of another user or of another plan is
    left exactly as it was. *)
Theorem activate_plan_keeps_balances_in_bounds config env user plan source s :
  ledger_ok (live s) →
  ledger_ok (live (exec (activate_plan config env user plan source) s))
  ∧ rollover_buckets (live s)
      `prefix_of`
      rollover_buckets
        (live (exec (activate_plan config env user plan source) s))
  ∧ (∀ j x,
       allowances (live s) !! j = Some x →
       Allowance.user_id x ≠ User.id user
       ∨ Allowance.plan_id x ≠ Some (Plan.id plan) →
       allowances (live (exec (activate_plan config env user plan source) s))
         !! j = Some x).
Proof.
  intros [Hu Hb].
  destruct (activate_plan_cases config env user plan source s)
    as (rows & Hcases).
  cbn zeta in Hcases. unfold exec at 1 2 3.
  destruct Hcases as [[_ ->]|[_ ->]]; [by repeat split|].
  destruct (usage_total_of config (activated_plan plan (live s)))
    as [usage_total|e]; [|by repeat split].
  destruct (clashes _ _ _); [by repeat split|].
  cbn [snd].
  match goal with
  | |- context [exec (seed_allowances ?env ?user ?plan ?specs ?e ?source) ?s0]
    => destruct (seed_allowances_run env user plan specs e source s0)
        as (als & new & Hseed & Hnew & _ & Hok & Hkeep & _)
  end.
  unfold exec. rewrite Hseed.
  cbn [snd live allowances rollover_buckets set_allowances
         set_rollover_buckets set_user_subscriptions set_plans] in *.
  split_and!.
  - split; cbn [allowances rollover_buckets set_allowances
                  set_rollover_buckets]; [auto|].
    apply Forall_app. split; [done|].
    eapply Forall_impl; [exact Hnew|]. intros b ?. simpl in *. lia.
  - by apply prefix_app_r.
  - intros j x Hj Hx. apply Hkeep; [done|].
    intros ty total policy _ _. rewrite upsert_matches_activated.
    unfold upsert_matches.
    destruct Hx as [Hx|Hx].
    + by rewrite (proj2 (String.eqb_neq _ _)).
    + destruct (Allowance.plan_id x) as [pid|]; simpl.
      * rewrite (proj2 (String.eqb_neq pid (Plan.id plan))) by congruence.
        by rewrite andb_false_r.
      * by rewrite andb_false_r.
Qed.

(** X11. When [activate_plan] succeeds (the [plans] table can take the
    seeds, the user has no other subscription on the plan, the usage quota
    converts to [int]), then for each credit type whose quota on the
    activated plan is positive (build and run credits from [bc_monthly]
    and [rc_monthly]; usage credits from [int(rc_monthly * rate)], the
    product of binary floating point, so that 100 run credits at a rate of
    0.29 give 28 usage credits), the allowance of the user for that plan
    and type holds the full quota with nothing used, expires with the
    period, and is eligible for consumption at once.  A plan held in the
    session under the identifier of a default seed is activated with the
    values of the seed, whatever its row held before; a plan that is not in
    the session is activated with its own values.  (Integers are not
    bounded in the model; the flush of the source refuses a quota beyond
    [INTEGER_MAX].) *)
Theorem activate_plan_grants_the_plan_quota config env user plan source s
    usage_total ty total policy :
  plans_seedable (live s) →
  membership_free user plan (live s) →
  usage_total_of config (activated_plan plan (live s)) = Ok usage_total →
  (ty, total, policy)
    ∈ allowance_specs_of (activated_plan plan (live s)) usage_total →
  0 < total ≤ INTEGER_MAX →
  (∃ i a,
     _upsert_allowance_stmt user plan ty
       (live (exec (activate_plan config env user plan source) s))
     = Some (i, a)
     ∧ Allowance.total a = total ∧ Allowance.used a = 0
     ∧ Allowance.expires_at a = Some (utcnow env + timedelta_days 30)
     ∧ Allowance.rollover_policy a = policy
     ∧ allowance_eligible env user ty a = true)
  ∧ (get_plan (live s) (Plan.id plan) = None →
     activated_plan plan (live s) = plan)
  ∧ (∀ seed, seed ∈ DEFAULT_PLAN_SEEDS → seed_id seed = Plan.id plan →
             get_plan (live s) (Plan.id plan) ≠ None →
             activated_plan plan (live s) = plan_of_seed seed)
  ∧ usage_total_of config
      {| Plan.id := "plan-1"; Plan.name := "Sample"; Plan.bc_monthly := 0;
         Plan.rc_monthly := 100; Plan.usage_bonus_rate := Some (29 # 100)%Q;
         Plan.trial_days := 0; Plan.shared_mode := SHARED_POOL;
         Plan.payg_enabled := true; Plan.is_active := true |}
    = Ok 28.
Proof.
  intros Hseedable Hfree Hut Hin [Hpos _]. split_and!.
  - destruct (activate_plan_run config env user plan source s usage_total
                Hseedable Hfree Hut)
      as (rows & als & new & Hrun & _ & Hseed).
    cbn zeta in *. unfold exec. rewrite Hrun. cbn [snd live].
    match type of Hseed with
    | seed_allowances ?env ?user ?plan ?specs ?e ?source ?s0 = _ =>
        destruct (seed_allowances_run env user plan specs e source s0)
          as (als' & new' & Hseed' & _ & _ & _ & _ & _ & Hrows)
    end.
    rewrite Hseed in Hseed'. injection Hseed' as Hals Hn%app_inv_head.
    subst als' new'.
    destruct (Hrows (NoDup_allowance_specs_of _ _) ty total policy Hin Hpos)
      as (i & a & Hq & Ht & Hu & He & Hp).
    exists i, a. split_and!; try done.
    + unfold _upsert_allowance_stmt. cbn [allowances set_allowances].
      rewrite <- Hq. f_equal. unfold select_where. apply List.filter_ext.
      intros [j x]. simpl. by rewrite upsert_matches_activated.
    + apply first_select_where_Some in Hq as (_ & Hm & _).
      rewrite upsert_matches_activated in Hm.
      unfold upsert_matches in Hm. unfold allowance_eligible.
      apply andb_true_iff in Hm as [[-> _]%andb_true_iff ->].
      rewrite He. simpl. apply Z.ltb_lt. unfold timedelta_days. lia.
  - unfold activated_plan. by intros ->.
  - intros seed Hs Hid Hstored. unfold activated_plan.
    destruct (get_plan (live s) (Plan.id plan)) as [[i stored]|]; [|done].
    rewrite <- Hid.
    assert (NoDup (seed_id <$> DEFAULT_PLAN_SEEDS)) as Hnd
      by apply NoDup_DEFAULT_PLAN_SEEDS.
    clear -Hs Hnd.
    induction DEFAULT_PLAN_SEEDS as [|seed' seeds IH]; [by inversion Hs|].
    simpl. apply NoDup_cons in Hnd as [Hfresh Hnd].
    apply elem_of_cons in Hs as [->|Hs].
    + by rewrite String.eqb_refl.
    + rewrite (proj2 (String.eqb_neq _ _)); [by apply IH|].
      intros E. apply Hfresh. rewrite E. by apply list_elem_of_fmap_2.
  - by vm_compute.
Qed.

Lemma bucket_has_type_elem t ty b a :
  a ∈ allowances t → Allowance.id a = RolloverBucket.allowance_id b →
  Allowance.type a = ty → bucket_has_type t ty b = true.
Proof.
  intros Hin Hid Hty. unfold bucket_has_type. apply existsb_exists.
  exists a. split; [by apply list_elem_of_In|].
  rewrite Hid, String.eqb_refl, Hty. by destruct ty.
Qed.

(** X12. What a renewal does to the balance of the user and credit type.
    When [_upsert_allowance] finds the allowance of the (user, plan, type)
    and the new period ends in the future, the allowance counts with the
    whole new total, whatever it counted before; what was left on it is
    added to the rollover credit under a policy other than [none], also
    when the allowance had already expired, and is forfeited under
    [none]. *)
Theorem renewal_moves_leftover_to_rollover env user plan ty total policy e
    source s i existing :
  _upsert_allowance_stmt user plan ty (live s) = Some (i, existing) →
  0 < total → utcnow env < e → ledger_ok (live s) →
  ledger_ok
    (live (exec (_upsert_allowance env user plan ty total policy e source) s))
  ∧ allowance_balance env user ty
      (live (exec (_upsert_allowance env user plan ty total policy e source)
               s))
    = allowance_balance env user ty (live s)
      - (if not_expired (Allowance.expires_at existing) (utcnow env)
         then Allowance.total existing - Allowance.used existing else 0)
      + total
  ∧ rollover_usable env user ty
      (live (exec (_upsert_allowance env user plan ty total policy e source)
               s))
    = rollover_usable env user ty (live s)
      + (if RolloverPolicy_eqb policy NONE then 0
         else Allowance.total existing - Allowance.used existing).
Proof.
  intros Hq Ht He [Hu Hb].
  unfold exec. rewrite (_upsert_allowance_renew _ _ _ _ _ _ _ _ _ _ _ Hq).
  cbn [snd live].
  unfold _upsert_allowance_stmt in Hq.
  change (λ a : Allowance.t, _) with (upsert_matches user plan ty) in Hq.
  apply first_select_where_Some in Hq as (Hi & Hm & _).
  assert (Allowance.used existing ≤ Allowance.total existing) as Hle.
  { rewrite Forall_forall in Hu. apply Hu. by eapply list_elem_of_lookup_2. }
  pose proof Hm as Hm'. unfold upsert_matches in Hm'.
  apply andb_true_iff in Hm' as [[Huid _]%andb_true_iff Hty].
  rewrite Z.max_l by lia.
  split_and!.
  - split; cbn [allowances rollover_buckets set_allowances
                  set_rollover_buckets].
    + apply Forall_insert; [done|]. simpl. lia.
    + apply Forall_app. split; [done|].
      destruct (_ && _); repeat constructor. simpl. lia.
  - unfold allowance_balance. cbn [allowances set_allowances].
    rewrite (sumZ_filter_insert _ _ _ _ _ _ Hi).
    unfold allowance_eligible. simpl. rewrite Huid, Hty. simpl.
    rewrite (proj2 (Z.ltb_lt _ _)) by done.
    destruct (not_expired _ _); lia.
  - unfold rollover_usable. cbn [rollover_buckets set_allowances
                                   set_rollover_buckets].
    rewrite List.filter_app, map_app, sumZ_app.
    rewrite (List.filter_ext _ (bucket_eligible env user ty (live s))).
    2:{ intros b. unfold bucket_eligible.
        assert (∀ bs,
                  bucket_has_type
                    (set_allowances (set_rollover_buckets (live s) bs)
                       (<[i:=Allowance.reseed existing total policy e]>
                          (allowances (live s)))) ty b
                  = bucket_has_type (live s) ty b) as ->; [|done].
        intros bs.
        by apply (bucket_has_type_insert (set_rollover_buckets (live s) bs)
                    ty b i existing). }
    f_equal.
    destruct (RolloverPolicy_eqb policy NONE) eqn:Hp; simpl.
    { by rewrite andb_false_r. }
    rewrite andb_true_r.
    destruct (Z.ltb_spec 0 (Allowance.total existing
                            - Allowance.used existing)) as [Hpos|Hz];
      simpl; [|unfold sumZ; simpl; lia].
    unfold bucket_eligible at 1. simpl.
    rewrite String.eqb_refl.
    rewrite (proj2 (Z.ltb_lt 0 (Allowance.total existing
                                - Allowance.used existing))) by done.
    rewrite (bucket_has_type_elem _ ty _
               (Allowance.reseed existing total policy e)).
    + assert ((utcnow env <? _calculate_rollover_expiry e policy) = true)
        as ->.
      { apply Z.ltb_lt. unfold _calculate_rollover_expiry, timedelta_days.
        destruct policy; lia. }
      unfold sumZ. simpl. lia.
    + cbn [allowances set_allowances]. apply list_elem_of_lookup.
      exists i. apply list_lookup_insert_eq. by eapply lookup_lt_Some.
    + done.
    + simpl. by apply AllowanceType_eqb_eq.
Qed.

(** ** The daily auto-fix allowance *)

Lemma grant_daily_autofix_bc_off config iso env user today s :
  free_daily_bc config ≤ 0 →
  grant_daily_autofix_bc config iso env user today s = (Ok None, s).
Proof.
  intros Hf. unfold grant_daily_autofix_bc.
  by rewrite (proj2 (Z.leb_le _ _)) by done.
Qed.

Lemma grant_daily_autofix_bc_run config iso env user today s :
  0 < free_daily_bc config →
  ∃ a als i,
    grant_daily_autofix_bc config iso env user today s
    = (Ok (Some a),
       {| live := set_allowances (live s) als; durable := durable s |})
    ∧ first (select_where
               (daily_matches user
                  (daily_source iso (default (date_key_of env) today)))
               als)
      = Some (i, a)
    ∧ Allowance.total a = free_daily_bc config
    ∧ Allowance.expires_at a
      = Some (daily_expiry (default (date_key_of env) today))
    ∧ match
        first (select_where
                 (daily_matches user
                    (daily_source iso (default (date_key_of env) today)))
                 (allowances (live s)))
      with
      | Some (j, old) =>
          i = j
          ∧ als = <[j := a]> (allowances (live s))
          ∧ a = refresh_daily_allowance old (free_daily_bc config)
                  (daily_expiry (default (date_key_of env) today))
      | None =>
          als = allowances (live s) ++ [a]
          ∧ Allowance.used a = 0
          ∧ Allowance.id a = uuid4 env 0
          ∧ Allowance.window a = DAILY
          ∧ Allowance.rollover_policy a = NONE
          ∧ Allowance.plan_id a = None
      end.
Proof.
  intros Hf. unfold grant_daily_autofix_bc.
  rewrite (proj2 (Z.leb_gt _ _)) by done.
  rewrite bind_run, query_run. unfold grant_daily_autofix_bc_stmt.
  change (select_where _ (allowances (live s)))
    with (select_where
            (daily_matches user
               (daily_source iso (default (date_key_of env) today)))
            (allowances (live s))).
  change (timedelta_days (default (date_key_of env) today)
          + timedelta_days 1)
    with (daily_expiry (default (date_key_of env) today)).
  change ("autofix_daily_bc::" +:+ iso (default (date_key_of env) today))
    with (daily_source iso (default (date_key_of env) today)).
  destruct (first _) as [[j old]|] eqn:Hq.
  - eexists _, _, j. split; [reflexivity|].
    pose proof Hq as (Hj & Hm & _)%first_select_where_Some.
    split_and!; try done.
    rewrite (first_select_where_insert _ _ _ old) by done.
    rewrite Hq. simpl. by rewrite decide_True.
  - destruct (grant_allowance_fresh env user None BC (free_daily_bc config)
                DAILY NONE
                (Some (daily_expiry (default (date_key_of env) today)))
                (Some (daily_source iso (default (date_key_of env) today)))
                s Hf (or_introl eq_refl)) as (a & Hrun & Ea).
    exists a, (allowances (live s) ++ [a]), (length (allowances (live s))).
    unfold datetime in Hrun.
    split; [by rewrite bind_run, Hrun|]. split_and!; try (by rewrite Ea).
    rewrite first_select_where_snoc, Hq, Ea. unfold daily_matches. simpl.
    by rewrite !String.eqb_refl.
Qed.

Lemma refresh_daily_allowance_id a free e :
  Allowance.total a = free → Allowance.used a ≤ free →
  Allowance.expires_at a = Some e →
  refresh_daily_allowance a free e = a.
Proof.
  destruct a. unfold refresh_daily_allowance. simpl.
  intros -> ? ->. by rewrite Z.min_l.
Qed.

Lemma set_allowances_eta t : set_allowances t (allowances t) = t.
Proof. by destruct t. Qed.

(** X13. [grant_daily_autofix_bc] never fails.  With a daily amount of
    zero or less it returns nothing and changes nothing.  Otherwise it
    returns the allowance of the user for the day, and a second call for
    the same day, at any time, returns the same allowance and leaves the
    session exactly as the first call left it: no second row, no reset of
    what was used. *)
Theorem grant_daily_autofix_bc_is_idempotent config date_isoformat env env'
    user today today' s :
  default (date_key_of env') today' = default (date_key_of env) today →
  ∃ r s1,
    grant_daily_autofix_bc config date_isoformat env user today s
    = (Ok r, s1)
    ∧ grant_daily_autofix_bc config date_isoformat env' user today' s1
      = (Ok r, s1)
    ∧ (free_daily_bc config ≤ 0 → r = None ∧ s1 = s)
    ∧ (0 < free_daily_bc config → r ≠ None)
    ∧ durable s1 = durable s.
Proof.
  intros Hday.
  destruct (Z.lt_ge_cases 0 (free_daily_bc config)) as [Hf|Hf].
  2:{ exists None, s. rewrite !grant_daily_autofix_bc_off by done.
      split_and!; try done. lia. }
  destruct (grant_daily_autofix_bc_run config date_isoformat env user today
              s Hf) as (a & als & i & Hrun & Hq & Ht & He & Hshape).
  exists (Some a). eexists. split; [exact Hrun|].
  split_and!; try done; [|lia].
  destruct (grant_daily_autofix_bc_run config date_isoformat env' user
              today'
              {| live := set_allowances (live s) als; durable := durable s |}
              Hf) as (a' & als' & i' & Hrun' & _ & _ & _ & Hshape').
  rewrite Hrun'. cbn [live durable allowances set_allowances] in *.
  rewrite Hday, Hq in Hshape'. destruct Hshape' as (-> & -> & ->).
  assert (Allowance.used a ≤ free_daily_bc config) as Hu.
  { destruct (first _) as [[j old]|] in Hshape.
    - destruct Hshape as (_ & _ & ->). simpl. lia.
    - destruct Hshape as (_ & -> & _). lia. }
  rewrite refresh_daily_allowance_id by done.
  apply first_select_where_Some in Hq as (Hi & _).
  rewrite list_insert_id by done.
  change (set_allowances (set_allowances (live s) als) als)
    with (set_allowances (live s) als).
  done.
Qed.

Lemma daily_matches_eligible env user source a :
  daily_matches user source a = true →
  allowance_eligible env user BC a
  = not_expired (Allowance.expires_at a) (utcnow env).
Proof.
  unfold daily_matches, allowance_eligible.
  by intros [[-> _]%andb_true_iff ->]%andb_true_iff.
Qed.

(** X14. With a positive daily amount, [grant_daily_autofix_bc] leaves the
    user with exactly one current allowance for the day: the row its query
    finds afterwards, with the configured total, [used ≤ total], and
    eligible for build-credit consumption until the first second of the
    next day and not after.  A row found for the day is rewritten in place,
    with what was used kept and capped by the total; otherwise one unused
    row is appended.  Nothing else changes, nothing is committed and the
    invariants of the ledger are kept. *)
Theorem grant_daily_autofix_bc_lasts_until_midnight config date_isoformat env
    user today s :
  0 < free_daily_bc config →
  ∃ a s1 i,
    grant_daily_autofix_bc config date_isoformat env user today s
    = (Ok (Some a), s1)
    ∧ grant_daily_autofix_bc_stmt user
        (daily_source date_isoformat (default (date_key_of env) today))
        (live s1)
      = Some (i, a)
    ∧ Allowance.total a = free_daily_bc config
    ∧ Allowance.used a ≤ Allowance.total a
    ∧ (∀ env',
         allowance_eligible env' user BC a
         = (utcnow env'
            <? timedelta_days (default (date_key_of env) today + 1)))
    ∧ match
        grant_daily_autofix_bc_stmt user
          (daily_source date_isoformat (default (date_key_of env) today))
          (live s)
      with
      | Some (j, old) =>
          allowances (live s1) = <[j := a]> (allowances (live s))
          ∧ Allowance.used a
            = Z.min (Allowance.used old) (free_daily_bc config)
          ∧ Allowance.id a = Allowance.id old
      | None =>
          allowances (live s1) = allowances (live s) ++ [a]
          ∧ Allowance.used a = 0
      end
    ∧ (ledger_ok (live s) → ledger_ok (live s1))
    ∧ rollover_buckets (live s1) = rollover_buckets (live s)
    ∧ durable s1 = durable s.
Proof.
  intros Hf.
  destruct (grant_daily_autofix_bc_run config date_isoformat env user today
              s Hf) as (a & als & i & Hrun & Hq & Ht & He & Hshape).
  exists a. eexists. exists i. split; [exact Hrun|].
  cbn [live durable].
  unfold grant_daily_autofix_bc_stmt. cbn [allowances set_allowances].
  change (λ a : Allowance.t,
            (Allowance.user_id a =? User.id user)%string
            && option_eqb (Allowance.source a)
                 (daily_source date_isoformat
                    (default (date_key_of env) today))
            && AllowanceType_eqb (Allowance.type a) BC)
    with (daily_matches user
            (daily_source date_isoformat (default (date_key_of env) today))).
  assert (Allowance.used a ≤ free_daily_bc config) as Hu.
  { destruct (first _) as [[j old]|] in Hshape.
    - destruct Hshape as (_ & _ & ->). simpl. lia.
    - destruct Hshape as (_ & -> & _). lia. }
  split_and!; try done.
  - lia.
  - intros env'.
    pose proof Hq as (_ & Hm & _)%first_select_where_Some.
    rewrite (daily_matches_eligible _ _ _ _ Hm), He. simpl.
    unfold daily_expiry, timedelta_days. f_equal. lia.
  - destruct (first _) as [[j old]|] in Hshape |- *.
    + destruct Hshape as (_ & -> & ->). done.
    + by destruct Hshape as (-> & -> & _).
  - intros [Hok Hb]. split; [|done]. cbn [allowances set_allowances].
    destruct (first _) as [[j old]|] in Hshape.
    + destruct Hshape as (_ & -> & _). apply Forall_insert; [done|]. lia.
    + destruct Hshape as (-> & _). apply Forall_app. split; [done|].
      apply Forall_singleton. lia.
Qed.

(** ** Purging the auto-fix counters *)

Lemma filter_filter_true {A} (p q : A → bool) (l : list A) :
  (∀ x, p x = true → q x = true) →
  List.filter p (List.filter q l) = List.filter p l.
Proof.
  intros Hpq. induction l as [|x l IH]; [done|]. simpl.
  destruct (q x) eqn:Hq; simpl.
  - by rewrite IH.
  - destruct (p x) eqn:Hp; [|done]. rewrite Hpq in Hq; done.
Qed.

Lemma filter_filter_false {A} (p q : A → bool) (l : list A) :
  (∀ x, p x = true → q x = false) →
  List.filter p (List.filter q l) = [].
Proof.
  intros Hpq. induction l as [|x l IH]; [done|]. simpl.
  destruct (q x) eqn:Hq; simpl; [|done].
  destruct (p x) eqn:Hp; [|done]. rewrite Hpq in Hq; done.
Qed.

Lemma filter_all_true {A} (p : A → bool) (l : list A) :
  (∀ x, x ∈ l → p x = true) → List.filter p l = l.
Proof.
  induction l as [|x l IH]; intros Hp; [done|]. simpl.
  rewrite Hp by (by left). f_equal. apply IH. intros y Hy. apply Hp.
  by right.
Qed.

Lemma filter_negb_length {A} (p : A → bool) (l : list A) :
  (length (List.filter p l)
   + length (List.filter (λ x, negb (p x)) l))%nat = length l.
Proof.
  induction l as [|x l IH]; [done|]. simpl.
  destruct (p x); simpl; lia.
Qed.

Lemma first_select_where_head {A} (p : A → bool) (l : list A) :
  snd <$> first (select_where p l) = head (List.filter p l).
Proof.
  rewrite <- select_where_snd. by destruct (select_where p l).
Qed.

Lemma autofix_consumed_head env user t :
  autofix_consumed env user t
  = match
      head (List.filter
              (λ r, String.eqb (AllowanceDailyAutofix.user_id r)
                      (User.id user)
                    && (AllowanceDailyAutofix.date_key r =? date_key_of env))
              (allowance_daily_autofix t))
    with
    | Some record => AllowanceDailyAutofix.consumed record
    | None => 0
    end.
Proof.
  unfold autofix_consumed, _apply_autofix_stmt.
  rewrite <- first_select_where_head. by destruct (first _) as [[]|].
Qed.

Lemma set_allowance_daily_autofix_eta t :
  set_allowance_daily_autofix t (allowance_daily_autofix t) = t.
Proof. by destruct t. Qed.

Lemma cleanup_autofix_counters_run older_than s :
  cleanup_autofix_counters older_than s
  = (Ok (Z.of_nat
           (length (List.filter (autofix_counter_is_stale older_than)
                      (allowance_daily_autofix (live s))))),
     {| live := set_allowance_daily_autofix (live s)
                  (List.filter
                     (λ r, negb (autofix_counter_is_stale older_than r))
                     (allowance_daily_autofix (live s)));
        durable := durable s |}).
Proof. done. Qed.

(** X15. [cleanup_autofix_counters] never fails and removes exactly the
    counters of days before the cut-off: the rows it leaves are those of the
    cut-off day and later, in their order, and it returns the number of rows
    removed.  The number of auto-fix grants counted for a user on a day from
    the cut-off on is unchanged, so purging past days never gives back a
    grant of the current day; on a purged day the count is back to zero.  A
    second call removes nothing.  No other table changes and nothing is
    committed. *)
Theorem cleanup_autofix_counters_purges_stale_days older_than s :
  ∃ removed rows,
    let s1 := {| live := set_allowance_daily_autofix (live s) rows;
                 durable := durable s |} in
    cleanup_autofix_counters older_than s = (Ok removed, s1)
    ∧ Forall (λ r, older_than ≤ AllowanceDailyAutofix.date_key r) rows
    ∧ rows `sublist_of` allowance_daily_autofix (live s)
    ∧ (∀ r, r ∈ allowance_daily_autofix (live s) →
            older_than ≤ AllowanceDailyAutofix.date_key r → r ∈ rows)
    ∧ Z.of_nat (length (allowance_daily_autofix (live s)))
      = removed + Z.of_nat (length rows)
    ∧ (∀ env user,
         older_than ≤ date_key_of env →
         autofix_consumed env user (live s1)
         = autofix_consumed env user (live s))
    ∧ (∀ env user,
         date_key_of env < older_than →
         autofix_consumed env user (live s1) = 0)
    ∧ cleanup_autofix_counters older_than s1 = (Ok 0, s1).
Proof.
  eexists _, _. cbn zeta. split; [apply cleanup_autofix_counters_run|].
  split_and!.
  - apply Forall_forall. intros r [_ Hr]%elem_of_List_filter.
    unfold autofix_counter_is_stale in Hr.
    apply negb_true_iff, Z.ltb_ge in Hr. done.
  - apply List_filter_sublist.
  - intros r Hin Hr. apply elem_of_List_filter. split; [done|].
    unfold autofix_counter_is_stale. by apply negb_true_iff, Z.ltb_ge.
  - pose proof (filter_negb_length (autofix_counter_is_stale older_than)
                  (allowance_daily_autofix (live s))). lia.
  - intros env user Hday. rewrite !autofix_consumed_head.
    cbn [live allowance_daily_autofix set_allowance_daily_autofix].
    rewrite filter_filter_true; [done|].
    intros r [_ Hk%Z.eqb_eq]%andb_true_iff.
    unfold autofix_counter_is_stale. apply negb_true_iff, Z.ltb_ge. lia.
  - intros env user Hday. rewrite autofix_consumed_head.
    cbn [live allowance_daily_autofix set_allowance_daily_autofix].
    rewrite filter_filter_false; [done|].
    intros r [_ Hk%Z.eqb_eq]%andb_true_iff.
    unfold autofix_counter_is_stale. apply negb_false_iff, Z.ltb_lt. lia.
  - rewrite cleanup_autofix_counters_run.
    cbn [live durable allowance_daily_autofix set_allowance_daily_autofix].
    rewrite filter_filter_false by (intros x Hx; by rewrite Hx).
    rewrite (filter_all_true _
               (List.filter _ (allowance_daily_autofix (live s)))).
    2:{ by intros r [_ Hr]%elem_of_List_filter. }
    done.
Qed.

(** ** The daily maintenance task *)

Lemma holds_daily_allowance_ext config iso day user t t' :
  allowances t' = allowances t →
  holds_daily_allowance config iso day user t →
  holds_daily_allowance config iso day user t'.
Proof.
  unfold holds_daily_allowance, grant_daily_autofix_bc_stmt. by intros ->.
Qed.

Lemma daily_matches_user user user' source x :
  User.id user = User.id user' →
  daily_matches user source x = daily_matches user' source x.
Proof. unfold daily_matches. by intros ->. Qed.

Lemma daily_matches_other user user' source x :
  User.id user ≠ User.id user' →
  daily_matches user source x = true → daily_matches user' source x = false.
Proof.
  unfold daily_matches.
  intros Hne [[Hu%String.eqb_eq _]%andb_true_iff _]%andb_true_iff.
  rewrite (proj2 (String.eqb_neq _ _)); [done|]. congruence.
Qed.

(** One grant of the daily task, and what it keeps. *)
Lemma grant_daily_autofix_bc_frame config iso env user day s :
  ∃ r als,
    grant_daily_autofix_bc config iso env user (Some day) s
    = (Ok r, {| live := set_allowances (live s) als; durable := durable s |})
    ∧ (∀ j x, allowances (live s) !! j = Some x →
              daily_matches user (daily_source iso day) x = false →
              als !! j = Some x)
    ∧ (∀ j x, als !! j = Some x →
              daily_matches user (daily_source iso day) x = false →
              allowances (live s) !! j = Some x)
    ∧ (Forall (λ a, Allowance.used a ≤ Allowance.total a)
         (allowances (live s)) →
       Forall (λ a, Allowance.used a ≤ Allowance.total a) als)
    ∧ (0 < free_daily_bc config →
       holds_daily_allowance config iso day user
         (set_allowances (live s) als)).
Proof.
  destruct (Z.lt_ge_cases 0 (free_daily_bc config)) as [Hf|Hf].
  2:{ exists None, (allowances (live s)).
      rewrite grant_daily_autofix_bc_off by done.
      rewrite set_allowances_eta, session_eta.
      split_and!; try done. lia. }
  destruct (grant_daily_autofix_bc_run config iso env user (Some day) s Hf)
    as (a & als & i & Hrun & Hq & Ht & He & Hshape).
  cbn [default from_option id] in *.
  change (from_option id (date_key_of env) (Some day)) with day in *.
  exists (Some a), als. split; [exact Hrun|].
  assert (Allowance.used a ≤ free_daily_bc config) as Hu.
  { destruct (first _) as [[j old]|] in Hshape.
    - destruct Hshape as (_ & _ & ->). simpl. lia.
    - destruct Hshape as (_ & -> & _). lia. }
  pose proof Hq as (Hi & Hm & _)%first_select_where_Some.
  split_and!.
  - intros j x Hj Hx.
    destruct (first _) as [[k old]|] eqn:Hold in Hshape.
    + destruct Hshape as (_ & -> & _).
      apply first_select_where_Some in Hold as (Hk & Hmo & _).
      rewrite list_lookup_insert_ne; [done|]. intros <-. congruence.
    + destruct Hshape as (-> & _). by apply lookup_app_l_Some.
  - intros j x Hj Hx.
    destruct (first _) as [[k old]|] eqn:Hold in Hshape.
    + destruct Hshape as (-> & -> & _).
      destruct (decide (j = k)) as [->|Hne].
      { rewrite Hi in Hj. injection Hj as <-. by rewrite Hm in Hx. }
      by rewrite list_lookup_insert_ne in Hj.
    + destruct Hshape as (-> & _).
      apply lookup_app_Some in Hj as [Hj|[Hge Hj]]; [done|].
      destruct (j - _)%nat; [|done]. simpl in Hj.
      injection Hj as <-. by rewrite Hm in Hx.
  - intros Hok.
    destruct (first _) as [[k old]|] in Hshape.
    + destruct Hshape as (_ & -> & _). apply Forall_insert; [done|]. lia.
    + destruct Hshape as (-> & _). apply Forall_app. split; [done|].
      apply Forall_singleton. lia.
  - intros _. exists i, a. split_and!; try done. lia.
Qed.

Lemma grant_daily_autofix_bc_keeps_held config iso env user user' day s :
  holds_daily_allowance config iso day user' (live s) →
  holds_daily_allowance config iso day user'
    (live (exec (grant_daily_autofix_bc config iso env user (Some day)) s)).
Proof.
  intros Hheld.
  destruct (grant_daily_autofix_bc_frame config iso env user day s)
    as (r & als & Hrun & Hkeep & Hback & _ & Hnew).
  unfold exec. rewrite Hrun. cbn [snd live].
  destruct (Z.lt_ge_cases 0 (free_daily_bc config)) as [Hf|Hf].
  2:{ rewrite grant_daily_autofix_bc_off in Hrun by done.
      injection Hrun as _ Hs. apply (f_equal live) in Hs.
      cbn [live] in Hs. by rewrite <- Hs. }
  destruct (decide (User.id user' = User.id user)) as [Hid|Hne].
  - destruct (Hnew Hf) as (i & a & Hq & Hrest).
    exists i, a. split; [|done]. rewrite <- Hq.
    unfold grant_daily_autofix_bc_stmt. by rewrite Hid.
  - destruct Hheld as (i & a & Hq & Hrest).
    exists i, a. split; [|done]. rewrite <- Hq.
    unfold grant_daily_autofix_bc_stmt. cbn [allowances set_allowances].
    apply (first_select_where_stable
             (daily_matches user' (daily_source iso day))).
    + intros j x Hj Hx. apply Hkeep; [done|].
      by apply (daily_matches_other user' user).
    + intros j x Hj Hx. apply Hback; [done|].
      by apply (daily_matches_other user' user).
Qed.

(** The loop of [reset_autofix]. *)
Lemma grant_free_users_run config iso env users today s :
  ∃ granted als,
    grant_free_users config iso env users today s
    = (Ok granted,
       {| live := set_allowances (live s) als; durable := durable s |})
    ∧ 0 ≤ granted ≤ Z.of_nat (length users)
    ∧ (∀ j x, allowances (live s) !! j = Some x →
              option_eqb (Allowance.source x) (daily_source iso today)
              = false →
              als !! j = Some x)
    ∧ (Forall (λ a, Allowance.used a ≤ Allowance.total a)
         (allowances (live s)) →
       Forall (λ a, Allowance.used a ≤ Allowance.total a) als)
    ∧ (∀ user, holds_daily_allowance config iso today user (live s) →
               holds_daily_allowance config iso today user
                 (set_allowances (live s) als))
    ∧ (0 < free_daily_bc config →
       ∀ user i sub,
         user ∈ users →
         get_primary_subscription_stmt user (live s) = Some (i, sub) →
         plan_is_free (live s) sub = true →
         holds_daily_allowance config iso today user
           (set_allowances (live s) als)).
Proof.
  revert env s. induction users as [|user users IH]; intros env s.
  { exists 0, (allowances (live s)).
    rewrite set_allowances_eta, session_eta.
    split_and!; try done. by intros _ ??? ?%elem_of_nil. }
  cbn [grant_free_users].
  rewrite bind_run. unfold get_primary_subscription. rewrite query_run.
  assert (∃ g als1,
            (match get_primary_subscription_stmt user (live s) with
             | Some (_, subscription) =>
                 free ← is_free_plan subscription;
                 if (free : bool)
                 then grant_daily_autofix_bc config iso env user
                        (Some today);; mret 1
                 else mret 0
             | None => mret 0
             end) s
            = (Ok g, {| live := set_allowances (live s) als1;
                        durable := durable s |})
            ∧ 0 ≤ g ≤ 1
            ∧ (∀ j x, allowances (live s) !! j = Some x →
                      option_eqb (Allowance.source x)
                        (daily_source iso today) = false →
                      als1 !! j = Some x)
            ∧ (Forall (λ a, Allowance.used a ≤ Allowance.total a)
                 (allowances (live s)) →
               Forall (λ a, Allowance.used a ≤ Allowance.total a) als1)
            ∧ (∀ user', holds_daily_allowance config iso today user'
                          (live s) →
                        holds_daily_allowance config iso today user'
                          (set_allowances (live s) als1))
            ∧ (0 < free_daily_bc config →
               ∀ i sub,
                 get_primary_subscription_stmt user (live s)
                 = Some (i, sub) →
                 plan_is_free (live s) sub = true →
                 holds_daily_allowance config iso today user
                   (set_allowances (live s) als1)))
    as (g & als1 & Hstep & Hg & Hkeep1 & Hok1 & Hheld1 & Hnew1).
  { assert (∃ g als1,
              (mret 0 : M Z) s
              = (Ok g, {| live := set_allowances (live s) als1;
                          durable := durable s |})
              ∧ 0 ≤ g ≤ 1
              ∧ (∀ j x, allowances (live s) !! j = Some x →
                        option_eqb (Allowance.source x)
                          (daily_source iso today) = false →
                        als1 !! j = Some x)
              ∧ (Forall (λ a, Allowance.used a ≤ Allowance.total a)
                   (allowances (live s)) →
                 Forall (λ a, Allowance.used a ≤ Allowance.total a) als1)
              ∧ (∀ user', holds_daily_allowance config iso today user'
                            (live s) →
                          holds_daily_allowance config iso today user'
                            (set_allowances (live s) als1))) as Hskip.
    { exists 0, (allowances (live s)).
      rewrite set_allowances_eta, session_eta.
      split_and!; try done; lia. }
    destruct (get_primary_subscription_stmt user (live s))
      as [[i sub]|] eqn:Hq.
    2:{ destruct Hskip as (g & als1 & ? & ? & ? & ? & ?).
        exists g, als1. split_and!; try done; lia. }
    rewrite bind_run. unfold is_free_plan. rewrite query_run.
    destruct (plan_is_free (live s) sub) eqn:Hfree.
    2:{ destruct Hskip as (g & als1 & ? & ? & ? & ? & ?).
        exists g, als1. split_and!; try done; try lia.
        intros _ ?? [= _ <-]. congruence. }
    destruct (grant_daily_autofix_bc_frame config iso env user today s)
      as (r & als1 & Hrun & Hkeep & _ & Hok & Hnew).
    exists 1, als1. rewrite bind_run, Hrun.
    split_and!; try done; try lia.
    - intros j x Hj Hx. apply Hkeep; [done|].
      unfold daily_matches. rewrite Hx. by rewrite andb_false_r.
    - intros user' Hheld.
      pose proof (grant_daily_autofix_bc_keeps_held config iso env user
                    user' today s Hheld) as Hk.
      unfold exec in Hk. by rewrite Hrun in Hk.
    - intros Hf _ _ _ _. by apply Hnew. }
  rewrite bind_run, Hstep.
  destruct (IH (env_skip 1 env)
              {| live := set_allowances (live s) als1;
                 durable := durable s |})
    as (more & als & Hrun & Hmore & Hkeep & Hok & Hheld & Hnew).
  cbn [live durable allowances set_allowances] in *.
  change (set_allowances (set_allowances (live s) als1) als)
    with (set_allowances (live s) als) in *.
  exists (g + more), als. rewrite bind_run, Hrun.
  split_and!; try done.
  - lia.
  - rewrite length_cons. lia.
  - auto.
  - auto.
  - auto.
  - intros Hf user' i sub [->|Hin]%elem_of_cons Hq Hfree.
    + apply Hheld. by eapply Hnew1.
    + by eapply Hnew.
Qed.

(** X16. [reset_autofix] never fails and commits.  Afterwards every user
    of the list whose primary subscription is on the Free plan holds the
    daily allowance of the day (when the configured daily amount is
    positive), and an allowance whose source is not that of the day is left
    as it was.  The counters of earlier days are gone, but the number of
    auto-fix grants already counted for a user on the day itself, or later,
    is unchanged: the task does not reset the limit of the current day.
    Plans, subscriptions, buckets, events and charges are untouched and the
    invariants of the ledger are kept. *)
Theorem reset_autofix_grants_free_users config date_isoformat env users
    today s :
  ∃ granted removed s1,
    reset_autofix config date_isoformat env users today s
    = (Ok (granted, removed), s1)
    ∧ durable s1 = live s1
    ∧ 0 ≤ granted ≤ Z.of_nat (length users)
    ∧ (0 < free_daily_bc config →
       ∀ user i sub,
         user ∈ users →
         get_primary_subscription_stmt user (live s) = Some (i, sub) →
         plan_is_free (live s) sub = true →
         holds_daily_allowance config date_isoformat today user (live s1))
    ∧ (∀ j x,
         allowances (live s) !! j = Some x →
         Allowance.source x ≠ Some (daily_source date_isoformat today) →
         allowances (live s1) !! j = Some x)
    ∧ Forall (λ r, today ≤ AllowanceDailyAutofix.date_key r)
        (allowance_daily_autofix (live s1))
    ∧ (∀ env' user,
         today ≤ date_key_of env' →
         autofix_consumed env' user (live s1)
         = autofix_consumed env' user (live s))
    ∧ (ledger_ok (live s) → ledger_ok (live s1))
    ∧ plans (live s1) = plans (live s)
    ∧ user_subscriptions (live s1) = user_subscriptions (live s)
    ∧ rollover_buckets (live s1) = rollover_buckets (live s)
    ∧ consumption_events (live s1) = consumption_events (live s)
    ∧ overage_charges (live s1) = overage_charges (live s).
Proof.
  destruct (grant_free_users_run config date_isoformat env users today s)
    as (granted & als & Hrun & Hg & Hkeep & Hok & _ & Hnew).
  unfold reset_autofix.
  eexists granted, _, _. split.
  { rewrite bind_run, Hrun, bind_run, cleanup_autofix_counters_run.
    reflexivity. }
  cbn [live durable allowances set_allowances allowance_daily_autofix
         set_allowance_daily_autofix plans user_subscriptions
         rollover_buckets consumption_events overage_charges].
  split_and!; try done; try lia.
  - intros j x Hj Hx. apply Hkeep; [done|].
    destruct (Allowance.source x) as [src|]; [|done]. simpl.
    apply String.eqb_neq. congruence.
  - apply Forall_forall. intros r [_ Hr]%elem_of_List_filter.
    unfold autofix_counter_is_stale in Hr.
    by apply negb_true_iff, Z.ltb_ge in Hr.
  - intros env' user Hday. rewrite !autofix_consumed_head.
    cbn [live allowance_daily_autofix set_allowance_daily_autofix
           set_allowances].
    rewrite filter_filter_true; [done|].
    intros r [_ Hk%Z.eqb_eq]%andb_true_iff.
    unfold autofix_counter_is_stale. apply negb_true_iff, Z.ltb_ge. lia.
  - intros [Hu Hb]. split; [|done]. by apply Hok.
Qed.

(** ** Recording usage *)




(** X17. [record_usage] never returns: every call raises in
    [_upsert_summary], with [TypeError] when the (workspace, metric,
    period) has no summary and with [AttributeError] when it has one, for
    every reading and with or without [consume_allowance].  The flush, the
    rounding and [consume] are not reached: allowances, buckets, events,
    overage charges and auto-fix counters are as they were and nothing is
    committed.  What the call leaves in the session is the reading it
    added, and on an existing summary the value it assigned, both
    unflushed; a rollback by the caller discards them. *)
Theorem record_usage_never_reaches_consume config env user workspace_id
    metric value period window_start window_end consume_allowance s :
  ∃ e s1,
    record_usage config env user workspace_id metric value period
      window_start window_end consume_allowance s
    = (Raise e, s1)
    ∧ e = match _upsert_summary_stmt workspace_id metric period (live s) with
          | None => TypeError
          | Some _ => AttributeError
          end
    ∧ usage_meter_readings (live s1)
      = usage_meter_readings (live s)
        ++ [new_reading env user workspace_id metric value period
              window_start window_end]
    ∧ length (usage_summaries (live s1)) = length (usage_summaries (live s))
    ∧ (summary_value workspace_id metric period (live s1)
       == match _upsert_summary_stmt workspace_id metric period (live s) with
          | None => 0
          | Some (_, old) => UsageSummary.value old + value
          end)%Q
    ∧ allowances (live s1) = allowances (live s)
    ∧ rollover_buckets (live s1) = rollover_buckets (live s)
    ∧ consumption_events (live s1) = consumption_events (live s)
    ∧ overage_charges (live s1) = overage_charges (live s)
    ∧ allowance_daily_autofix (live s1) = allowance_daily_autofix (live s)
    ∧ durable s1 = durable s
    ∧ exec db_rollback s1 = exec db_rollback s.
Proof.
  rewrite record_usage_run. cbn zeta. unfold summary_value.
  destruct (_upsert_summary_stmt workspace_id metric period (live s))
    as [[j old]|] eqn:Hq.
  - eexists _, _. split; [reflexivity|].
    cbn [live durable usage_meter_readings usage_summaries allowances
           rollover_buckets consumption_events overage_charges
           allowance_daily_autofix set_usage_summaries
           set_usage_meter_readings].
    split_and!; try done.
    + by rewrite length_insert.
    + unfold _upsert_summary_stmt in *.
      cbn [usage_summaries set_usage_summaries].
      pose proof Hq as (Hj & Hm & _)%first_select_where_Some.
      rewrite (first_select_where_insert _ _ _ old) by done.
      rewrite Hq. simpl. by rewrite decide_True.
  - eexists _, _. split; [reflexivity|].
    cbn [live durable usage_meter_readings usage_summaries allowances
           rollover_buckets consumption_events overage_charges
           allowance_daily_autofix set_usage_summaries
           set_usage_meter_readings].
    split_and!; try done.
    unfold _upsert_summary_stmt in *.
    cbn [usage_summaries set_usage_meter_readings]. by rewrite Hq.
Qed.

Lemma summary_matches_key w m p w' m' p' sm :
  summary_matches w m p sm = true → summary_matches w' m' p' sm = true →
  (w', m', p') = (w, m, p).
Proof.
  unfold summary_matches.
  intros [[->%String.eqb_eq ->%String.eqb_eq]%andb_true_iff
            ->%String.eqb_eq]%andb_true_iff
         [[->%String.eqb_eq ->%String.eqb_eq]%andb_true_iff
            ->%String.eqb_eq]%andb_true_iff.
  done.
Qed.

(** X18. [_upsert_summary] fails on [metadata_json], which [UsageSummary]
    does not declare.  Without a summary for the (workspace, metric,
    period) the constructor raises [TypeError] and the session is as it
    was: no row is created.  With one, [value] has been raised by the
    increment on the row found, which keeps its position, identifier and
    owner, when reading the attribute raises [AttributeError]; the
    summary of every other key is unchanged, and nothing is committed. *)
Theorem upsert_summary_raises_on_metadata_json env user_id workspace_id
    metric period increment s :
  match _upsert_summary_stmt workspace_id metric period (live s) with
  | None =>
      _upsert_summary env user_id workspace_id metric period increment s
      = (Raise TypeError, s)
  | Some (j, old) =>
      ∃ sm s1,
        _upsert_summary env user_id workspace_id metric period increment s
        = (Raise AttributeError, s1)
        ∧ usage_summaries (live s1) = <[j := sm]> (usage_summaries (live s))
        ∧ _upsert_summary_stmt workspace_id metric period (live s1)
          = Some (j, sm)
        ∧ UsageSummary.id sm = UsageSummary.id old
        ∧ UsageSummary.user_id sm = UsageSummary.user_id old
        ∧ UsageSummary.value sm = (UsageSummary.value old + increment)%Q
        ∧ (∀ w m p, (w, m, p) ≠ (workspace_id, metric, period) →
                    _upsert_summary_stmt w m p (live s1)
                    = _upsert_summary_stmt w m p (live s))
        ∧ durable s1 = durable s
  end.
Proof.
  rewrite _upsert_summary_run.
  destruct (_upsert_summary_stmt workspace_id metric period (live s))
    as [[j old]|] eqn:Hq; [|done].
  eexists _, _. split; [reflexivity|].
  cbn [live durable usage_summaries set_usage_summaries].
  unfold _upsert_summary_stmt in *.
  change (λ s : UsageSummary.t,
            (UsageSummary.workspace_id s =? workspace_id)%string
            && (UsageSummary.metric s =? metric)%string
            && (UsageSummary.period s =? period)%string)
    with (summary_matches workspace_id metric period) in *.
  pose proof Hq as (Hj & Hm & _)%first_select_where_Some.
  split_and!; try done.
  - cbn [usage_summaries set_usage_summaries].
    rewrite (first_select_where_insert _ _ _ old) by done.
    rewrite Hq. simpl. by rewrite decide_True.
  - intros w m p Hne. cbn [usage_summaries set_usage_summaries].
    apply (first_select_where_stable (summary_matches w m p)).
    + intros k x Hk Hx. rewrite list_lookup_insert_ne; [done|].
      intros <-. apply Hne.
      apply (summary_matches_key _ _ _ _ _ _ old); [done|congruence].
    + intros k x Hk Hx. destruct (decide (k = j)) as [->|Hkj].
      * rewrite list_lookup_insert_eq in Hk by (by eapply lookup_lt_Some).
        injection Hk as <-. exfalso. apply Hne.
        by apply (summary_matches_key _ _ _ _ _ _
                    (UsageSummary.set_value old
                       (UsageSummary.value old + increment)%Q)).
      * by rewrite list_lookup_insert_ne in Hk.
Qed.

(** X19. The amount [record_usage] charges for a reading is
    [round(value)]: the integer nearest to the reading, and when the
    reading lies exactly half way between two integers, the even one.  An
    integral reading is charged as it is. *)
Theorem round_half_even_is_nearest_ties_to_even q :
  (q - (1 # 2) <= inject_Z (round_half_even q))%Q
  ∧ (inject_Z (round_half_even q) <= q + (1 # 2))%Q
  ∧ ((inject_Z (round_half_even q) == q + (1 # 2))%Q
     ∨ (inject_Z (round_half_even q) == q - (1 # 2))%Q →
     Z.even (round_half_even q) = true)
  ∧ (∀ n : Z, round_half_even (inject_Z n) = n).
Proof.
  destruct q as [n d].
  unfold Qle, Qeq, Qminus, Qplus, Qopp, inject_Z, round_half_even.
  cbn [Qnum Qden]. rewrite !Pos2Z.inj_mul.
  pose proof (Z.mod_pos_bound n (Z.pos d) ltac:(lia)) as Hr.
  pose proof (Z.div_mod n (Z.pos d) ltac:(lia)) as Hdm.
  set (f := n / Z.pos d) in *. set (r := n mod Z.pos d) in *.
  assert (0 < Z.pos d) as Hd by lia.
  split_and!.
  - destruct (Z.compare_spec (2 * r) (Z.pos d)) as [Hc|Hc|Hc];
      try destruct (Z.even f); nia.
  - destruct (Z.compare_spec (2 * r) (Z.pos d)) as [Hc|Hc|Hc];
      try destruct (Z.even f); nia.
  - destruct (Z.compare_spec (2 * r) (Z.pos d)) as [Hc|Hc|Hc].
    + destruct (Z.even f) eqn:He; [done|]. intros _.
      rewrite Z.even_add, He. done.
    + intros [?|?]; nia.
    + intros [?|?]; nia.
  - intros m. simpl. rewrite Z.div_1_r, Z.mod_1_r. done.
Qed.

(** ** The overage charges of a user *)

Lemma consume_result_charge config env user ty amount action cs action_hash
    allow_payg s r s2 :
  consume config env user ty amount action cs action_hash allow_payg s
  = (Ok r, s2) →
  overage_charges (live s2)
  = overage_charges (live s)
    ++ match payg_triggered r with Some c => [c] | None => [] end.
Proof.
  intros Hrun.
  destruct (Z.lt_ge_cases 0 amount) as [Ha|Ha].
  2:{ unfold consume in Hrun.
      by rewrite (proj2 (Z.leb_le amount 0)) in Hrun by done. }
  destruct (consume_existing_stmt action_hash (live s)) as [ex|] eqn:Hex.
  { rewrite (consume_hit _ _ _ _ _ _ _ _ _ _ _ Ha Hex) in Hrun.
    injection Hrun as <- <-. simpl. by rewrite app_nil_r. }
  destruct (consume_after_drain config env user ty amount action cs
              action_hash allow_payg s Ha Hex)
    as (r0 & d & last & s1 & _ & _ & _ & _ & Hch & _ & _ & _ & Hc).
  rewrite Hc in Hrun. clear Hc.
  destruct (cover_remainder _ _ _ _ _ _ _ _) as [[[af pc]|e] s'] eqn:Hcov;
    [|done].
  apply cover_remainder_charges in Hcov as [[rows Hs'] _].
  injection Hrun as <- <-. simpl. rewrite Hs'. simpl. by rewrite Hch.
Qed.

Lemma StronglySorted_mono {A} (R R' : A → A → Prop) (l : list A) :
  (∀ x y, R x y → R' x y) → StronglySorted R l → StronglySorted R' l.
Proof.
  intros HR. induction 1 as [|x l _ IH Hx]; constructor; [done|].
  eapply Forall_impl; [exact Hx|]. intros y. apply HR.
Qed.

(** X20. [list_overages] returns exactly the overage charges of the user,
    each once, latest first.  A charge raised by [consume] appears in the
    list of the consuming user as soon as the call returns, and a
    [consume] call of one user, whatever it returns, leaves the list of
    every other user as it was. *)
Theorem list_overages_shows_the_charges_of_the_user :
  (∀ user t i c,
     (i, c) ∈ list_overages_stmt user t ↔
     overage_charges t !! i = Some c
     ∧ OverageCharge.user_id c = User.id user)
  ∧ (∀ user t,
       StronglySorted
         (λ x y : nat * OverageCharge.t,
            OverageCharge.generated_at y.2 ≤ OverageCharge.generated_at x.2)
         (list_overages_stmt user t)
       ∧ NoDup (list_overages_stmt user t).*1)
  ∧ (∀ config env user ty amount action cs action_hash allow_payg s r s2 c,
       consume config env user ty amount action cs action_hash allow_payg s
       = (Ok r, s2) →
       payg_triggered r = Some c →
       (length (overage_charges (live s)), c)
         ∈ list_overages_stmt user (live s2))
  ∧ (∀ config env user ty amount action cs action_hash allow_payg s res s2
       user',
       consume config env user ty amount action cs action_hash allow_payg s
       = (res, s2) →
       User.id user' ≠ User.id user →
       list_overages_stmt user' (live s2)
       = list_overages_stmt user' (live s)).
Proof.
  split_and!.
  - intros user t i c. unfold list_overages_stmt.
    rewrite elem_of_order_by, elem_of_select_where.
    by rewrite String.eqb_eq.
  - intros user t. split.
    + unfold list_overages_stmt.
      eapply StronglySorted_mono;
        [|apply (order_by_StronglySorted
                   (λ x y : nat * OverageCharge.t,
                      OverageCharge.generated_at y.2
                      <=? OverageCharge.generated_at x.2))].
      * intros x y H. simpl in H. by apply Z.leb_le in H.
      * intros x y. simpl.
        destruct (Z.le_ge_cases (OverageCharge.generated_at y.2)
                    (OverageCharge.generated_at x.2));
          [left|right]; by apply Z.leb_le.
      * intros x y z H1%Z.leb_le H2%Z.leb_le. apply Z.leb_le. lia.
    + unfold list_overages_stmt.
      rewrite (order_by_Permutation _ (select_where _ _)).
      apply NoDup_select_where_fst.
  - intros config env user ty amount action cs action_hash allow_payg s r
      s2 c Hrun Hc.
    pose proof (consume_result_charge _ _ _ _ _ _ _ _ _ _ _ _ Hrun) as Hch.
    pose proof (consume_shape _ _ _ _ _ _ _ _ _ _ _ _ Hrun)
      as (evs & chs & _ & Hchs & _ & _ & _ & Hall & _).
    rewrite Hc in Hch. rewrite Hch in Hchs.
    apply app_inv_head in Hchs. subst chs.
    apply Forall_singleton in Hall as (Hu & _).
    unfold list_overages_stmt.
    rewrite elem_of_order_by, elem_of_select_where, Hch.
    split; [|by apply String.eqb_eq].
    by rewrite lookup_app_r, Nat.sub_diag by done.
  - intros config env user ty amount action cs action_hash allow_payg s res
      s2 user' Hrun Hne.
    pose proof (consume_shape _ _ _ _ _ _ _ _ _ _ _ _ Hrun)
      as (evs & chs & _ & Hchs & _ & Hlen & _ & Hall & _).
    unfold list_overages_stmt. rewrite Hchs.
    destruct chs as [|c [|??]]; [by rewrite app_nil_r| |simpl in Hlen; lia].
    apply Forall_singleton in Hall as (Hu & _).
    rewrite select_where_snoc, Hu.
    rewrite (proj2 (String.eqb_neq _ _)) by congruence.
    by rewrite app_nil_r.
Qed.

(** ** [PointsService] *)

Lemma _calculate_balance_pools env user t :
  PointsService._calculate_balance env user t
  = allowance_balance env user BC t + rollover_balance env user BC t.
Proof. done. Qed.

(** X21. The balance [PointsService] computes with its own two queries is
    the build-credit balance of the billing service: for a positive amount
    [would_consume] returns exactly [_calculate_balance] and
    [_rollover_balance]. *)
Theorem points_balance_is_the_build_credit_balance env user amount s :
  0 < amount →
  would_consume env user BC amount s
  = (Ok (PointsService._calculate_balance env user (live s),
         PointsService._rollover_balance env user (live s)), s).
Proof.
  intros Ha. rewrite would_consume_run.
  by rewrite (proj2 (Z.leb_gt amount 0)) by done.
Qed.

(** X22. [ensure_balance] reads and never writes.  For a positive
    requirement it tells whether the build-credit balance covers it.  A
    requirement of zero or less is not reported as met: the pre-check it
    delegates to rejects the amount, and the call fails with
    [ValueError]. *)
Theorem ensure_balance_rejects_a_nonpositive_requirement env user required
    s :
  (required ≤ 0 →
   PointsService.ensure_balance env user required s = (Raise ValueError, s))
  ∧ (0 < required →
     PointsService.ensure_balance env user required s
     = (Ok (required
            <=? PointsService._calculate_balance env user (live s)), s)).
Proof.
  unfold PointsService.ensure_balance. split; intros Hr.
  - rewrite bind_run, would_consume_run, Z.max_r by done. done.
  - rewrite bind_run, would_consume_run, Z.max_l by lia.
    by rewrite (proj2 (Z.leb_gt required 0)) by done.
Qed.




(** X24. [recharge] fails with [ValueError] for an unknown package and
    changes nothing.  For one of the three packages it never fails: it
    grants a build-credit allowance of the package's points that does not
    expire, commits, and appends one transaction of type recharge whose
    change is the points and whose [balance_after] is the balance before
    plus the points. *)
Theorem recharge_adds_the_points_of_the_package env user package_id d :
  (RECHARGE_PACKAGES_BY_ID package_id = None →
   PointsService.recharge env user package_id d
   = (Failed (Billing ValueError), d))
  ∧ (∀ package,
       RECHARGE_PACKAGES_BY_ID package_id = Some package →
       Forall (λ b, RolloverBucket.allowance_id b ≠ uuid4 env 1)
         (rollover_buckets (live (billing_db d))) →
       ∃ tx d1 a,
         PointsService.recharge env user package_id d = (Done tx, d1)
         ∧ package ∈ RECHARGE_PACKAGES
         ∧ point_transactions d1 = point_transactions d ++ [tx]
         ∧ PointTransaction.type tx = PointTransactionType.RECHARGE
         ∧ PointTransaction.user_id tx = User.id user
         ∧ PointTransaction.change tx = package_points package
         ∧ PointTransaction.balance_after tx
           = PointsService._calculate_balance env user
               (live (billing_db d))
             + package_points package
         ∧ allowances (live (billing_db d1))
           = allowances (live (billing_db d)) ++ [a]
         ∧ Allowance.total a = package_points package
         ∧ Allowance.used a = 0
         ∧ Allowance.type a = BC
         ∧ Allowance.expires_at a = None
         ∧ durable (billing_db d1) = live (billing_db d1)).
Proof.
  unfold PointsService.recharge. split.
  - by intros ->.
  - intros package Hpk Hfresh. rewrite Hpk.
    assert (package ∈ RECHARGE_PACKAGES ∧ 0 < package_points package)
      as [Hin Hpos].
    { unfold RECHARGE_PACKAGES_BY_ID in Hpk.
      apply List.find_some in Hpk as [Hin%list_elem_of_In _].
      split; [done|].
      unfold RECHARGE_PACKAGES in Hin.
      repeat (apply elem_of_cons in Hin as [->|Hin]; [done|]).
      by apply elem_of_nil in Hin. }
    destruct (grant_allowance_fresh (env_skip 1 env) user None BC
                (package_points package) MONTHLY NONE None
                (Some ("recharge::" +:+ package_id +:+ "::" +:+ uuid4 env 0))
                (billing_db d) Hpos (or_introl eq_refl))
      as (a & Hrun & Ea).
    rewrite Hrun. unfold PointsService._record_transaction.
    cbn [billing_db point_transactions].
    eexists _, _, a. split; [reflexivity|].
    cbn [billing_db point_transactions live durable exec db_commit snd
           allowances set_allowances PointTransaction.change
           PointTransaction.balance_after PointTransaction.user_id
           PointTransaction.type].
    split_and!; try done; try (by rewrite Ea).
    rewrite !_calculate_balance_pools.
    assert (rollover_balance env user BC
              (set_allowances (live (billing_db d))
                 (allowances (live (billing_db d)) ++ [a]))
            = rollover_balance env user BC (live (billing_db d))) as ->.
    { unfold rollover_balance. cbn [rollover_buckets set_allowances].
      do 2 f_equal.
      apply List.filter_ext_in. intros b Hb%list_elem_of_In.
      unfold bucket_unexpired, bucket_has_type.
      cbn [allowances set_allowances]. rewrite existsb_app. simpl.
      rewrite Forall_forall in Hfresh. specialize (Hfresh b Hb).
      apply not_eq_sym, String.eqb_neq in Hfresh. rewrite Ea. simpl.
      rewrite Hfresh. simpl. by rewrite !orb_false_r. }
    unfold allowance_balance. cbn [allowances set_allowances].
    rewrite sumZ_filter_snoc. rewrite Ea. unfold allowance_eligible at 2.
    simpl. rewrite String.eqb_refl. simpl. lia.
Qed.

(** ** The auto-fix counter and the primary subscription *)

Lemma autofix_consumed_stable env user t t' :
  (∀ j x, allowance_daily_autofix t !! j = Some x →
          counter_matches env user x = true →
          allowance_daily_autofix t' !! j = Some x) →
  (∀ j x, allowance_daily_autofix t' !! j = Some x →
          counter_matches env user x = true →
          allowance_daily_autofix t !! j = Some x) →
  autofix_consumed env user t' = autofix_consumed env user t.
Proof.
  intros H1 H2. unfold autofix_consumed, _apply_autofix_stmt.
  change (λ r : AllowanceDailyAutofix.t, _ && _)
    with (counter_matches env user).
  by rewrite (first_select_where_stable _ _ _ H1 H2).
Qed.

Lemma counter_matches_other env env' user user' x :
  User.id user' ≠ User.id user ∨ date_key_of env' ≠ date_key_of env →
  counter_matches env user x = true → counter_matches env' user' x = false.
Proof.
  unfold counter_matches.
  intros Hne [Hu%String.eqb_eq Hk%Z.eqb_eq]%andb_true_iff.
  destruct Hne as [Hne|Hne].
  - rewrite (proj2 (String.eqb_neq _ _)); [done|]. congruence.
  - rewrite (proj2 (Z.eqb_neq _ _)); [apply andb_false_r|]. congruence.
Qed.

(** X25. [_apply_autofix] counts one grant per call for the user and the
    day of the call.  At the limit (that of the subscription, or the
    configured one when the subscription has none or has zero) it fails
    with [AutoFixLimitExceeded] and writes nothing.  Below it, the counter
    of the user and day goes up by one and stays within the limit: the row
    found is updated in place, its stored [limit] left as it was when the
    row was created; otherwise one row is appended with the limit of the
    call.  The count of any other user, and of any other day, is
    unchanged, and nothing is committed. *)
Theorem apply_autofix_counts_one_grant config env subscription user s :
  (autofix_limit_of config subscription
     ≤ autofix_consumed env user (live s) →
   _apply_autofix config env subscription user s
   = (Raise AutoFixLimitExceeded, s))
  ∧ (autofix_consumed env user (live s)
       < autofix_limit_of config subscription →
     ∃ record s1,
       _apply_autofix config env subscription user s = (Ok record, s1)
       ∧ AllowanceDailyAutofix.consumed record
         = autofix_consumed env user (live s) + 1
       ∧ AllowanceDailyAutofix.consumed record
         ≤ autofix_limit_of config subscription
       ∧ autofix_consumed env user (live s1)
         = AllowanceDailyAutofix.consumed record
       ∧ match _apply_autofix_stmt env user (live s) with
         | Some (j, old) =>
             allowance_daily_autofix (live s1)
             = <[j := record]> (allowance_daily_autofix (live s))
             ∧ AllowanceDailyAutofix.limit record
               = AllowanceDailyAutofix.limit old
             ∧ AllowanceDailyAutofix.id record
               = AllowanceDailyAutofix.id old
         | None =>
             allowance_daily_autofix (live s1)
             = allowance_daily_autofix (live s) ++ [record]
             ∧ AllowanceDailyAutofix.limit record
               = autofix_limit_of config subscription
         end
       ∧ (∀ env' user',
            User.id user' ≠ User.id user
            ∨ date_key_of env' ≠ date_key_of env →
            autofix_consumed env' user' (live s1)
            = autofix_consumed env' user' (live s))
       ∧ durable s1 = durable s)
  ∧ (UserSubscription.autofix_limit subscription = None
     ∨ UserSubscription.autofix_limit subscription = Some 0 →
     autofix_limit_of config subscription = auto_fix_daily_limit config).
Proof.
  split_and!.
  - apply _apply_autofix_limit.
  - intros Hc.
    destruct (_apply_autofix_grant config env subscription user s Hc)
      as (record & rows & i & Hrun & Hcons & Hq).
    exists record. eexists. split; [exact Hrun|].
    cbn [live durable allowance_daily_autofix set_allowance_daily_autofix].
    assert (autofix_consumed env user
              (set_allowance_daily_autofix (live s) rows)
            = AllowanceDailyAutofix.consumed record) as Hafter.
    { unfold autofix_consumed. by rewrite Hq. }
    unfold _apply_autofix in Hrun. rewrite bind_run, query_run in Hrun.
    unfold autofix_consumed in Hc.
    destruct (_apply_autofix_stmt env user (live s)) as [[j old]|] eqn:Hold;
      cbn beta iota in Hrun.
    + rewrite (proj2 (Z.leb_gt _ _)) in Hrun by done.
      injection Hrun as <- <-.
      pose proof Hold as (Hj & Hm & _)%first_select_where_Some.
      change ((_ =? _)%string && (_ =? _))
        with (counter_matches env user old) in Hm.
      split_and!; try done; [simpl in *; lia|].
      intros env' user' Hne. apply autofix_consumed_stable.
      * intros k x Hk Hx. cbn [allowance_daily_autofix set_allowance_daily_autofix].
        rewrite list_lookup_insert_ne; [done|]. intros <-.
        assert (x = old) as -> by congruence.
        by rewrite (counter_matches_other env env' user user' old) in Hx.
      * intros k x Hk Hx. cbn [allowance_daily_autofix set_allowance_daily_autofix] in Hk.
        destruct (decide (k = j)) as [->|Hkj].
        -- rewrite list_lookup_insert_eq in Hk by (by eapply lookup_lt_Some).
           injection Hk as <-.
           rewrite (counter_matches_other env env' user user'
                      (AllowanceDailyAutofix.set_consumed old
                         (AllowanceDailyAutofix.consumed old + 1))) in Hx;
             done.
        -- by rewrite list_lookup_insert_ne in Hk.
    + rewrite (proj2 (Z.leb_gt _ _)) in Hrun by done.
      injection Hrun as <- <-.
      split_and!; try done; [simpl in *; lia|].
      intros env' user' Hne. apply autofix_consumed_stable.
      * intros k x Hk Hx. cbn [allowance_daily_autofix set_allowance_daily_autofix].
        by apply lookup_app_l_Some.
      * intros k x Hk Hx. cbn [allowance_daily_autofix set_allowance_daily_autofix] in Hk.
        apply lookup_app_Some in Hk as [Hk|[_ Hk]]; [done|].
        destruct (k - _)%nat; [|done].
        assert (counter_matches env user x = true) as Hm.
        { injection Hk as <-. unfold counter_matches. simpl.
          by rewrite String.eqb_refl, Z.eqb_refl. }
        by rewrite (counter_matches_other env env' user user' x) in Hx.
  - unfold autofix_limit_of. by intros [->| ->].
Qed.

(** X26. [get_primary_subscription] returns a subscription of the user
    that is primary and active or trialing, and none of the user's other
    such subscriptions was created later; it returns nothing exactly when
    the user has no such subscription.  A past-due or canceled
    subscription, or one that is not primary, is never returned. *)
Theorem get_primary_subscription_is_the_latest_open user t :
  match get_primary_subscription_stmt user t with
  | Some (i, sub) =>
      user_subscriptions t !! i = Some sub
      ∧ UserSubscription.user_id sub = User.id user
      ∧ UserSubscription.is_primary sub = true
      ∧ (UserSubscription.status sub = ACTIVE
         ∨ UserSubscription.status sub = TRIALING)
      ∧ ∀ other, other ∈ user_subscriptions t →
                 primary_matches user other = true →
                 UserSubscription.created_at other
                 ≤ UserSubscription.created_at sub
  | None =>
      ∀ other, other ∈ user_subscriptions t →
               primary_matches user other = false
  end.
Proof.
  unfold get_primary_subscription_stmt.
  change (λ s : UserSubscription.t, _ && _ && _) with (primary_matches user).
  set (leb := λ x y : nat * UserSubscription.t,
                UserSubscription.created_at y.2
                <=? UserSubscription.created_at x.2).
  pose proof (order_by_StronglySorted leb
                ltac:(intros x y; unfold leb;
                      destruct (Z.le_ge_cases
                                  (UserSubscription.created_at y.2)
                                  (UserSubscription.created_at x.2));
                      [left|right]; by apply Z.leb_le)
                ltac:(intros x y z H1%Z.leb_le H2%Z.leb_le;
                      apply Z.leb_le; lia)
                (select_where (primary_matches user) (user_subscriptions t)))
    as Hsorted.
  pose proof (elem_of_order_by leb
                (select_where (primary_matches user) (user_subscriptions t)))
    as Hmem.
  destruct (order_by leb _) as [|[i sub] rest] eqn:Ho; simpl.
  - intros other [k Hk]%list_elem_of_lookup_1.
    destruct (primary_matches user other) eqn:Hm; [|done].
    assert ((k, other) ∈ @nil (nat * UserSubscription.t)) as Hin
      by (apply Hmem, elem_of_select_where; done).
    by apply elem_of_nil in Hin.
  - assert ((i, sub) ∈ select_where (primary_matches user)
                         (user_subscriptions t)) as Hin
      by (apply Hmem; by left).
    apply elem_of_select_where in Hin as [Hi Hm].
    pose proof Hm as Hm'. unfold primary_matches in Hm'.
    apply andb_true_iff in Hm' as [[Hu%String.eqb_eq Hp]%andb_true_iff Hs].
    split_and!; try done.
    + destruct (UserSubscription.status sub); auto; done.
    + intros other [k Hk]%list_elem_of_lookup_1 Hmo.
      assert ((k, other) ∈ (i, sub) :: rest) as Hin
        by (apply Hmem, elem_of_select_where; done).
      apply elem_of_cons in Hin as [[= _ ->]|Hin]; [done|].
      apply StronglySorted_inv in Hsorted as [_ Hall].
      rewrite Forall_forall in Hall. specialize (Hall _ Hin).
      unfold leb in Hall. simpl in Hall. by apply Z.leb_le in Hall.
Qed.

(** ** Credit is never created *)

Lemma consume_pool_balance config env user ty amount action cs action_hash
    allow_payg s res s2 :
  consume config env user ty amount action cs action_hash allow_payg s
  = (res, s2) →
  ∃ d, 0 ≤ d ≤ Z.max amount 0
       ∧ pool_balance (live s2) = pool_balance (live s) - d.
Proof.
  intros Hrun.
  destruct (Z.lt_ge_cases 0 amount) as [Ha|Ha].
  2:{ unfold consume in Hrun.
      rewrite (proj2 (Z.leb_le amount 0)) in Hrun by done.
      injection Hrun as <- <-. exists 0. lia. }
  destruct (consume_existing_stmt action_hash (live s)) as [ex|] eqn:Hex.
  { rewrite (consume_hit _ _ _ _ _ _ _ _ _ _ _ Ha Hex) in Hrun.
    injection Hrun as <- <-. exists 0. lia. }
  destruct (consume_after_drain config env user ty amount action cs
              action_hash allow_payg s Ha Hex)
    as (r & d & last & s1 & Hd & _ & _ & _ & _ & _ & _ & Hpb & Hc).
  destruct (drain_pools_spec _ _ _ _ _ _ _ _ _ Hd)
    as (? & ? & _ & _ & _ & ? & ? & ? & _).
  rewrite Hc in Hrun. clear Hc. exists d. split; [lia|].
  destruct (cover_remainder _ _ _ _ _ _ _ _) as [[[af pc]|e] s'] eqn:Hcov;
    apply cover_remainder_frame in Hcov as [(rows & charges & ->) _];
    injection Hrun as <- <-; exact Hpb.
Qed.

(** X27. No sequence of [consume] calls, whatever each returns, creates
    credit: the credit held in all buckets and allowances never goes up,
    and it goes down by no more than the positive amounts asked for. *)
Theorem consume_never_creates_credit config (calls : list ConsumeCall)
    (s : Session) :
  pool_balance (live (consume_calls config calls s)) ≤ pool_balance (live s)
  ∧ pool_balance (live s)
    - sumZ (map (λ c, Z.max (call_amount c) 0) calls)
    ≤ pool_balance (live (consume_calls config calls s)).
Proof.
  revert s. induction calls as [|c calls IH]; intros s.
  { unfold sumZ. simpl. lia. }
  change (consume_calls config (c :: calls) s)
    with (consume_calls config calls (exec (consume_call config c) s)).
  destruct (IH (exec (consume_call config c) s)) as [Hup Hdown].
  unfold exec in *.
  destruct (consume_call config c s) as [res s1] eqn:Hrun.
  apply consume_pool_balance in Hrun as (d & Hd & Hpb).
  cbn [snd] in *.
  change (sumZ (map (λ c, Z.max (call_amount c) 0) (c :: calls)))
    with (Z.max (call_amount c) 0
          + sumZ (map (λ c, Z.max (call_amount c) 0) calls)).
  lia.
Qed.

Lemma sumZ_filter_le {A} (q q' : A → bool) (f : A → Z) (l : list A) :
  (∀ x, q' x = true → q x = true) →
  Forall (λ x, 0 ≤ f x) l →
  sumZ (map f (List.filter q' l)) ≤ sumZ (map f (List.filter q l)).
Proof.
  unfold sumZ. intros Hq. induction 1 as [|x l Hx _ IH]; simpl; [done|].
  destruct (q' x) eqn:E'.
  - rewrite (Hq x E'). simpl. lia.
  - destruct (q x); simpl; lia.
Qed.

(** X28. Waiting never adds credit.  On the same session, the balance
    [would_consume] reports at a later time, and the rollover part of it,
    are at most what it reports at an earlier time: allowances and buckets
    only drop out of its queries as they expire. *)
Theorem balance_never_grows_with_time env env' user ty amount s available
    rollover available' rollover' :
  utcnow env ≤ utcnow env' →
  ledger_ok (live s) →
  would_consume env user ty amount s = (Ok (available, rollover), s) →
  would_consume env' user ty amount s = (Ok (available', rollover'), s) →
  available' ≤ available ∧ rollover' ≤ rollover.
Proof.
  intros Hnow [_ Hb]. rewrite !would_consume_run.
  destruct (amount <=? 0); [done|]. intros [= <- <-] [= <- <-].
  assert (rollover_balance env' user ty (live s)
          ≤ rollover_balance env user ty (live s)) as Hr.
  { unfold rollover_balance. apply sumZ_filter_le; [|done].
    intros b. unfold bucket_unexpired.
    intros [-> Hne]%andb_true_iff. simpl.
    by eapply not_expired_earlier. }
  assert (allowance_balance env' user ty (live s)
          ≤ allowance_balance env user ty (live s)) as Ha.
  { unfold allowance_balance. apply sumZ_filter_le.
    - intros a. unfold allowance_eligible.
      intros [-> Hne]%andb_true_iff. simpl.
      by eapply not_expired_earlier.
    - apply Forall_forall. intros a _. lia. }
  lia.
Qed.

(** ** The event a call records *)

(** X29. The idempotency key is the [action_hash] alone.  Once a call has
    recorded an event under a hash, any later call that supplies the hash,
    by whatever user and for whatever credit type and positive amount,
    charges nothing and returns that event, which belongs to the first
    caller; its [total_deducted] is the amount the first call asked for,
    and it reports neither charge nor grant.  So when the pools held less
    than the first call asked for, the repetition reports more as deducted
    than the first call did. *)
Theorem replay_is_keyed_by_the_hash_alone config env user ty amount action cs
    h allow_payg s r s1 :
  h ≠ "" →
  consume_existing_stmt (Some h) (live s) = None →
  consume config env user ty amount action cs (Some h) allow_payg s
  = (Ok r, s1) →
  ledger_ok (live s) →
  ∀ env' user' ty' amount' action' cs' allow_payg',
    0 < amount' →
    ∃ r',
      consume config env' user' ty' amount' action' cs' (Some h) allow_payg'
        s1
      = (Ok r', s1)
      ∧ event r' = event r
      ∧ ConsumptionEvent.user_id (event r') = User.id user
      ∧ total_deducted r' = amount
      ∧ payg_triggered r' = None ∧ autofix_grant r' = None
      ∧ (pools_available env user ty (live s) < amount →
         total_deducted r < total_deducted r').
Proof.
  intros Hh Hex Hrun Hok env' user' ty' amount' action' cs' allow_payg' Ha'.
  assert (0 < amount) as Ha.
  { destruct (Z.lt_ge_cases 0 amount) as [|Hle]; [done|].
    unfold consume in Hrun.
    rewrite (proj2 (Z.leb_le amount 0)) in Hrun by lia. discriminate. }
  destruct (consume_records_hash _ _ _ _ _ _ _ _ _ _ _ _ Ha Hh Hrun)
    as [Hrec _].
  pose proof (consume_accounting _ _ _ _ _ _ _ _ _ _ _ _ Hrun Hex Hok)
    as (Hd & _).
  assert (ConsumptionEvent.amount (event r) = amount
          ∧ ConsumptionEvent.user_id (event r) = User.id user) as [Hamt Hu].
  { destruct (consume_after_drain config env user ty amount action cs
                (Some h) allow_payg s Ha Hex)
      as (r0 & d0 & last & s0 & _ & _ & _ & _ & _ & _ & _ & _ & Heq).
    rewrite Heq in Hrun.
    destruct (cover_remainder config env user ty r0 action allow_payg s0)
      as [[[af pc]|e] s2]; [|discriminate].
    injection Hrun as <- _. done. }
  eexists. split; [by apply consume_hit|]. simpl.
  split_and!; try done. lia.
Qed.

(** The allowance the second loop charged last is the one it returns: the
    rows that come after it in the order of the loop are as they were.
    When the loop returns the allowance it was given, it has charged
    none. *)
Lemma drain_allowances_last ixs r d last als r' d' last' als' :
  NoDup ixs →
  drain_allowances ixs r d last als = (r', d', last', als') →
  (last' = last ∧ als' = als)
  ∨ ∃ k i a a',
      ixs !! k = Some i ∧ als !! i = Some a ∧ als' !! i = Some a'
      ∧ last' = Some a'
      ∧ Allowance.id a' = Allowance.id a
      ∧ Allowance.used a < Allowance.used a'
      ∧ ∀ k' j, (k < k')%nat → ixs !! k' = Some j → als' !! j = als !! j.
Proof.
  revert r d last als.
  induction ixs as [|i ixs IH]; intros r d last als Hnd Hrun; simpl in Hrun.
  { injection Hrun as <- <- <- <-. by left. }
  apply NoDup_cons in Hnd as [Hi Hnd].
  assert (∀ r d last,
            drain_allowances ixs r d last als = (r', d', last', als') →
            (last' = last ∧ als' = als)
            ∨ ∃ k j a a',
                (i :: ixs) !! k = Some j ∧ als !! j = Some a
                ∧ als' !! j = Some a' ∧ last' = Some a'
                ∧ Allowance.id a' = Allowance.id a
                ∧ Allowance.used a < Allowance.used a'
                ∧ ∀ k' j', (k < k')%nat → (i :: ixs) !! k' = Some j' →
                    als' !! j' = als !! j') as Hskip.
  { intros r0 d0 last0 Hrun0.
    destruct (IH _ _ _ _ Hnd Hrun0)
      as [?|(k & j & x & x' & Hk & Hx & Hx' & Hl & Hid & Hlt & Hrest)];
      [by left|].
    right. exists (S k), j, x, x'. split_and!; try done.
    intros [|k'] j' Hlt' Hj'; [lia|].
    apply (Hrest k' j'); [lia|done]. }
  destruct (r <=? 0) eqn:Hr.
  { injection Hrun as <- <- <- <-. by left. }
  destruct (als !! i) as [a|] eqn:Ha; [|by eapply Hskip].
  destruct (Z.max (Allowance.total a - Allowance.used a) 0 <=? 0) eqn:Hav;
    [by eapply Hskip|].
  apply Z.leb_gt in Hr, Hav.
  assert (∀ k' j', (i :: ixs) !! S k' = Some j' → j' ≠ i) as Hne.
  { intros k' j' Hj' ->. apply Hi. by eapply list_elem_of_lookup_2. }
  right.
  destruct (IH _ _ _ _ Hnd Hrun)
    as [[-> ->]
       |(k & j & x & x' & Hk & Hx & Hx' & -> & Hid & Hlt & Hrest)].
  - eexists 0%nat, i, a, _. split_and!; [done|done| |done|done|simpl; lia|].
    + apply list_lookup_insert_eq. by eapply lookup_lt_Some.
    + intros [|k'] j' Hlt' Hj'; [lia|].
      apply list_lookup_insert_ne. intros <-. by eapply Hne.
  - assert (j ≠ i) as Hji by (by eapply (Hne k)).
    exists (S k), j, x, x'. split_and!; try done.
    + by rewrite list_lookup_insert_ne in Hx.
    + intros [|k'] j' Hlt' Hj'; [lia|].
      rewrite (Hrest k' j'); [|lia|done].
      apply list_lookup_insert_ne. intros <-. by eapply Hne.
Qed.

(** X30. The event of a [consume] call names the allowance charged last.
    When it names one, that allowance is a row of the query of the call
    for the user and credit type, more is used on it than before, and
    every row that the query returns after it is exactly as it was: no
    allowance later in the order of the loop has been charged.  When the
    event names none, no allowance has been charged at all: the amount
    came from rollover buckets, an overage charge or an auto-fix
    grant. *)
Theorem event_names_the_last_allowance_charged config env user ty amount
    action cs action_hash allow_payg s r s2 :
  consume config env user ty amount action cs action_hash allow_payg s
  = (Ok r, s2) →
  consume_existing_stmt action_hash (live s) = None →
  match ConsumptionEvent.allowance_id (event r) with
  | Some id =>
      ∃ k i a a',
        _iter_allowances_stmt env user ty (live s) !! k = Some (i, a)
        ∧ allowances (live s2) !! i = Some a'
        ∧ Allowance.id a = id ∧ Allowance.id a' = id
        ∧ Allowance.used a < Allowance.used a'
        ∧ ∀ k' j b,
            (k < k')%nat →
            _iter_allowances_stmt env user ty (live s) !! k' = Some (j, b) →
            allowances (live s2) !! j = Some b
  | None => allowances (live s2) = allowances (live s)
  end.
Proof.
  intros Hrun Hex.
  assert (0 < amount) as Ha.
  { destruct (Z.lt_ge_cases 0 amount) as [|Hle]; [done|].
    unfold consume in Hrun.
    rewrite (proj2 (Z.leb_le amount 0)) in Hrun by lia. discriminate. }
  destruct (drain_pools_run env user ty amount s)
    as (r1 & d1 & bs' & r0 & d0 & last & als' & _ & Hal & Hd).
  rewrite (consume_miss config env user ty amount action cs action_hash
             allow_payg s r0 d0 last _ Ha Hex Hd) in Hrun.
  destruct (cover_remainder config env user ty r0 action allow_payg _)
    as [[[af pc]|e] s3] eqn:Hc; [|discriminate].
  apply cover_remainder_frame in Hc as [(rows & charges & ->) _].
  injection Hrun as <- <-. simpl.
  destruct (drain_allowances_last _ _ _ _ _ _ _ _ _
              (NoDup_iter_allowances env user ty (live s)) Hal)
    as [[-> ->]
       |(k & i & a & a' & Hk & Hl & Hl' & -> & Hid & Hlt & Hrest)]; [done|].
  assert (∀ k j b,
            _iter_allowances_stmt env user ty (live s) !! k = Some (j, b) →
            (_iter_allowances_stmt env user ty (live s)).*1 !! k = Some j
            ∧ allowances (live s) !! j = Some b) as Hrow.
  { intros k0 j b Hkb. split.
    - by rewrite list_lookup_fmap, Hkb.
    - apply list_elem_of_lookup_2 in Hkb.
      by apply elem_of_iter_allowances in Hkb as [? _]. }
  simpl. exists k, i, a, a'.
  rewrite list_lookup_fmap in Hk.
  destruct (_iter_allowances_stmt env user ty (live s) !! k)
    as [[i0 a0]|] eqn:Hk0; [|discriminate].
  simpl in Hk. injection Hk as ->.
  destruct (Hrow _ _ _ Hk0) as [_ Hl0].
  rewrite Hl in Hl0. injection Hl0 as <-.
  split_and!; try done.
  intros k' j b Hlt' Hjb.
  destruct (Hrow _ _ _ Hjb) as [Hj <-].
  by apply (Hrest k' j).
Qed.

(** ** The further properties at work on the sample data *)

Lemma ledger_ok_bucket_and_allowance : ledger_ok (live bucket_and_allowance).
Proof.
  split; (apply Forall_cons; split; [simpl; lia|apply Forall_nil_2]).
Qed.

Lemma ledger_ok_pro_cycle_end : ledger_ok (live pro_cycle_end).
Proof.
  split; [apply Forall_cons; split; [simpl; lia|apply Forall_nil_2]|].
  apply Forall_nil_2.
Qed.

Lemma ledger_ok_pro_usage_exhausted : ledger_ok (live pro_usage_exhausted).
Proof.
  split; [apply Forall_cons; split; [simpl; lia|apply Forall_nil_2]|].
  apply Forall_nil_2.
Qed.

Lemma plans_seedable_pro_cycle_end : plans_seedable (live pro_cycle_end).
Proof.
  split.
  - simpl. repeat (apply NoDup_cons; split;
                   [rewrite ?elem_of_cons, elem_of_nil; intros H;
                    repeat (destruct H as [H|H]; [discriminate H|]); done|]).
    apply NoDup_nil_2.
  - intros p seed. unfold DEFAULT_PLAN_SEEDS. simpl.
    rewrite !elem_of_cons, !elem_of_nil.
    intros [->|[->|[]]] [->|[->|[->|[->|[]]]]]; by simpl.
Qed.

Lemma membership_free_pro_cycle_end :
  membership_free alice pro_plan (live pro_cycle_end).
Proof. by intros j row ?. Qed.

Lemma usage_total_of_pro_cycle_end :
  usage_total_of DEFAULT_CONFIG (activated_plan pro_plan (live pro_cycle_end))
  = Ok 1200.
Proof. vm_compute. reflexivity. Qed.

Lemma allowance_specs_of_pro_cycle_end :
  allowance_specs_of (activated_plan pro_plan (live pro_cycle_end)) 1200
  = [(BC, 400, ONE_CYCLE); (RC, 6000, ONE_CYCLE); (USAGE, 1200, NONE)].
Proof. vm_compute. reflexivity. Qed.

Lemma allowance_specs_fit_pro_cycle_end :
  Forall (λ spec : AllowanceType * Z * RolloverPolicy,
            spec.1.2 ≤ INTEGER_MAX)
    (allowance_specs_of (activated_plan pro_plan (live pro_cycle_end)) 1200).
Proof.
  rewrite allowance_specs_of_pro_cycle_end.
  repeat (apply Forall_cons; split; [by vm_compute|]). apply Forall_nil_2.
Qed.

Lemma consume_charges_only_eligible_rows_witness :
  ∃ res s2,
    consume DEFAULT_CONFIG (sample_env 1000) alice RC 30 "run" 0 None true
      bucket_and_allowance = (res, s2)
    ∧ allowances (live s2) !! 0%nat = Some (sample_allowance BC 200 100).
Proof.
  assert (∃ res s2,
            consume DEFAULT_CONFIG (sample_env 1000) alice RC 30 "run" 0 None
              true bucket_and_allowance = (res, s2))
    as (res & s2 & Hrun) by (eexists _, _; vm_compute; reflexivity).
  exists res, s2. split; [exact Hrun|].
  exact (proj1 (consume_charges_only_eligible_rows _ _ _ _ _ _ _ _ _ _ _ _
                  Hrun) 0%nat (sample_allowance BC 200 100) eq_refl eq_refl).
Defined.


Lemma consume_deducts_what_the_pools_hold_witness :
  ∃ r s2,
    consume DEFAULT_CONFIG (sample_env 1000) alice BC 30 "build" 0 None true
      bucket_and_allowance = (Ok r, s2)
    ∧ total_deducted r
      = Z.min 30 (pools_available (sample_env 1000) alice BC
                    (live bucket_and_allowance)).
Proof.
  assert (∃ r s2,
            consume DEFAULT_CONFIG (sample_env 1000) alice BC 30 "build" 0
              None true bucket_and_allowance = (Ok r, s2))
    as (r & s2 & Hrun) by (eexists _, _; vm_compute; reflexivity).
  exists r, s2. split; [exact Hrun|].
  exact (proj1 (consume_deducts_what_the_pools_hold _ _ _ _ _ _ _ _ _ _ _ _
                  Hrun eq_refl ledger_ok_bucket_and_allowance)).
Defined.

Lemma nonpositive_amount_is_rejected_witness :
  0 ≤ 0
  ∧ consume DEFAULT_CONFIG (sample_env 1000) alice BC 0 "build" 0
      (Some "action-1") true bucket_and_allowance
    = (Raise ValueError, bucket_and_allowance).
Proof.
  split; [lia|].
  exact (proj1 (proj2 (nonpositive_amount_is_rejected DEFAULT_CONFIG
                         (sample_env 1000) alice None BC 0 "build" 0
                         (Some "action-1") true MONTHLY NONE None None
                         bucket_and_allowance ltac:(lia)))).
Defined.

Lemma grant_allowance_adds_credit_witness :
  (∃ s1,
     grant_allowance (sample_env 1000) alice (Some pro_plan) BC 500 MONTHLY
       NONE None (Some "plan_activation") bucket_and_allowance
     = (Raise IntegrityError, s1))
  ∧ ∃ a s1,
      grant_allowance (sample_env 1000) alice None BC 500 MONTHLY NONE None
        (Some "recharge") bucket_and_allowance = (Ok a, s1)
      ∧ allowances (live s1) = [sample_allowance BC 200 100; a]
      ∧ Allowance.total a = 500.
Proof.
  split.
  - destruct (proj1 (grant_allowance_adds_credit (sample_env 1000) alice
                       (Some pro_plan) BC 500 MONTHLY NONE None
                       (Some "plan_activation") bucket_and_allowance
                       ltac:(split; [lia|by vm_compute]))
                eq_refl)
      as (s1 & Hrun & _).
    by exists s1.
  - destruct (proj2 (proj2 (grant_allowance_adds_credit (sample_env 1000)
                              alice None BC 500 MONTHLY NONE None
                              (Some "recharge") bucket_and_allowance
                              ltac:(split; [lia|by vm_compute])))
                eq_refl)
      as (a & s1 & Hrun & Hal & _ & _ & Ht & _).
    by exists a, s1.
Defined.

Lemma revoke_allowance_ends_eligibility_witness :
  ∃ s1,
    revoke_allowance (sample_env 1000) (0%nat, sample_allowance BC 200 100)
      bucket_and_allowance
    = (Ok (expire_allowance (sample_allowance BC 200 100) 1000), s1)
    ∧ rollover_usable (sample_env 1000) alice BC (live s1)
      = rollover_usable (sample_env 1000) alice BC
          (live bucket_and_allowance).
Proof.
  destruct (revoke_allowance_ends_eligibility (sample_env 1000) 0%nat
              (sample_allowance BC 200 100) bucket_and_allowance eq_refl)
    as (s1 & Hrun & _ & _ & _ & _ & Hroll).
  exists s1. split; [exact Hrun|]. apply Hroll.
Defined.

Lemma activate_plan_keeps_balances_in_bounds_witness :
  ledger_ok
    (live (exec (activate_plan DEFAULT_CONFIG (sample_env 1000) alice
                   pro_plan "plan_activation") pro_cycle_end)).
Proof.
  exact (proj1 (activate_plan_keeps_balances_in_bounds DEFAULT_CONFIG
                  (sample_env 1000) alice pro_plan "plan_activation"
                  pro_cycle_end ledger_ok_pro_cycle_end)).
Defined.

Lemma activate_plan_grants_the_plan_quota_witness :
  ∃ i a,
    _upsert_allowance_stmt alice pro_plan USAGE
      (live (exec (activate_plan DEFAULT_CONFIG (sample_env 1000) alice
                     pro_plan "plan_activation") pro_cycle_end))
    = Some (i, a)
    ∧ Allowance.total a = 1200 ∧ Allowance.used a = 0.
Proof.
  assert ((USAGE, 1200, NONE)
            ∈ allowance_specs_of
                (activated_plan pro_plan (live pro_cycle_end)) 1200) as Hin.
  { rewrite allowance_specs_of_pro_cycle_end.
    apply elem_of_cons. right. apply elem_of_cons. right.
    apply elem_of_cons. left. reflexivity. }
  assert (0 < 1200 ≤ INTEGER_MAX) as Hfits.
  { split; [lia|]. intros H. discriminate H. }
  destruct (proj1 (activate_plan_grants_the_plan_quota DEFAULT_CONFIG
                     (sample_env 1000) alice pro_plan "plan_activation"
                     pro_cycle_end 1200 USAGE 1200 NONE
                     plans_seedable_pro_cycle_end
                     membership_free_pro_cycle_end
                     usage_total_of_pro_cycle_end Hin Hfits))
    as (i & a & Hq & Ht & Hu & _).
  exists i, a. split; [exact Hq|]. split; [exact Ht|exact Hu].
Defined.

Lemma activate_plan_sets_primary_subscription_witness :
  (∃ subscription s1,
     activate_plan DEFAULT_CONFIG (sample_env 1000) alice pro_plan
       "plan_activation" pro_cycle_end = (Ok subscription, s1)
     ∧ UserSubscription.plan_id subscription = Plan.id pro_plan)
  ∧ ∃ s1,
      activate_plan DEFAULT_CONFIG (sample_env 1000) alice pro_plan
        "plan_activation" pro_canceled = (Raise IntegrityError, s1).
Proof.
  split.
  - destruct (proj1 (activate_plan_sets_primary_subscription DEFAULT_CONFIG
                       (sample_env 1000) alice pro_plan "plan_activation"
                       pro_cycle_end 1200 plans_seedable_pro_cycle_end
                       usage_total_of_pro_cycle_end
                       allowance_specs_fit_pro_cycle_end)
                membership_free_pro_cycle_end)
      as (subscription & s1 & i & Hrun & _ & _ & Hplan & _).
    exists subscription, s1. split; [exact Hrun|exact Hplan].
  - destruct (proj2 (activate_plan_sets_primary_subscription DEFAULT_CONFIG
                       (sample_env 1000) alice pro_plan "plan_activation"
                       pro_canceled 1200 plans_seedable_pro_cycle_end
                       usage_total_of_pro_cycle_end
                       allowance_specs_fit_pro_cycle_end)
                0%nat _ eq_refl eq_refl eq_refl
                (λ H, eq_ind None
                        (λ o, match o with None => True | Some _ => False end)
                        I _ H))
      as (s1 & Hrun & _).
    exists s1. exact Hrun.
Defined.

Lemma ensure_default_plans_is_idempotent_witness :
  ∃ rows,
    ensure_default_plans pro_cycle_end
    = (Ok (plan_of_seed <$> DEFAULT_PLAN_SEEDS),
       {| live := set_plans (live pro_cycle_end) rows;
          durable := durable pro_cycle_end |}).
Proof.
  destruct (proj1 (ensure_default_plans_is_idempotent pro_cycle_end)
              plans_seedable_pro_cycle_end)
    as (rows & Hrun & _).
  exists rows. exact Hrun.
Defined.

Lemma renewal_moves_leftover_to_rollover_witness :
  rollover_usable (sample_env 1000) alice BC
    (live (exec (_upsert_allowance (sample_env 1000) alice pro_plan BC 400
                   ONE_CYCLE (1000 + timedelta_days 30) "plan_activation")
             pro_cycle_end))
  = rollover_usable (sample_env 1000) alice BC (live pro_cycle_end) + 250.
Proof.
  exact (proj2 (proj2 (renewal_moves_leftover_to_rollover (sample_env 1000)
                         alice pro_plan BC 400 ONE_CYCLE
                         (1000 + timedelta_days 30) "plan_activation"
                         pro_cycle_end 0%nat (sample_allowance BC 400 150)
                         eq_refl ltac:(lia) ltac:(by vm_compute)
                         ledger_ok_pro_cycle_end))).
Defined.

Lemma grant_daily_autofix_bc_is_idempotent_witness :
  ∃ r s1,
    grant_daily_autofix_bc DEFAULT_CONFIG pretty (sample_env 1000) alice
      (Some 0) free_without_credit = (Ok r, s1)
    ∧ grant_daily_autofix_bc DEFAULT_CONFIG pretty (sample_env 2000) alice
        None s1 = (Ok r, s1)
    ∧ r ≠ None.
Proof.
  destruct (grant_daily_autofix_bc_is_idempotent DEFAULT_CONFIG pretty
              (sample_env 1000) (sample_env 2000) alice (Some 0) None
              free_without_credit eq_refl)
    as (r & s1 & Hrun & Hagain & _ & Hsome & _).
  exists r, s1. split_and!; [done|done|]. apply Hsome. by vm_compute.
Defined.

Lemma grant_daily_autofix_bc_lasts_until_midnight_witness :
  ∃ a s1 i,
    grant_daily_autofix_bc DEFAULT_CONFIG pretty (sample_env 1000) alice None
      free_without_credit = (Ok (Some a), s1)
    ∧ grant_daily_autofix_bc_stmt alice (daily_source pretty 0) (live s1)
      = Some (i, a)
    ∧ Allowance.total a = 1
    ∧ allowance_eligible (sample_env 86399) alice BC a = true
    ∧ allowance_eligible (sample_env 86400) alice BC a = false.
Proof.
  destruct (grant_daily_autofix_bc_lasts_until_midnight DEFAULT_CONFIG pretty
              (sample_env 1000) alice None free_without_credit
              ltac:(by vm_compute))
    as (a & s1 & i & Hrun & Hq & Ht & _ & Hel & _).
  exists a, s1, i. split_and!; [done|done|done|..]; by rewrite Hel.
Defined.

Lemma points_balance_is_the_build_credit_balance_witness :
  would_consume (sample_env 1000) alice BC 1 bucket_and_allowance
  = (Ok (PointsService._calculate_balance (sample_env 1000) alice
           (live bucket_and_allowance),
         PointsService._rollover_balance (sample_env 1000) alice
           (live bucket_and_allowance)), bucket_and_allowance)
  ∧ PointsService._calculate_balance (sample_env 1000) alice
      (live bucket_and_allowance) = 150.
Proof.
  split; [|by vm_compute].
  exact (points_balance_is_the_build_credit_balance (sample_env 1000) alice 1
           bucket_and_allowance ltac:(lia)).
Defined.

Lemma balance_never_grows_with_time_witness :
  would_consume (sample_env 1000) alice BC 1 bucket_and_allowance
  = (Ok (150, 50), bucket_and_allowance)
  ∧ would_consume (sample_env (timedelta_days 25)) alice BC 1
      bucket_and_allowance
    = (Ok (100, 0), bucket_and_allowance)
  ∧ 100 ≤ 150 ∧ 0 ≤ 50.
Proof.
  assert (would_consume (sample_env 1000) alice BC 1 bucket_and_allowance
          = (Ok (150, 50), bucket_and_allowance)) as H1
    by (vm_compute; reflexivity).
  assert (would_consume (sample_env (timedelta_days 25)) alice BC 1
            bucket_and_allowance
          = (Ok (100, 0), bucket_and_allowance)) as H2
    by (vm_compute; reflexivity).
  split; [exact H1|]. split; [exact H2|].
  exact (balance_never_grows_with_time (sample_env 1000)
           (sample_env (timedelta_days 25)) alice BC 1 bucket_and_allowance
           150 50 100 0 ltac:(by vm_compute) ledger_ok_bucket_and_allowance
           H1 H2).
Defined.

Lemma replay_is_keyed_by_the_hash_alone_witness :
  ∃ r s1 r',
    consume DEFAULT_CONFIG (sample_env 1000) alice USAGE 40 "usage:bandwidth"
      0 (Some "request-1") true pro_usage_exhausted = (Ok r, s1)
    ∧ consume DEFAULT_CONFIG (sample_env 2000) {| User.id := "bob" |} BC 7
        "build" 0 (Some "request-1") false s1 = (Ok r', s1)
    ∧ event r' = event r
    ∧ total_deducted r' = 40
    ∧ total_deducted r < total_deducted r'.
Proof.
  assert (∃ r s1,
            consume DEFAULT_CONFIG (sample_env 1000) alice USAGE 40
              "usage:bandwidth" 0 (Some "request-1") true pro_usage_exhausted
            = (Ok r, s1))
    as (r & s1 & Hrun) by (eexists _, _; vm_compute; reflexivity).
  destruct (replay_is_keyed_by_the_hash_alone DEFAULT_CONFIG (sample_env 1000)
              alice USAGE 40 "usage:bandwidth" 0 "request-1" true
              pro_usage_exhausted r s1 ltac:(discriminate) eq_refl Hrun
              ledger_ok_pro_usage_exhausted (sample_env 2000)
              {| User.id := "bob" |} BC 7 "build" 0 false ltac:(lia))
    as (r' & Hrun' & He & _ & Hd & _ & _ & Hlt).
  exists r, s1, r'.
  split_and!; [exact Hrun|exact Hrun'|exact He|exact Hd|].
  apply Hlt. reflexivity.
Defined.

Lemma event_names_the_last_allowance_charged_witness :
  ∃ r s2,
    consume DEFAULT_CONFIG (sample_env 1000) alice BC 150 "build" 0 None true
      two_allowances = (Ok r, s2)
    ∧ ConsumptionEvent.allowance_id (event r) = Some "allowance-2"
    ∧ match ConsumptionEvent.allowance_id (event r) with
      | Some id =>
          ∃ k i a a',
            _iter_allowances_stmt (sample_env 1000) alice BC
              (live two_allowances) !! k = Some (i, a)
            ∧ allowances (live s2) !! i = Some a'
            ∧ Allowance.id a = id ∧ Allowance.id a' = id
            ∧ Allowance.used a < Allowance.used a'
            ∧ ∀ k' j b,
                (k < k')%nat →
                _iter_allowances_stmt (sample_env 1000) alice BC
                  (live two_allowances) !! k' = Some (j, b) →
                allowances (live s2) !! j = Some b
      | None => allowances (live s2) = allowances (live two_allowances)
      end.
Proof.
  assert (∃ r s2,
            consume DEFAULT_CONFIG (sample_env 1000) alice BC 150 "build" 0
              None true two_allowances = (Ok r, s2)
            ∧ ConsumptionEvent.allowance_id (event r) = Some "allowance-2")
    as (r & s2 & Hrun & Hid)
    by (eexists _, _; split; vm_compute; reflexivity).
  exists r, s2. split; [exact Hrun|]. split; [exact Hid|].
  exact (event_names_the_last_allowance_charged _ _ _ _ _ _ _ _ _ _ _ _ Hrun
           eq_refl).
Defined.
